(** * tinyplist: the XML property-list reader and writer

    A shallow embedding of [src/tinyplist/parser.mjs] and
    [src/tinyplist/serializer.mjs], and the properties of the reader and
    the writer stated over it.

    The two modules are glue over the browser, so the embedding has three
    layers:
    - the built-ins whose behaviour ECMAScript and the WHATWG standards
      fix are defined here and computed with: [Number], [BigInt],
      [parseFloat] and [String] on numbers (module [JS], binary64 values
      with correct rounding), [btoa] and [atob] (module [Base64]),
      [Object.fromEntries] (module [Obj]), [children], [textContent] and
      [querySelector] (module [Dom]);
    - what depends on the browser at hand is a field of the record
      [Host]: the XML parser and serializer, the Date parser and printer,
      and the presence of the base64 methods of [Uint8Array];
    - the functions of the two modules are transcribed over these, in
      [Parser] and [Serializer], under their own names.

    JavaScript strings are modelled as [string]: a sequence of code units,
    here the code units below 256.  A [Uint8Array] is a [list byte].  The
    reader runs in a monad of console warnings and exceptions; the writer
    returns or throws. *)

From Stdlib Require Import ZArith NArith List Bool Lia.
From Stdlib Require Import Strings.String Strings.Ascii Strings.Byte.
Import ListNotations.

Set Warnings "-register-all".

Local Open Scope string_scope.

(* ================================================================== *)
(** * Part I: definitions *)
(* ================================================================== *)

(** ** Exceptions and results *)

(** The exceptions the two modules can raise or let through. *)
Inductive exn : Type :=
| Error (message : string)      (* [throw new Error(message)] *)
| SyntaxError                   (* [BigInt(text)], [Uint8Array.fromBase64] *)
| TypeError                     (* a built-in applied to [undefined] *)
| RangeError                    (* [toISOString] of an invalid Date *)
| InvalidCharacterError.        (* [atob] *)

(** A computation that returns or throws. *)
Inductive result (A : Type) : Type :=
| Ok (a : A)
| Throw (e : exn).
Arguments Ok {A} a.
Arguments Throw {A} e.

Definition of_option {A} (e : exn) (o : option A) : result A :=
  match o with
  | Some a => Ok a
  | None => Throw e
  end.

(** ** Strings *)

Module Str.

(** [/\s/]: the white space and line terminator code units (those below
    256): TAB, LF, VT, FF, CR, SP, NBSP. *)
Definition is_space (c : ascii) : bool :=
  let n := N_of_ascii c in
  ((9 <=? n) && (n <=? 13) || (n =? 32) || (n =? 160))%N.

(** ASCII white space of the WHATWG infra standard: TAB, LF, FF, CR, SP. *)
Definition is_ascii_space (c : ascii) : bool :=
  let n := N_of_ascii c in
  ((n =? 9) || (n =? 10) || (n =? 12) || (n =? 13) || (n =? 32))%N.

Fixpoint filter (f : ascii -> bool) (s : string) : string :=
  match s with
  | EmptyString => EmptyString
  | String c r => if f c then String c (filter f r) else filter f r
  end.

(** [s.replace(/\s/g, "")] *)
Definition remove_spaces (s : string) : string :=
  filter (fun c => negb (is_space c)) s.

Fixpoint forallb (f : ascii -> bool) (s : string) : bool :=
  match s with
  | EmptyString => true
  | String c r => f c && forallb f r
  end.

End Str.

(** ** Base64 (the host's [btoa]/[atob] and [toBase64]/[fromBase64]) *)

Module Base64.

Local Open Scope N_scope.

(** The standard alphabet. *)
Definition char_of (n : N) : ascii :=
  if n <? 26 then ascii_of_N (65 + n)
  else if n <? 52 then ascii_of_N (71 + n)
  else if n <? 62 then ascii_of_N (n - 4)
  else if n =? 62 then "+"%char
  else "/"%char.

Definition index_of (c : ascii) : option N :=
  let n := N_of_ascii c in
  if (65 <=? n) && (n <=? 90) then Some (n - 65)
  else if (97 <=? n) && (n <=? 122) then Some (n - 71)
  else if (48 <=? n) && (n <=? 57) then Some (n + 4)
  else if n =? 43 then Some 62
  else if n =? 47 then Some 63
  else None.

Definition pad : ascii := "="%char.

(** [btoa(bin)]: three code units become four characters; the last group
    is padded with [=].  Every code unit of the model is below 256, so the
    call never throws. *)
Fixpoint btoa (bin : string) : string :=
  match bin with
  | EmptyString => EmptyString
  | String a EmptyString =>
      let x := N_of_ascii a in
      String (char_of (x / 4)) (String (char_of ((x mod 4) * 16))
        (String pad (String pad EmptyString)))
  | String a (String b EmptyString) =>
      let x := N_of_ascii a in
      let y := N_of_ascii b in
      String (char_of (x / 4)) (String (char_of ((x mod 4) * 16 + y / 16))
        (String (char_of ((y mod 16) * 4)) (String pad EmptyString)))
  | String a (String b (String c rest)) =>
      let x := N_of_ascii a in
      let y := N_of_ascii b in
      let z := N_of_ascii c in
      String (char_of (x / 4)) (String (char_of ((x mod 4) * 16 + y / 16))
        (String (char_of ((y mod 16) * 4 + z / 64)) (String (char_of (z mod 64))
          (btoa rest))))
  end.

(** Forgiving-base64 decode, step 2: a text that ends with one or two [=]
    loses them. *)
Fixpoint strip_padding (s : string) : string :=
  match s with
  | EmptyString => EmptyString
  | String c r =>
      if (Ascii.eqb c pad && (String.eqb r "" || String.eqb r "="))%bool
      then EmptyString
      else String c (strip_padding r)
  end.

Fixpoint indices (s : string) : option (list N) :=
  match s with
  | EmptyString => Some []
  | String c r =>
      match index_of c, indices r with
      | Some n, Some l => Some (n :: l)
      | _, _ => None
      end
  end.

(** Six bits per character; 24 bits give three code units, 18 bits two
    (two bits dropped), 12 bits one (four bits dropped); 6 left-over bits
    are the length-1-modulo-4 failure. *)
Fixpoint decode_groups (l : list N) : option string :=
  match l with
  | [] => Some EmptyString
  | [_] => None
  | [a; b] => Some (String (ascii_of_N (a * 4 + b / 16)) EmptyString)
  | [a; b; c] =>
      Some (String (ascii_of_N (a * 4 + b / 16))
             (String (ascii_of_N ((b mod 16) * 16 + c / 4)) EmptyString))
  | a :: b :: c :: d :: rest =>
      match decode_groups rest with
      | Some s =>
          Some (String (ascii_of_N (a * 4 + b / 16))
                 (String (ascii_of_N ((b mod 16) * 16 + c / 4))
                   (String (ascii_of_N ((c mod 4) * 64 + d)) s)))
      | None => None
      end
  end.

(** The forgiving-base64 decode of the WHATWG infra standard. *)
Definition forgiving_decode (data : string) : option string :=
  let data := Str.filter (fun c => negb (Str.is_ascii_space c)) data in
  let data :=
    if (N.of_nat (String.length data) mod 4 =? 0) then strip_padding data
    else data in
  match indices data with
  | Some l => decode_groups l
  | None => None
  end.

(** [atob(text)] returns a binary string or throws. *)
Definition atob (text : string) : result string :=
  of_option InvalidCharacterError (forgiving_decode text).

(** [bytes.toBase64()] with its default options: standard alphabet,
    padded. *)
Definition toBase64 (bytes : list byte) : string :=
  btoa (string_of_list_byte bytes).

(** [Uint8Array.fromBase64(text)] with its default options (standard
    alphabet, loose last chunk): it accepts and rejects the same texts as
    the forgiving decode, and throws a [SyntaxError]. *)
Definition fromBase64 (text : string) : result (list byte) :=
  match forgiving_decode text with
  | Some bin => Ok (list_byte_of_string bin)
  | None => Throw SyntaxError
  end.

(** The characters [btoa] writes: alphabet characters and the padding. *)
Definition is_b64_char (c : ascii) : bool :=
  match index_of c with Some _ => true | None => Ascii.eqb c pad end.

End Base64.

(** ** Decimal digit strings *)

Module Digits.

Local Open Scope Z_scope.

Definition is_digit (c : ascii) : bool :=
  let n := N_of_ascii c in ((48 <=? n) && (n <=? 57))%N.

Definition digit_value (c : ascii) : Z := Z.of_N (N_of_ascii c) - 48.

Definition digit_char (d : Z) : ascii := ascii_of_N (Z.to_N (48 + d)).

(** The value of a string of decimal digits, most significant first. *)
Fixpoint value_from (acc : Z) (s : string) : Z :=
  match s with
  | EmptyString => acc
  | String c r => value_from (10 * acc + digit_value c) r
  end.

Definition value (s : string) : Z := value_from 0 s.

(** The longest prefix of decimal digits, and what follows it. *)
Fixpoint span (s : string) : string * string :=
  match s with
  | EmptyString => (EmptyString, EmptyString)
  | String c r =>
      if is_digit c then let (d, rest) := span r in (String c d, rest)
      else (EmptyString, s)
  end.

(** A text that does not start with a digit. *)
Definition stops (s : string) : bool :=
  match s with
  | EmptyString => true
  | String c _ => negb (is_digit c)
  end.

Fixpoint print_from (fuel : nat) (n : Z) (acc : string) : string :=
  match fuel with
  | O => acc
  | S fuel' =>
      let acc' := String (digit_char (n mod 10)) acc in
      if n <? 10 then acc' else print_from fuel' (n / 10) acc'
  end.

(** The decimal digits of a natural number, without leading zeros
    ([0] prints as one digit). *)
Definition print (n : Z) : string :=
  print_from (S (Z.to_nat (Z.log2 n))) n EmptyString.

Fixpoint zeros (n : nat) : string :=
  match n with
  | O => EmptyString
  | S n' => String "0"%char (zeros n')
  end.

(** A digit string without its trailing zeros. *)
Fixpoint strip_zeros (s : string) : string :=
  match s with
  | EmptyString => EmptyString
  | String c r =>
      let r' := strip_zeros r in
      if (Ascii.eqb c "0"%char && String.eqb r' "")%bool then EmptyString
      else String c r'
  end.

Fixpoint take (n : nat) (s : string) : string :=
  match n, s with
  | S n', String c r => String c (take n' r)
  | _, _ => EmptyString
  end.

Fixpoint drop (n : nat) (s : string) : string :=
  match n, s with
  | S n', String _ r => drop n' r
  | _, _ => s
  end.

End Digits.

(** ** Numbers (the host's Number, BigInt, parseFloat and String) *)

Module JS.

Local Open Scope Z_scope.

(** A JavaScript Number is an IEEE 754 binary64 value.  A finite value
    other than zero is written [+/- m * 2^e] with [m] odd, which makes the
    representation of each value unique. *)
Inductive number : Type :=
| NaN
| Infinity (negative : bool)
| Zero (negative : bool)
| Finite (negative : bool) (m : positive) (e : Z).

(** The values of the binary64 format: 53 bits of mantissa, the least
    exponent -1074, magnitude below 2^1024. *)
Definition is_double (x : number) : bool :=
  match x with
  | Finite _ m e =>
      Z.odd (Z.pos m) && (Z.pos m <? 2 ^ 53) && (-1074 <=? e)
      && (Z.log2 (Z.pos m) + e <? 1024)
  | _ => true
  end.

Definition eqb (x y : number) : bool :=
  match x, y with
  | NaN, NaN => true
  | Infinity a, Infinity b => Bool.eqb a b
  | Zero a, Zero b => Bool.eqb a b
  | Finite a m e, Finite b m' e' => Bool.eqb a b && Pos.eqb m m' && Z.eqb e e'
  | _, _ => false
  end.

(** [Number.isInteger(x)] *)
Definition isInteger (x : number) : bool :=
  match x with
  | Zero _ => true
  | Finite _ _ e => 0 <=? e
  | _ => false
  end.

(** The mathematical value of an integral Number. *)
Definition integer_value (x : number) : Z :=
  match x with
  | Finite neg m e => (if neg then -1 else 1) * (Z.pos m * 2 ^ e)
  | _ => 0
  end.

Definition MAX_SAFE_INTEGER : Z := 2 ^ 53 - 1.

(** [Number.isSafeInteger(x)] *)
Definition isSafeInteger (x : number) : bool :=
  isInteger x && (Z.abs (integer_value x) <=? MAX_SAFE_INTEGER).

(** *** Rounding to the nearest binary64 value, ties to even *)

(** [m * 2^e] with the factors of two moved out of the mantissa. *)
Fixpoint strip (m : positive) (e : Z) : positive * Z :=
  match m with
  | xO m' => strip m' (e + 1)
  | _ => (m, e)
  end.

Definition make (neg : bool) (m e : Z) : number :=
  match m with
  | Zpos p =>
      if 1024 <=? Z.log2 m + e then Infinity neg
      else let (m', e') := strip p e in Finite neg m' e'
  | _ => Zero neg
  end.

(** The sign of a Number replaced. *)
Definition signed (neg : bool) (x : number) : number :=
  match x with
  | NaN => NaN
  | Infinity _ => Infinity neg
  | Zero _ => Zero neg
  | Finite _ m e => Finite neg m e
  end.

(** [p / (q * 2^e)] is [scale_num p e / scale_den q e]. *)
Definition scale_num (p e : Z) : Z := p * 2 ^ Z.max 0 (- e).
Definition scale_den (q e : Z) : Z := q * 2 ^ Z.max 0 e.

(** [2^l <= p/q]. *)
Definition above (p q l : Z) : Prop := scale_den q l <= scale_num p l.

(** The integer part of the binary logarithm of [p/q], for [p], [q]
    positive. *)
Definition floor_log2 (p q : Z) : Z :=
  let t := Z.log2 p - Z.log2 q in
  if scale_den q t <=? scale_num p t then t else t - 1.

(** The binary64 value nearest to [+/- p/q], for [p], [q] positive: the
    mantissa keeps 53 bits (fewer below 2^-1022), a tie goes to the even
    mantissa, and a result of 2^1024 or more is an infinity. *)
Definition round_ratio (neg : bool) (p q : Z) : number :=
  let e := Z.max (floor_log2 p q - 52) (-1074) in
  let n := scale_num p e in
  let d := scale_den q e in
  let m := n / d in
  let r := n mod d in
  let up := (d <? 2 * r) || ((d =? 2 * r) && Z.odd m) in
  make neg (if up then m + 1 else m) e.

(** The Number for the decimal [+/- s * 10^p], [s] a natural number. *)
Definition of_decimal (neg : bool) (s p : Z) : number :=
  if s <=? 0 then Zero neg
  else if 0 <=? p then round_ratio neg (s * 10 ^ p) 1
  else round_ratio neg s (10 ^ (- p)).

(** The Number for an integer. *)
Definition of_Z (z : Z) : number :=
  if z =? 0 then Zero false else round_ratio (z <? 0) (Z.abs z) 1.

(** *** Number to string *)

(** The exact decimal expansion [s * 10^p] of [m * 2^e]. *)
Definition exact_decimal (m : positive) (e : Z) : Z * Z :=
  if 0 <=? e then (Z.pos m * 2 ^ e, 0) else (Z.pos m * 5 ^ (- e), e).

(** The decimals next to [x = s * 10^p] that drop the last [j] digits of
    [s]: the one that reads back as [x], and of two such the nearer to
    [x], and of two equally near the even one. *)
Definition candidate (x : number) (s p : Z) (j : nat) : option (Z * Z) :=
  let t := 10 ^ Z.of_nat j in
  let lo := s / t in
  let rem := s mod t in
  let p' := p + Z.of_nat j in
  let ok_lo := eqb (of_decimal false lo p') x in
  let ok_hi := eqb (of_decimal false (lo + 1) p') x in
  if ok_lo && ok_hi then
    if 2 * rem <? t then Some (lo, p')
    else if t <? 2 * rem then Some (lo + 1, p')
    else if Z.even lo then Some (lo, p') else Some (lo + 1, p')
  else if ok_lo then Some (lo, p')
  else if ok_hi then Some (lo + 1, p')
  else None.

(** The search for the fewest digits: drop as many digits as possible. *)
Fixpoint shortest_from (x : number) (s p : Z) (j : nat) : Z * Z :=
  match j with
  | O => (s, p)
  | S j' =>
      match candidate x s p j with
      | Some c => c
      | None => shortest_from x s p j'
      end
  end.

Definition shortest (m : positive) (e : Z) : Z * Z :=
  let (s, p) := exact_decimal m e in
  shortest_from (Finite false m e) s p (String.length (Digits.print s) - 1).

(** The exponent part [e+x] or [e-x]. *)
Definition exponent_text (e : Z) : string :=
  (if 0 <=? e then "e+" else "e-") ++ Digits.print (Z.abs e).

(** The text of the decimal [s * 10^p]: with [k] digits and [n] of them
    before the decimal point, plain digits for [k <= n <= 21], a decimal
    point for [0 < n <= 21] or [-6 < n <= 0], exponent notation
    otherwise. *)
Definition format (s p : Z) : string :=
  let all := Digits.print s in
  let n := Z.of_nat (String.length all) + p in
  let ds := Digits.strip_zeros all in
  let k := Z.of_nat (String.length ds) in
  if (k <=? n) && (n <=? 21) then ds ++ Digits.zeros (Z.to_nat (n - k))
  else if (0 <? n) && (n <=? 21) then
    Digits.take (Z.to_nat n) ds ++ "." ++ Digits.drop (Z.to_nat n) ds
  else if (-6 <? n) && (n <=? 0) then
    "0." ++ Digits.zeros (Z.to_nat (- n)) ++ ds
  else
    match ds with
    | EmptyString => exponent_text (n - 1)
    | String c EmptyString => String c (exponent_text (n - 1))
    | String c r => String c ("." ++ r ++ exponent_text (n - 1))
    end.

(** The texts the writer makes of numbers: an optional minus sign and a
    decimal text. *)
Definition signed_text (neg : bool) (t : string) : string :=
  (if neg then "-" else "") ++ t.

(** [String(x)] for a Number [x] (Number::toString, radix 10). *)
Definition String_of_number (x : number) : string :=
  match x with
  | NaN => "NaN"
  | Zero _ => "0"
  | Infinity neg => if neg then "-Infinity" else "Infinity"
  | Finite neg m e =>
      let (s, p) := shortest m e in
      (if neg then "-" else "") ++ format s p
  end.

(** [String(z)] for a BigInt [z] (BigInt::toString, radix 10). *)
Definition String_of_bigint (z : Z) : string :=
  (if z <? 0 then "-" else "") ++ Digits.print (Z.abs z).

(** *** String to number *)

Fixpoint trim_start (s : string) : string :=
  match s with
  | EmptyString => EmptyString
  | String c r => if Str.is_space c then trim_start r else s
  end.

Fixpoint trim_end (s : string) : string :=
  match s with
  | EmptyString => EmptyString
  | String c r =>
      let r' := trim_end r in
      if (Str.is_space c && String.eqb r' "")%bool then EmptyString
      else String c r'
  end.

Definition trim (s : string) : string := trim_end (trim_start s).

(** An optional sign. *)
Definition scan_sign (s : string) : bool * string :=
  match s with
  | String "+"%char r => (false, r)
  | String "-"%char r => (true, r)
  | _ => (false, s)
  end.

(** An optional exponent part: [e] or [E], an optional sign, digits. *)
Definition scan_exponent (s : string) : Z * string :=
  match s with
  | String c r =>
      if (Ascii.eqb c "e" || Ascii.eqb c "E")%bool then
        let (neg, r1) := scan_sign r in
        let (ds, r2) := Digits.span r1 in
        if String.eqb ds "" then (0, s)
        else ((if neg then - Digits.value ds else Digits.value ds), r2)
      else (0, s)
  | EmptyString => (0, s)
  end.

(** A text that does not start with a decimal point. *)
Definition no_point (s : string) : bool :=
  match s with
  | EmptyString => true
  | String c _ => negb (Ascii.eqb c ".")
  end.

Inductive literal : Type :=
| LInfinity (negative : bool)
| LDecimal (negative : bool) (mantissa exponent : Z).

(** The longest prefix that is a StrUnsignedDecimalLiteral, and what
    follows: [Infinity], or digits with an optional fraction, or a
    fraction, and an optional exponent. *)
Definition scan_unsigned (neg : bool) (s1 : string) : option (literal * string) :=
  if String.prefix "Infinity" s1 then Some (LInfinity neg, Digits.drop 8 s1)
  else
    let (ip, s2) := Digits.span s1 in
    let (fp, s3) :=
      match s2 with
      | String "."%char r =>
          let (fp, r') := Digits.span r in
          if (String.eqb ip "" && String.eqb fp "")%bool then (EmptyString, s2)
          else (fp, r')
      | _ => (EmptyString, s2)
      end in
    if (String.eqb ip "" && String.eqb fp "")%bool then None
    else
      let (ex, s4) := scan_exponent s3 in
      Some (LDecimal neg (Digits.value (ip ++ fp))
                     (ex - Z.of_nat (String.length fp)), s4).

(** The longest prefix that is a StrDecimalLiteral, and what follows. *)
Definition scan_decimal (s : string) : option (literal * string) :=
  let (neg, s1) := scan_sign s in scan_unsigned neg s1.

Definition of_literal (l : literal) : number :=
  match l with
  | LInfinity neg => Infinity neg
  | LDecimal neg s p => of_decimal neg s p
  end.

(** The characters of a decimal text. *)
Definition numeric_char (c : ascii) : bool :=
  Digits.is_digit c || Ascii.eqb c "." || Ascii.eqb c "e"
  || Ascii.eqb c "+" || Ascii.eqb c "-".

(** The letters of the prefixes [0x], [0o] and [0b]. *)
Definition radix_letter (c : ascii) : bool :=
  Ascii.eqb c "x" || Ascii.eqb c "X" || Ascii.eqb c "o" || Ascii.eqb c "O"
  || Ascii.eqb c "b" || Ascii.eqb c "B".

Definition radix_digit (radix : Z) (c : ascii) : option Z :=
  let n := Z.of_N (N_of_ascii c) in
  let d :=
    if (48 <=? n) && (n <=? 57) then n - 48
    else if (97 <=? n) && (n <=? 102) then n - 87
    else if (65 <=? n) && (n <=? 70) then n - 55
    else radix in
  if d <? radix then Some d else None.

Fixpoint radix_value (radix acc : Z) (s : string) : option Z :=
  match s with
  | EmptyString => Some acc
  | String c r =>
      match radix_digit radix c with
      | Some d => radix_value radix (radix * acc + d) r
      | None => None
      end
  end.

(** A NonDecimalIntegerLiteral: [0x], [0o] or [0b] and at least one digit. *)
Definition non_decimal (s : string) : option Z :=
  match s with
  | String "0"%char (String x (String c r)) =>
      let digits := String c r in
      if (Ascii.eqb x "x" || Ascii.eqb x "X")%bool then radix_value 16 0 digits
      else if (Ascii.eqb x "o" || Ascii.eqb x "O")%bool then radix_value 8 0 digits
      else if (Ascii.eqb x "b" || Ascii.eqb x "B")%bool then radix_value 2 0 digits
      else None
  | _ => None
  end.

(** [Number(text)] (StringToNumber): the text without the white space
    around it is empty, an integer literal with a radix prefix, or a
    decimal literal; anything else is NaN.  The value of the literal is
    rounded exactly, as the engines do, also beyond the 20 significant
    digits from which ECMAScript lets an implementation approximate. *)
Definition Number (text : string) : number :=
  let s := trim text in
  if String.eqb s "" then Zero false
  else
    match non_decimal s with
    | Some z => of_Z z
    | None =>
        match scan_decimal s with
        | Some (l, EmptyString) => of_literal l
        | _ => NaN
        end
    end.

(** [parseFloat(text)] *)
Definition parseFloat (text : string) : number :=
  match scan_decimal (trim_start text) with
  | Some (l, _) => of_literal l
  | None => NaN
  end.

(** [BigInt(text)] (StringToBigInt); a text that is no integer literal
    throws a [SyntaxError]. *)
Definition BigInt (text : string) : result Z :=
  let s := trim text in
  if String.eqb s "" then Ok 0
  else
    match non_decimal s with
    | Some z => Ok z
    | None =>
        let (neg, r) := scan_sign s in
        let (ds, rest) := Digits.span r in
        if (negb (String.eqb ds "") && String.eqb rest "")%bool
        then Ok (if neg then - Digits.value ds else Digits.value ds)
        else Throw SyntaxError
    end.

End JS.

(** ** Values *)

(** A JavaScript Date: a time value in milliseconds since the epoch, or
    the invalid Date. *)
Inductive date : Type :=
| InvalidDate
| TimeValue (ms : Z).

(** The values the reader returns and the writer accepts:
    [Object|Array|string|number|bigint|boolean|Date|Uint8Array|null], and
    [undefined].  An object is the list of its own enumerable properties
    in enumeration order. *)
Inductive value : Type :=
| VNull
| VUndefined
| VBool (b : bool)
| VString (s : string)
| VBigInt (z : Z)
| VNumber (x : JS.number)
| VDate (d : date)
| VUint8Array (bytes : list byte)
| VArray (items : list value)
| VObject (entries : list (string * value)).

(** ** Objects *)

Module Obj.

Local Open Scope Z_scope.

(** An array index: the canonical decimal text of an integer below
    2^32 - 1.  Such keys are enumerated first, in ascending order. *)
Definition array_index (k : string) : option Z :=
  if (negb (String.eqb k "") && Str.forallb Digits.is_digit k
      && String.eqb (Digits.print (Digits.value k)) k
      && (Digits.value k <? 2 ^ 32 - 1))%bool
  then Some (Digits.value k) else None.

(** Whether a new key [k] is enumerated before the present key [k']. *)
Definition before (k k' : string) : bool :=
  match array_index k, array_index k' with
  | Some i, Some i' => i <? i'
  | Some _, None => true
  | None, _ => false
  end.

(** CreateDataProperty: a present key keeps its place and takes the new
    value; a new key goes after the keys enumerated before it. *)
Fixpoint set {A} (o : list (string * A)) (k : string) (v : A) : list (string * A) :=
  match o with
  | [] => [(k, v)]
  | (k', v') :: r =>
      if String.eqb k' k then (k, v) :: r
      else if before k k' then (k, v) :: o
      else (k', v') :: set r k v
  end.

(** [Object.fromEntries(entries)] *)
Definition fromEntries {A} (entries : list (string * A)) : list (string * A) :=
  fold_left (fun o kv => set o (fst kv) (snd kv)) entries [].

(** The property lists of objects: the keys are distinct and no key
    stands after a key it is enumerated before. *)
Definition enumerated {A} (o : list (string * A)) : Prop :=
  ForallOrdPairs
    (fun kv kv' => fst kv <> fst kv' /\ before (fst kv') (fst kv) = false) o.

End Obj.

(** ** The DOM tree *)

Module Dom.

(** Elements, text (character data sections included) and comments.  An
    element is known by its tag name; namespaces are left out. *)
Inductive Node : Type :=
| Element (tagName : string) (attributes : list (string * string))
          (childNodes : list Node)
| Text (data : string)
| Comment (data : string).

Record DocumentType : Type := {
  name : string;
  publicId : string;
  systemId : string
}.

Record Document : Type := {
  doctype : option DocumentType;
  documentElement : Node
}.

Definition is_element (n : Node) : bool :=
  match n with
  | Element _ _ _ => true
  | _ => false
  end.

(** [node.children]: the child nodes that are elements. *)
Definition children (n : Node) : list Node :=
  match n with
  | Element _ _ kids => List.filter is_element kids
  | _ => []
  end.

(** [node.tagName], [undefined] for a node that is no element. *)
Definition tagName (n : Node) : option string :=
  match n with
  | Element t _ _ => Some t
  | _ => None
  end.

(** [node.textContent]: the text of all descendants in tree order,
    comments left out. *)
Fixpoint textContent (n : Node) : string :=
  match n with
  | Element _ _ kids =>
      (fix concat (l : list Node) : string :=
         match l with
         | [] => EmptyString
         | Comment _ :: r => concat r
         | k :: r => textContent k ++ concat r
         end) kids
  | Text d => d
  | Comment d => d
  end.

(** The first element with the given tag name, in tree order, among a
    node and its descendants. *)
Fixpoint find (tag : string) (n : Node) : option Node :=
  match n with
  | Element t _ kids =>
      if String.eqb t tag then Some n
      else
        (fix first (l : list Node) : option Node :=
           match l with
           | [] => None
           | k :: r =>
               match find tag k with
               | Some e => Some e
               | None => first r
               end
           end) kids
  | _ => None
  end.

(** [doc.querySelector(tag)] for a type selector. *)
Definition querySelector (tag : string) (doc : Document) : option Node :=
  find tag (documentElement doc).

End Dom.

(** ** The host *)

(** What the two modules take from the browser and this development
    leaves open: the XML parser and serializer, the Date parser and
    printer (Date parsing is implementation-defined outside the ISO
    format), and whether the base64 methods of [Uint8Array] exist. *)
Record Host : Type := {
  (** [new DOMParser().parseFromString(xml, "application/xml")]; a text
      that is not well-formed gives a document with a [parsererror]
      element. *)
  parseFromString : string -> Dom.Document;
  (** [new XMLSerializer().serializeToString(doc)] *)
  serializeToString : Dom.Document -> string;
  (** [new Date(text)] *)
  Date_parse : string -> date;
  (** [date.toISOString()] of a valid Date *)
  toISOString : Z -> string;
  (** [typeof Uint8Array.fromBase64 === "function"] *)
  has_fromBase64 : bool;
  (** [typeof bytes.toBase64 === "function"] *)
  has_toBase64 : bool
}.

(** ** Computations of the reader: warnings and exceptions *)

Module Eff.

(** The warnings written to the console, in order, and the outcome. *)
Definition M (A : Type) : Type := list string * result A.

Definition ret {A} (a : A) : M A := ([], Ok a).

Definition bind {A B} (m : M A) (f : A -> M B) : M B :=
  match m with
  | (w, Ok a) => let (w', r) := f a in ((w ++ w')%list, r)
  | (w, Throw e) => (w, Throw e)
  end.

(** [console.warn(message)] *)
Definition warn (message : string) : M unit := ([message], Ok tt).

Definition throw {A} (e : exn) : M A := ([], Throw e).

Definition lift {A} (r : result A) : M A := ([], r).

(** The calls of [f] on the elements of a list, left to right. *)
Fixpoint mapM {A B} (f : A -> M B) (l : list A) : M (list B) :=
  match l with
  | [] => ret []
  | a :: r => bind (f a) (fun b => bind (mapM f r) (fun bs => ret (b :: bs)))
  end.

End Eff.

Notation "x <- m ;; k" := (Eff.bind m (fun x => k))
  (at level 61, m at next level, right associativity).
Notation "m ;;; k" := (Eff.bind m (fun _ => k))
  (at level 61, right associativity).

(** ** The reader: [src/tinyplist/parser.mjs] *)

Module Parser.
Import Dom Eff.

Section WithHost.
Context (host : Host).

(** [int(text)] *)
Definition int (text : string) : result value :=
  let n := JS.Number text in
  if JS.isSafeInteger n then Ok (VNumber n)
  else
    match JS.BigInt text with
    | Ok z => Ok (VBigInt z)
    | Throw e => Throw e
    end.

(** [data(b64)] *)
Definition data (b64 : string) : result (list byte) :=
  let clean := Str.remove_spaces b64 in
  if has_fromBase64 host then Base64.fromBase64 clean
  else
    match Base64.atob clean with
    | Ok bin => Ok (list_byte_of_string bin)
    | Throw e => Throw e
    end.

Definition tag_is (tag : string) (n : Node) : bool :=
  match tagName n with
  | Some t => String.eqb t tag
  | None => false
  end.

Definition somes {A} (l : list (option A)) : list A :=
  flat_map (fun o => match o with Some a => [a] | None => [] end) l.

(** The function [dict] calls on each index [i]: the entry of the pair
    of children [i * 2] and [i * 2 + 1], or [null] with a warning when the
    first of them is no [key] element.  The child elements come each with
    the computation [val] makes of it, which runs where the source calls
    [val(v)] and nowhere else. *)
Definition pair (children : list (Node * M value)) (i : nat) :
    M (option (string * value)) :=
  let k := nth_error children (i * 2) in
  let v := nth_error children (i * 2 + 1) in
  match k with
  | Some (k, _) =>
      if negb (tag_is "key" k) then
        warn "Missing key in dictionary or malformed structure" ;;;
        ret None
      else
        x <- match v with
             | Some (_, val_v) => val_v
             | None => ret VNull
             end ;;
        ret (Some (textContent k, x))
  | None =>
      warn "Missing key in dictionary or malformed structure" ;;;
      ret None
  end.

(** [dict(node)], over the child elements of [node]: as many pairs as
    half the number of children, rounded down; the entries that are not
    [null]; the object of these entries. *)
Definition dict (children : list (Node * M value)) : M value :=
  entries <- mapM (pair children) (seq 0 (List.length children / 2)) ;;
  ret (VObject (Obj.fromEntries (somes entries))).

(** The properties [handlers] inherits from [Object.prototype] that are
    functions, called with no argument and [this] undefined. *)
Definition inherited (tagName : string) : option (M value) :=
  if String.eqb tagName "constructor" then Some (ret (VObject []))
  else if String.eqb tagName "toString" then
    Some (ret (VString "[object Undefined]"))
  else if String.eqb tagName "isPrototypeOf" then Some (ret (VBool false))
  else if (String.eqb tagName "toLocaleString"
           || String.eqb tagName "valueOf"
           || String.eqb tagName "hasOwnProperty"
           || String.eqb tagName "propertyIsEnumerable"
           || String.eqb tagName "__defineGetter__"
           || String.eqb tagName "__defineSetter__"
           || String.eqb tagName "__lookupGetter__"
           || String.eqb tagName "__lookupSetter__")%bool then
    Some (throw TypeError)
  else None.

(** [handlers[node.tagName]], when it is a function. *)
Definition handlers (tagName : string) (children : list (Node * M value))
    (textContent : string) : option (M value) :=
  if String.eqb tagName "dict" then Some (dict children)
  else if String.eqb tagName "array" then
    Some (items <- mapM snd children ;; ret (VArray items))
  else if String.eqb tagName "string" then Some (ret (VString textContent))
  else if String.eqb tagName "integer" then Some (lift (int textContent))
  else if String.eqb tagName "real" then
    Some (ret (VNumber (JS.parseFloat textContent)))
  else if String.eqb tagName "true" then Some (ret (VBool true))
  else if String.eqb tagName "false" then Some (ret (VBool false))
  else if String.eqb tagName "date" then
    Some (ret (VDate (Date_parse host textContent)))
  else if String.eqb tagName "data" then
    Some (bytes <- lift (data textContent) ;; ret (VUint8Array bytes))
  else inherited tagName.

(** [val(node)] *)
Fixpoint val (node : Node) : M value :=
  match node with
  | Element tagName _ childNodes =>
      let children :=
        flat_map (fun c => match c with
                           | Element _ _ _ => [(c, val c)]
                           | _ => []
                           end) childNodes in
      match handlers tagName children (textContent node) with
      | Some fn => fn
      | None =>
          warn ("Unknown plist tag: <" ++ tagName ++ ">") ;;;
          ret (VString (textContent node))
      end
  | _ =>
      warn "Unknown plist tag: <undefined>" ;;;
      ret (VString (textContent node))
  end.

(** The child elements of a node, each with what [val] makes of it. *)
Definition converted (kids : list Node) : list (Node * M value) :=
  map (fun c => (c, val c)) (List.filter is_element kids).

(** [parse(xml)] *)
Definition parse (xml : string) : M value :=
  let doc := parseFromString host xml in
  match querySelector "parsererror" doc with
  | Some err => throw (Error ("Error parsing XML: " ++ textContent err))
  | None =>
      match querySelector "plist" doc with
      | None => throw (Error "Invalid plist: Missing <plist> root element.")
      | Some plist =>
          match children plist with
          | [] => ret VNull
          | root :: _ => val root
          end
      end
  end.

End WithHost.

End Parser.

(** ** The writer: [src/tinyplist/serializer.mjs] *)

Module Serializer.
Import Dom.

Section WithHost.
Context (host : Host).

(** [el(doc, tag, text)]; setting [textContent] to the empty string adds
    no text node. *)
Definition el (tag text : string) : Node :=
  Element tag [] (if String.eqb text "" then [] else [Text text]).

(** [b64(bytes)] *)
Definition b64 (bytes : list byte) : string :=
  if has_toBase64 host then Base64.toBase64 bytes
  else Base64.btoa (string_of_list_byte bytes).

(** The loop of [arr]: the elements [val] makes of the items, in order;
    an item for which [val] returns [null] adds no child. *)
Definition arr_children (val : value -> result (option Node)) :
    list value -> result (list Node) :=
  fix loop (items : list value) : result (list Node) :=
    match items with
    | [] => Ok []
    | item :: rest =>
        match val item with
        | Throw e => Throw e
        | Ok child =>
            match loop rest with
            | Throw e => Throw e
            | Ok nodes =>
                Ok (match child with
                    | Some c => c :: nodes
                    | None => nodes
                    end)
            end
        end
    end.

(** [arr(doc, items)], over the function [val] it calls on each item. *)
Definition arr (val : value -> result (option Node)) (items : list value) :
    result Node :=
  match arr_children val items with
  | Ok nodes => Ok (Element "array" [] nodes)
  | Throw e => Throw e
  end.

(** The loop of [dict]: for each entry a [key] element, then the element
    [val] makes of the value, if any. *)
Definition dict_children (val : value -> result (option Node)) :
    list (string * value) -> result (list Node) :=
  fix loop (entries : list (string * value)) : result (list Node) :=
    match entries with
    | [] => Ok []
    | (k, v) :: rest =>
        match val v with
        | Throw e => Throw e
        | Ok child =>
            match loop rest with
            | Throw e => Throw e
            | Ok nodes =>
                Ok (el "key" k ::
                    match child with
                    | Some c => c :: nodes
                    | None => nodes
                    end)
            end
        end
    end.

(** [dict(doc, obj)], over the function [val] it calls on each value. *)
Definition dict (val : value -> result (option Node))
    (obj : list (string * value)) : result Node :=
  match dict_children val obj with
  | Ok nodes => Ok (Element "dict" [] nodes)
  | Throw e => Throw e
  end.

(** [val(doc, value)]: the element for a value, or [null]. *)
Fixpoint val (value : value) : result (option Node) :=
  match value with
  | VNull | VUndefined => Ok None
  | VBool b => Ok (Some (Element (if b then "true" else "false") [] []))
  | VString s => Ok (Some (el "string" s))
  | VBigInt z => Ok (Some (el "integer" (JS.String_of_bigint z)))
  | VNumber x =>
      if JS.isInteger x
      then Ok (Some (el "integer" (JS.String_of_number x)))
      else Ok (Some (el "real" (JS.String_of_number x)))
  | VDate InvalidDate => Throw RangeError
  | VDate (TimeValue t) => Ok (Some (el "date" (toISOString host t)))
  | VUint8Array bytes => Ok (Some (el "data" (b64 bytes)))
  | VArray items =>
      match arr val items with
      | Ok node => Ok (Some node)
      | Throw e => Throw e
      end
  | VObject obj =>
      match dict val obj with
      | Ok node => Ok (Some node)
      | Throw e => Throw e
      end
  end.

Definition quote : string := String (ascii_of_N 34) EmptyString.
Definition newline : string := String (ascii_of_N 10) EmptyString.

Definition xml_declaration : string :=
  "<?xml version=" ++ quote ++ "1.0" ++ quote
  ++ " encoding=" ++ quote ++ "UTF-8" ++ quote ++ "?>" ++ newline.

(** The document [serialize] builds around the element of a value. *)
Definition document (node : option Node) : Document :=
  {| doctype := Some {| name := "plist";
                        publicId := "-//Apple//DTD PLIST 1.0//EN";
                        systemId := "http://www.apple.com/DTDs/PropertyList-1.0.dtd" |};
     documentElement :=
       Element "plist" [("version", "1.0")]
               (match node with Some n => [n] | None => [] end) |}.

(** [serialize(value)] *)
Definition serialize (value : value) : result string :=
  match val value with
  | Throw e => Throw e
  | Ok node =>
      Ok (xml_declaration ++ serializeToString host (document node))
  end.

End WithHost.

End Serializer.

(** ** Vocabulary of the properties *)

(** A host for the examples: its XML parser answers the document [doc]
    and its XML serializer the text [xml]; its Date parser answers the
    invalid Date, and it has none of the base64 methods of [Uint8Array]. *)
Definition example_host (doc : Dom.Document) (xml : string) : Host :=
  {| parseFromString := fun _ => doc;
     serializeToString := fun _ => xml;
     Date_parse := fun _ => InvalidDate;
     toISOString := fun _ => EmptyString;
     has_fromBase64 := false;
     has_toBase64 := false |}.

(** The document whose root element is [root]. *)
Definition document_of (root : Dom.Node) : Dom.Document :=
  {| Dom.doctype := None; Dom.documentElement := root |}.

(** The example host whose XML parser answers the document of root
    [root]. *)
Definition scenario_host (root : Dom.Node) : Host :=
  example_host (document_of root) "".

(** [spaced s t]: the text [t] is [s] with white space inserted. *)
Inductive spaced : string -> string -> Prop :=
| spaced_end : spaced EmptyString EmptyString
| spaced_keep c s t : spaced s t -> spaced (String c s) (String c t)
| spaced_insert w s t :
    Str.is_space w = true -> spaced s t -> spaced s (String w t).

(** A value with every [undefined] in it replaced by [null]. *)
Fixpoint nullify (v : value) : value :=
  match v with
  | VUndefined => VNull
  | VArray items => VArray (map nullify items)
  | VObject entries =>
      VObject (map (fun kv => (fst kv, nullify (snd kv))) entries)
  | _ => v
  end.

Definition is_null (v : value) : bool :=
  match v with
  | VNull => true
  | _ => false
  end.

(** A sample value: the object [{ "0": [1.5, "x", true], id: 2^64,
    blob: bytes 0 1 2 255 }], and the element the writer makes of it. *)
Definition sample_value : value :=
  VObject
    [("0", VArray [VNumber (JS.Finite false 3 (-1)); VString "x"; VBool true]);
     ("id", VBigInt 18446744073709551616);
     ("blob", VUint8Array [x00; x01; x02; xff]%byte)].

Definition sample_node : Dom.Node :=
  Dom.Element "dict" []
    [Dom.Element "key" [] [Dom.Text "0"];
     Dom.Element "array" []
       [Dom.Element "real" [] [Dom.Text "1.5"];
        Dom.Element "string" [] [Dom.Text "x"];
        Dom.Element "true" [] []];
     Dom.Element "key" [] [Dom.Text "id"];
     Dom.Element "integer" [] [Dom.Text "18446744073709551616"];
     Dom.Element "key" [] [Dom.Text "blob"];
     Dom.Element "data" [] [Dom.Text "AAEC/w=="]].

(** The decimal texts with mantissa [m] and exponent [e], the value being
    [m * 10^e]: digits; digits, a point and digits; and either with an
    exponent part. *)
Inductive decimal_text : string -> Z -> Z -> Prop :=
| decimal_integer ip :
    ip <> EmptyString -> Str.forallb Digits.is_digit ip = true ->
    decimal_text ip (Digits.value ip) 0
| decimal_fraction ip fp :
    ip <> EmptyString -> Str.forallb Digits.is_digit ip = true ->
    Str.forallb Digits.is_digit fp = true ->
    decimal_text (ip ++ "." ++ fp) (Digits.value (ip ++ fp))
                 (- Z.of_nat (String.length fp))
| decimal_integer_exponent ip e :
    ip <> EmptyString -> Str.forallb Digits.is_digit ip = true ->
    decimal_text (ip ++ JS.exponent_text e) (Digits.value ip) e
| decimal_fraction_exponent ip fp e :
    ip <> EmptyString -> Str.forallb Digits.is_digit ip = true ->
    Str.forallb Digits.is_digit fp = true ->
    decimal_text (ip ++ "." ++ fp ++ JS.exponent_text e)
                 (Digits.value (ip ++ fp))
                 (e - Z.of_nat (String.length fp)).

(** A decimal integer string: an optional minus sign and digits. *)
Definition decimal_integer_string (text : string) : Prop :=
  exists neg ip,
    text = (if neg : bool then "-" else "") ++ ip /\
    ip <> EmptyString /\ Str.forallb Digits.is_digit ip = true.

(** A decimal floating-point string: an optional minus sign and a decimal
    text. *)
Definition decimal_float_string (text : string) : Prop :=
  exists neg t m e,
    text = (if neg : bool then "-" else "") ++ t /\ decimal_text t m e.

(** The values that are written and read back as themselves inside a
    container, from the writing host [w] to the reading host [r]: no
    [null] and no [undefined]; a BigInt is beyond the safe integers; a
    Number is a binary64 value other than the negative zero and, when it
    is integral, a safe integer; a Date is valid and the Date parser of
    [r] reads the text [w] prints for it as the same instant; an object
    has its properties in enumeration order. *)
Fixpoint plain (w r : Host) (v : value) : Prop :=
  match v with
  | VNull | VUndefined => False
  | VBool _ | VString _ | VUint8Array _ => True
  | VBigInt z => (JS.MAX_SAFE_INTEGER < Z.abs z)%Z
  | VNumber x =>
      JS.is_double x = true /\ x <> JS.Zero true /\
      (JS.isInteger x = true -> JS.isSafeInteger x = true)
  | VDate d =>
      exists t, d = TimeValue t /\
                Date_parse r (toISOString w t) = TimeValue t
  | VArray items =>
      (fix all (l : list value) : Prop :=
         match l with
         | [] => True
         | x :: l' => plain w r x /\ all l'
         end) items
  | VObject entries =>
      Obj.enumerated entries /\
      (fix all (l : list (string * value)) : Prop :=
         match l with
         | [] => True
         | kv :: l' => plain w r (snd kv) /\ all l'
         end) entries
  end.

(** The values that are written and read back as themselves: Null, at
    the top only, and the plain values. *)
Definition round_trips (w r : Host) (v : value) : Prop :=
  v = VNull \/ plain w r v.

(** The element [n] is what [w] writes for [v], and [r] reads it as [v]. *)
Definition good (w r : Host) (v : value) (n : Dom.Node) : Prop :=
  Serializer.val w v = Ok (Some n) /\
  Dom.is_element n = true /\
  Dom.find "parsererror" n = None /\
  Parser.val r n = ([], Ok v).

(** The children of the [dict] element for entries whose values have the
    given elements. *)
Fixpoint dict_nodes (entries : list (string * value))
    (nodes : list Dom.Node) : list Dom.Node :=
  match entries, nodes with
  | (k, _) :: entries', n :: nodes' =>
      Serializer.el "key" k :: n :: dict_nodes entries' nodes'
  | _, _ => []
  end.

(** ** Vocabulary of the further properties *)

(** [o[k]] for the own properties of an object: the value of the
    property [k], if there is one. *)
Fixpoint get_property {A} (o : list (string * A)) (k : string) : option A :=
  match o with
  | [] => None
  | (k', v) :: r => if String.eqb k' k then Some v else get_property r k
  end.

(** The child elements of a [dict] that holds the given keys and values,
    in order. *)
Definition key_value_children {A} (pairs : list (A * A)) : list A :=
  flat_map (fun p => [fst p; snd p]) pairs.

(** The tag names [val] has a handler for. *)
Definition value_tag (t : string) : bool :=
  existsb (String.eqb t)
    ["dict"; "array"; "string"; "integer"; "real"; "true"; "false"; "date";
     "data"].

(** The children of a [dict] that come in pairs of a [key] element and a
    value that conforms; a last child without a partner is free. *)
Fixpoint paired (cs : list (Dom.Node * bool)) : bool :=
  match cs with
  | k :: v :: r => Parser.tag_is "key" (fst k) && snd v && paired r
  | _ => true
  end.

(** The elements of a property list as its document type has them: the
    nine value elements, the items of an [array] being such elements and
    the children of a [dict] keys and such elements in turn. *)
Fixpoint conforming (n : Dom.Node) : bool :=
  match n with
  | Dom.Element t _ kids =>
      let cs := flat_map (fun c => match c with
                                   | Dom.Element _ _ _ => [(c, conforming c)]
                                   | _ => []
                                   end) kids in
      if String.eqb t "dict" then paired cs
      else if String.eqb t "array" then forallb snd cs
      else value_tag t
  | _ => false
  end.

(** A computation that warns of nothing and throws at most a
    [SyntaxError] or an [InvalidCharacterError]. *)
Definition quiet {A} (m : Eff.M A) : Prop :=
  fst m = [] /\
  forall e, snd m = Throw e -> e = SyntaxError \/ e = InvalidCharacterError.

(** Whether a value holds an invalid Date, at any depth. *)
Fixpoint has_invalid_date (v : value) : bool :=
  match v with
  | VDate InvalidDate => true
  | VArray items => existsb has_invalid_date items
  | VObject entries => existsb (fun kv => has_invalid_date (snd kv)) entries
  | _ => false
  end.

(** What the writer of the host [h] does with a value, by whether an
    invalid Date is in it. *)
Definition writer_outcome (h : Host) (v : value) : Prop :=
  if has_invalid_date v then Serializer.val h v = Throw RangeError
  else exists n, Serializer.val h v = Ok n.

(** [null] and [undefined]: the values the writer makes no element of. *)
Definition is_absent (v : value) : bool :=
  match v with
  | VNull | VUndefined => true
  | _ => false
  end.

(** A value with the [null] and [undefined] items of its arrays dropped,
    at every depth. *)
Fixpoint compact (v : value) : value :=
  match v with
  | VArray items =>
      VArray (flat_map (fun x => if is_absent x then [] else [compact x]) items)
  | VObject entries =>
      VObject (map (fun kv => (fst kv, compact (snd kv))) entries)
  | _ => v
  end.

(** The plain values, with [null] and [undefined] allowed as items of
    their arrays. *)
Fixpoint sparse (w r : Host) (v : value) : Prop :=
  match v with
  | VArray items =>
      (fix all (l : list value) : Prop :=
         match l with
         | [] => True
         | x :: l' => (is_absent x = true \/ sparse w r x) /\ all l'
         end) items
  | VObject entries =>
      Obj.enumerated entries /\
      (fix all (l : list (string * value)) : Prop :=
         match l with
         | [] => True
         | kv :: l' => sparse w r (snd kv) /\ all l'
         end) entries
  | _ => plain w r v
  end.


(** An optional sign, and whether it is the minus sign. *)
Inductive sign_text : string -> bool -> Prop :=
| sign_none : sign_text "" false
| sign_plus : sign_text "+" false
| sign_minus : sign_text "-" true.

(** An exponent part and its value: [e] or [E], an optional sign,
    digits. *)
Inductive exponent_part : string -> Z -> Prop :=
| exponent_part_intro c sign neg ds :
    c = "e"%char \/ c = "E"%char ->
    sign_text sign neg ->
    ds <> EmptyString -> Str.forallb Digits.is_digit ds = true ->
    exponent_part (String c (sign ++ ds))
                  (if neg then (- Digits.value ds)%Z else Digits.value ds).

(** The unsigned decimal literals of ECMAScript (StrUnsignedDecimalLiteral
    other than [Infinity]) with mantissa [m] and exponent [e], the value
    being [m * 10^e]: digits; digits, a point and digits, one of the two
    runs of digits possibly empty; and either with an exponent part. *)
Inductive decimal_literal : string -> Z -> Z -> Prop :=
| literal_integer ip :
    ip <> EmptyString -> Str.forallb Digits.is_digit ip = true ->
    decimal_literal ip (Digits.value ip) 0
| literal_fraction ip fp :
    ip <> EmptyString \/ fp <> EmptyString ->
    Str.forallb Digits.is_digit ip = true ->
    Str.forallb Digits.is_digit fp = true ->
    decimal_literal (ip ++ "." ++ fp) (Digits.value (ip ++ fp))
                    (- Z.of_nat (String.length fp))
| literal_integer_exponent ip x ex :
    ip <> EmptyString -> Str.forallb Digits.is_digit ip = true ->
    exponent_part x ex ->
    decimal_literal (ip ++ x) (Digits.value ip) ex
| literal_fraction_exponent ip fp x ex :
    ip <> EmptyString \/ fp <> EmptyString ->
    Str.forallb Digits.is_digit ip = true ->
    Str.forallb Digits.is_digit fp = true ->
    exponent_part x ex ->
    decimal_literal (ip ++ "." ++ fp ++ x) (Digits.value (ip ++ fp))
                    (ex - Z.of_nat (String.length fp)).

(** [t] is the longest decimal literal that [t ++ tail] starts with. *)
Definition longest_literal (t tail : string) : Prop :=
  forall t' m' e',
    decimal_literal t' m' e' -> String.prefix t' (t ++ tail) = true ->
    (String.length t' <= String.length t)%nat.

(** The characters of a decimal literal and of its sign. *)
Definition literal_char (c : ascii) : bool :=
  (JS.numeric_char c || Ascii.eqb c "E")%bool.

(** The number of decimal points of a text. *)
Fixpoint points (s : string) : nat :=
  match s with
  | EmptyString => O
  | String c r => ((if Ascii.eqb c "." then 1 else 0) + points r)%nat
  end.

(** [reaches h root target]: reading [root], the reader comes to read
    [target], every element it reads before having been read without
    failure.  [target] is [root] itself; or it is reached from an item of
    the [array] [root], the items before having been read; or from the
    value that follows a key of the [dict] [root], each pair of children
    before having been skipped for want of a key or having had its value
    read. *)
Inductive reaches (h : Host) : Dom.Node -> Dom.Node -> Prop :=
| reaches_self n : reaches h n n
| reaches_item attributes childNodes before item after target :
    Dom.children (Dom.Element "array" attributes childNodes)
    = (before ++ item :: after)%list ->
    Forall (fun n => exists w v, Parser.val h n = (w, Ok v)) before ->
    reaches h item target ->
    reaches h (Dom.Element "array" attributes childNodes) target
| reaches_value attributes childNodes pairs key value after target :
    Dom.children (Dom.Element "dict" attributes childNodes)
    = (key_value_children pairs ++ key :: value :: after)%list ->
    Forall (fun p => Parser.tag_is "key" (fst p) = false \/
                     exists w v, Parser.val h (snd p) = (w, Ok v)) pairs ->
    Parser.tag_is "key" key = true ->
    reaches h value target ->
    reaches h (Dom.Element "dict" attributes childNodes) target.

(** A [dict] whose first pair has no key, so that its second child is
    never read, and whose second pair has for value an array with an
    [integer] item that is not numeric. *)
Definition unread_and_failing : Dom.Node :=
  Dom.Element "dict" []
    [Dom.Element "string" [] [Dom.Text "no key"];
     Dom.Element "integer" [] [Dom.Text "never read"];
     Dom.Element "key" [] [Dom.Text "a"];
     Dom.Element "array" []
       [Dom.Element "true" [] [];
        Dom.Element "integer" [] [Dom.Text "abc"]]].

(** The two warnings of the reader. *)
Definition reader_warning (message : string) : Prop :=
  message = "Missing key in dictionary or malformed structure" \/
  exists tagName, message = "Unknown plist tag: <" ++ tagName ++ ">".

(** A computation that writes only the warnings of the reader and throws
    at most a [SyntaxError], an [InvalidCharacterError] or a
    [TypeError]. *)
Definition tame {A} (m : Eff.M A) : Prop :=
  Forall reader_warning (fst m) /\
  forall e, snd m = Throw e ->
            e = SyntaxError \/ e = InvalidCharacterError \/ e = TypeError.

(* ================================================================== *)
(** * Part II: properties *)
(* ================================================================== *)

Ltac Zify.zify_convert_to_euclidean_division_equations_flag ::= constr:(true).

(** Boolean comparisons on [N] and [Z] turned into propositions for [lia]. *)
Ltac unbool :=
  repeat (progress (rewrite ?andb_true_iff, ?andb_false_iff, ?orb_true_iff,
    ?orb_false_iff, ?negb_true_iff, ?negb_false_iff,
    ?N.leb_le, ?N.leb_gt, ?N.ltb_lt, ?N.ltb_ge, ?N.eqb_eq, ?N.eqb_neq,
    ?Z.leb_le, ?Z.leb_gt, ?Z.ltb_lt, ?Z.ltb_ge, ?Z.eqb_eq, ?Z.eqb_neq in * )).
Ltac blia := unbool; lia.

Module Base64Facts.
Import Base64.
Local Open Scope N_scope.

Lemma below_64 (P : N -> Prop) :
  (forall n, In n (map N.of_nat (seq 0 64)) -> P n) ->
  forall n, n < 64 -> P n.
Proof.
  intros H n Hn. apply H.
  rewrite <- (N2Nat.id n). apply in_map. apply in_seq. lia.
Qed.

Lemma index_of_char_of n : n < 64 -> index_of (char_of n) = Some n.
Proof.
  revert n. apply below_64. intros n Hn.
  cbv [map seq] in Hn.
  repeat (destruct Hn as [<- | Hn]; [vm_compute; reflexivity|]).
  destruct Hn.
Qed.

End Base64Facts.

Module Base64Proofs.
Import Base64 Base64Facts.
Local Open Scope N_scope.

(** Induction over a string three code units at a time. *)
Lemma by_triples (P : string -> Prop) :
  P EmptyString ->
  (forall a, P (String a EmptyString)) ->
  (forall a b, P (String a (String b EmptyString))) ->
  (forall a b c r, P r -> P (String a (String b (String c r)))) ->
  forall s, P s.
Proof.
  intros H0 H1 H2 H3.
  fix IH 1. intros [|a [|b [|c r]]].
  - exact H0.
  - apply H1.
  - apply H2.
  - apply H3. apply IH.
Qed.

Lemma char_of_not_pad n : n < 64 -> Ascii.eqb (char_of n) pad = false.
Proof.
  intros Hn. destruct (Ascii.eqb_spec (char_of n) pad) as [E|]; [|reflexivity].
  pose proof (index_of_char_of n Hn) as H. rewrite E in H. discriminate H.
Qed.

Lemma is_b64_char_of n : n < 64 -> is_b64_char (char_of n) = true.
Proof. intros H. unfold is_b64_char. now rewrite index_of_char_of. Qed.

Lemma code_unit_bound a : N_of_ascii a < 256.
Proof. apply N_ascii_bounded. Qed.

Lemma code_unit_eq n a : n = N_of_ascii a -> ascii_of_N n = a.
Proof. intros ->. apply ascii_N_embedding. Qed.

Lemma btoa_chars s : Str.forallb is_b64_char (btoa s) = true.
Proof.
  induction s as [|a|a b|a b c r IH] using by_triples; cbn [btoa Str.forallb].
  - reflexivity.
  - pose proof (code_unit_bound a).
    rewrite !is_b64_char_of by lia. reflexivity.
  - pose proof (code_unit_bound a). pose proof (code_unit_bound b).
    rewrite !is_b64_char_of by lia. reflexivity.
  - pose proof (code_unit_bound a). pose proof (code_unit_bound b).
    pose proof (code_unit_bound c).
    rewrite !is_b64_char_of by lia. exact IH.
Qed.

Lemma is_b64_char_not_space c :
  is_b64_char c = true -> Str.is_ascii_space c = false /\ Str.is_space c = false.
Proof.
  unfold is_b64_char. destruct (index_of c) as [n|] eqn:E.
  - intros _. revert E. unfold index_of, Str.is_ascii_space, Str.is_space.
    cbv zeta. generalize (N_of_ascii c). intros m.
    repeat match goal with
    | |- context [if ?b then _ else _] => destruct b eqn:?
    end; intros; try discriminate; split; blia.
  - intros H. apply Ascii.eqb_eq in H. subst c. split; reflexivity.
Qed.

Lemma filter_all f s : Str.forallb f s = true -> Str.filter f s = s.
Proof.
  induction s as [|c r IH]; cbn; [reflexivity|].
  intros H. apply andb_true_iff in H as [Hc Hr]. rewrite Hc, IH; auto.
Qed.

Lemma forallb_impl (f g : ascii -> bool) s :
  (forall c, f c = true -> g c = true) ->
  Str.forallb f s = true -> Str.forallb g s = true.
Proof.
  intros Hfg. induction s as [|c r IH]; cbn; [reflexivity|].
  intros H. apply andb_true_iff in H as [Hc Hr]. rewrite (Hfg _ Hc), IH; auto.
Qed.

Lemma btoa_no_ascii_space s :
  Str.filter (fun c => negb (Str.is_ascii_space c)) (btoa s) = btoa s.
Proof.
  apply filter_all. eapply forallb_impl; [|apply btoa_chars].
  intros c Hc. now rewrite (proj1 (is_b64_char_not_space c Hc)).
Qed.

Lemma btoa_no_space s : Str.remove_spaces (btoa s) = btoa s.
Proof.
  apply filter_all. eapply forallb_impl; [|apply btoa_chars].
  intros c Hc. now rewrite (proj2 (is_b64_char_not_space c Hc)).
Qed.

Lemma btoa_length s : N.of_nat (String.length (btoa s)) mod 4 = 0.
Proof.
  induction s as [|a|a b|a b c r IH] using by_triples; cbn [btoa String.length];
    try reflexivity.
  rewrite !Nat2N.inj_succ. lia.
Qed.

(** Decoding the alphabet part of [btoa s] gives [s] back. *)
Lemma decode_btoa s :
  exists l, indices (strip_padding (btoa s)) = Some l /\ decode_groups l = Some s.
Proof.
  induction s as [|a|a b|a b c r IH] using by_triples.
  - exists []. split; reflexivity.
  - pose proof (code_unit_bound a) as Ha.
    cbn [btoa strip_padding]. rewrite !char_of_not_pad by lia.
    cbn [andb indices]. rewrite !index_of_char_of by lia.
    eexists. split; [reflexivity|]. cbn [decode_groups].
    repeat first [apply code_unit_eq; lia | f_equal].
  - pose proof (code_unit_bound a) as Ha. pose proof (code_unit_bound b) as Hb.
    cbn [btoa strip_padding]. rewrite !char_of_not_pad by lia.
    cbn [andb indices]. rewrite !index_of_char_of by lia.
    eexists. split; [reflexivity|]. cbn [decode_groups].
    repeat first [apply code_unit_eq; lia | f_equal].
  - destruct IH as (l & Hl & Hd).
    pose proof (code_unit_bound a) as Ha. pose proof (code_unit_bound b) as Hb.
    pose proof (code_unit_bound c) as Hc.
    cbn [btoa strip_padding]. rewrite !char_of_not_pad by lia.
    cbn [andb indices]. rewrite !index_of_char_of by lia. rewrite Hl.
    eexists. split; [reflexivity|]. cbn [decode_groups]. rewrite Hd.
    repeat first [apply code_unit_eq; lia | f_equal].
Qed.

Lemma forgiving_decode_btoa s : forgiving_decode (btoa s) = Some s.
Proof.
  unfold forgiving_decode. rewrite btoa_no_ascii_space, btoa_length.
  cbn [N.eqb]. destruct (decode_btoa s) as (l & -> & Hd). exact Hd.
Qed.

End Base64Proofs.

(** ** The binary data codec *)

Module CodecProofs.
Import Base64 Base64Proofs.

Lemma spaced_remove s t :
  spaced s t -> Str.remove_spaces s = s -> Str.remove_spaces t = s.
Proof.
  unfold Str.remove_spaces.
  induction 1 as [|c s t _ IH|w s t Hw _ IH]; intros Hs; cbn in *.
  - reflexivity.
  - destruct (Str.is_space c); cbn in *.
    + exfalso.
      assert (L : forall f u, String.length (Str.filter f u) <= String.length u).
      { intros f u. induction u as [|a u IHu]; cbn; [lia|].
        destruct (f a); cbn; lia. }
      pose proof (L (fun c => negb (Str.is_space c)) s) as B.
      rewrite Hs in B. cbn in B. lia.
    + injection Hs as Hs. now rewrite IH.
  - rewrite Hw. cbn. auto.
Qed.

Lemma data_btoa (r : Host) (s : string) :
  Parser.data r (btoa s) = Ok (list_byte_of_string s).
Proof.
  unfold Parser.data, fromBase64, atob. rewrite btoa_no_space.
  rewrite forgiving_decode_btoa. unfold of_option.
  destruct (has_fromBase64 r); reflexivity.
Qed.

Lemma b64_is_btoa (w : Host) (b : list byte) :
  Serializer.b64 w b = btoa (string_of_list_byte b).
Proof. unfold Serializer.b64, toBase64. now destruct (has_toBase64 w). Qed.

End CodecProofs.

(** C5.  Decoding the encoding of a byte sequence returns the sequence,
    the empty one included, whatever base64 primitives the writing host
    [w] and the reading host [r] offer; and decoding still returns it from
    any text that is the encoding with white space or newlines inserted. *)
Theorem decode_encode (w r : Host) (b : list byte) :
  Parser.data r (Serializer.b64 w b) = Ok b /\
  forall text, spaced (Serializer.b64 w b) text -> Parser.data r text = Ok b.
Proof.
  rewrite CodecProofs.b64_is_btoa.
  assert (E : Parser.data r (Base64.btoa (string_of_list_byte b)) = Ok b).
  { rewrite CodecProofs.data_btoa. now rewrite list_byte_of_string_of_list_byte. }
  split; [exact E|].
  intros text Ht.
  apply CodecProofs.spaced_remove in Ht; [|apply Base64Proofs.btoa_no_space].
  unfold Parser.data in *. rewrite Ht.
  now rewrite Base64Proofs.btoa_no_space in E.
Qed.

(** ** Induction over values *)

Section ValueInduction.

Variable P : value -> Prop.
Hypothesis P_null : P VNull.
Hypothesis P_undefined : P VUndefined.
Hypothesis P_bool : forall b, P (VBool b).
Hypothesis P_string : forall s, P (VString s).
Hypothesis P_bigint : forall z, P (VBigInt z).
Hypothesis P_number : forall x, P (VNumber x).
Hypothesis P_date : forall d, P (VDate d).
Hypothesis P_bytes : forall b, P (VUint8Array b).
Hypothesis P_array : forall items, Forall P items -> P (VArray items).
Hypothesis P_object :
  forall entries, Forall (fun kv => P (snd kv)) entries -> P (VObject entries).

Lemma value_induction : forall v, P v.
Proof.
  fix IH 1. intros [| |b|s|z|x|d|bytes|items|entries].
  - exact P_null.
  - exact P_undefined.
  - apply P_bool.
  - apply P_string.
  - apply P_bigint.
  - apply P_number.
  - apply P_date.
  - apply P_bytes.
  - apply P_array. induction items as [|x items IHitems]; constructor.
    + apply IH.
    + exact IHitems.
  - apply P_object. induction entries as [|kv entries IHentries]; constructor.
    + apply IH.
    + exact IHentries.
Qed.

End ValueInduction.

(** ** The writer and the values that give no element *)

Module WriterProofs.
Import Dom Serializer.

Section WithHost.
Context (h : Host).

Lemma write_array items :
  val h (VArray items) =
  match arr_children (val h) items with
  | Ok nodes => Ok (Some (Element "array" [] nodes))
  | Throw e => Throw e
  end.
Proof.
  cbn [val]. unfold arr. now destruct (arr_children (val h) items).
Qed.

Lemma write_object obj :
  val h (VObject obj) =
  match dict_children (val h) obj with
  | Ok nodes => Ok (Some (Element "dict" [] nodes))
  | Throw e => Throw e
  end.
Proof.
  cbn [val]. unfold dict. now destruct (dict_children (val h) obj).
Qed.

Lemma arr_children_app f l1 l2 :
  arr_children f (l1 ++ l2) =
  match arr_children f l1 with
  | Throw e => Throw e
  | Ok n1 =>
      match arr_children f l2 with
      | Throw e => Throw e
      | Ok n2 => Ok (n1 ++ n2)%list
      end
  end.
Proof.
  induction l1 as [|x l1 IH]; cbn.
  - now destruct (arr_children f l2).
  - destruct (f x) as [c|e]; [|reflexivity]. rewrite IH.
    destruct (arr_children f l1); [|reflexivity].
    destruct (arr_children f l2); [|reflexivity].
    now destruct c.
Qed.

Lemma dict_children_app f l1 l2 :
  dict_children f (l1 ++ l2) =
  match dict_children f l1 with
  | Throw e => Throw e
  | Ok n1 =>
      match dict_children f l2 with
      | Throw e => Throw e
      | Ok n2 => Ok (n1 ++ n2)%list
      end
  end.
Proof.
  induction l1 as [|[k x] l1 IH]; cbn.
  - now destruct (dict_children f l2).
  - destruct (f x) as [c|e]; [|reflexivity]. rewrite IH.
    destruct (dict_children f l1); [|reflexivity].
    destruct (dict_children f l2); [|reflexivity].
    now destruct c.
Qed.

Lemma arr_children_drop_null items :
  arr_children (val h) (List.filter (fun v => negb (is_null v)) items) =
  arr_children (val h) items.
Proof.
  induction items as [|x r IH]; [reflexivity|].
  cbn [List.filter]. destruct x; cbn [is_null negb];
    try (cbn [arr_children]; rewrite IH; reflexivity).
  cbn [arr_children val]. rewrite IH.
  now destruct (arr_children (val h) r).
Qed.

Lemma arr_children_ext items items' :
  Forall2 (fun v v' => val h v = val h v') items items' ->
  arr_children (val h) items = arr_children (val h) items'.
Proof.
  induction 1 as [|v v' l l' E _ IH]; [reflexivity|].
  cbn [arr_children]. now rewrite E, IH.
Qed.

Lemma dict_children_ext obj obj' :
  Forall2 (fun kv kv' => fst kv = fst kv' /\ val h (snd kv) = val h (snd kv'))
          obj obj' ->
  dict_children (val h) obj = dict_children (val h) obj'.
Proof.
  induction 1 as [|[k v] [k' v'] l l' [E1 E2] _ IH]; [reflexivity|].
  cbn in E1, E2. subst k'. cbn [dict_children]. now rewrite E2, IH.
Qed.

Lemma val_nullify v : val h (nullify v) = val h v.
Proof.
  induction v as [| | | | | | | |items IH|entries IH] using value_induction;
    try reflexivity.
  - cbn [nullify]. rewrite !write_array.
    rewrite (arr_children_ext (map nullify items) items); [reflexivity|].
    induction IH; constructor; auto.
  - cbn [nullify]. rewrite !write_object.
    rewrite (dict_children_ext
               (map (fun kv => (fst kv, nullify (snd kv))) entries) entries);
      [reflexivity|].
    induction IH; constructor; auto.
Qed.

End WithHost.

End WriterProofs.

(** C7.  Serializing an array drops every Null item: the array element is
    the one for the items that are not Null, and the array [1, Null, 2]
    gives an [array] element with exactly two children, the integer
    elements 1 and 2 in that order. *)
Theorem array_drops_null (h : Host) :
  (forall items,
     Serializer.val h (VArray items) =
     Serializer.val h (VArray (List.filter (fun v => negb (is_null v)) items)))
  /\ Serializer.val h
       (VArray [VNumber (JS.of_Z 1); VNull; VNumber (JS.of_Z 2)]) =
     Ok (Some (Dom.Element "array" []
                 [Dom.Element "integer" [] [Dom.Text "1"];
                  Dom.Element "integer" [] [Dom.Text "2"]])).
Proof.
  split.
  - intros items. rewrite !WriterProofs.write_array.
    now rewrite WriterProofs.arr_children_drop_null.
  - reflexivity.
Qed.

(** C10.  The writer treats [undefined] exactly like Null at every
    position: a value and the same value with Null for every [undefined]
    give the same element, or none, and the same text; an [undefined]
    array item is omitted, so the array element has one child less; an
    [undefined] dict value leaves its [key] element with no value element
    after it. *)
Theorem undefined_like_null (h : Host) :
  (forall v, Serializer.val h v = Serializer.val h (nullify v)) /\
  (forall v, Serializer.serialize h v = Serializer.serialize h (nullify v)) /\
  (forall before after,
     Serializer.val h (VArray (before ++ VUndefined :: after)) =
     Serializer.val h (VArray (before ++ after))) /\
  (forall k before after nodes1 nodes2,
     Serializer.dict_children (Serializer.val h) before = Ok nodes1 ->
     Serializer.dict_children (Serializer.val h) after = Ok nodes2 ->
     Serializer.val h (VObject (before ++ (k, VUndefined) :: after)) =
     Ok (Some (Dom.Element "dict" []
                 (nodes1 ++ Serializer.el "key" k :: nodes2)))).
Proof.
  split; [|split; [|split]].
  - intros v. symmetry. apply WriterProofs.val_nullify.
  - intros v. unfold Serializer.serialize.
    now rewrite WriterProofs.val_nullify.
  - intros before after. rewrite !WriterProofs.write_array.
    rewrite !WriterProofs.arr_children_app.
    destruct (Serializer.arr_children (Serializer.val h) before);
      [|reflexivity].
    cbn. now destruct (Serializer.arr_children (Serializer.val h) after).
  - intros k before after nodes1 nodes2 H1 H2.
    rewrite WriterProofs.write_object, WriterProofs.dict_children_app, H1.
    cbn. now rewrite H2.
Qed.

Lemma undefined_like_null_witness :
  Serializer.val (example_host (document_of (Dom.Text "")) "")
    (VObject ([("a", VBool true)] ++ ("b", VUndefined) :: [("c", VBool false)])) =
  Ok (Some (Dom.Element "dict" []
              ([Dom.Element "key" [] [Dom.Text "a"]; Dom.Element "true" [] []]
               ++ Serializer.el "key" "b"
               :: [Dom.Element "key" [] [Dom.Text "c"];
                   Dom.Element "false" [] []]))).
Proof.
  apply (proj2 (proj2 (proj2 (undefined_like_null _)))); reflexivity.
Defined.

Lemma decode_encode_witness :
  Parser.data (example_host (document_of (Dom.Text "")) "")
    (String "A" (String "A" (String " " (String "E" (String "C"
      (String (ascii_of_N 10) (String "/" (String "w"
        (String (ascii_of_N 9) "==")))))))))
  = Ok [x00; x01; x02; xff]%byte.
Proof.
  apply (proj2 (decode_encode (example_host (document_of (Dom.Text "")) "")
                  (example_host (document_of (Dom.Text "")) "")
                  [x00; x01; x02; xff]%byte)).
  cbn.
  repeat first [ apply spaced_end
               | apply spaced_keep
               | apply spaced_insert; [reflexivity|] ].
Defined.

(** ** The reader *)

Module ReaderProofs.
Import Dom Eff Parser.

(** The monad laws the proofs use. *)
Lemma bind_ret_l {A B} (a : A) (f : A -> M B) : bind (ret a) f = f a.
Proof. unfold bind, ret. now destruct (f a). Qed.

Lemma bind_ret_r {A} (m : M A) : bind m ret = m.
Proof.
  destruct m as [w [a|e]]; cbn; [|reflexivity]. now rewrite app_nil_r.
Qed.

Lemma bind_assoc {A B C} (m : M A) (f : A -> M B) (g : B -> M C) :
  bind (bind m f) g = bind m (fun a => bind (f a) g).
Proof.
  destruct m as [w [a|e]]; cbn; [|reflexivity].
  destruct (f a) as [w1 [b|e]]; cbn; [|reflexivity].
  destruct (g b) as [w2 r]. now rewrite app_assoc.
Qed.

Lemma mapM_ext {A B} (f g : A -> M B) l :
  (forall a, In a l -> f a = g a) -> mapM f l = mapM g l.
Proof.
  induction l as [|a l IH]; intros H; [reflexivity|].
  cbn [mapM]. rewrite (H a) by now left.
  rewrite IH; [reflexivity|]. intros b Hb. apply H. now right.
Qed.

Section WithHost.
Context (h : Host).

Lemma val_element t a kids :
  val h (Element t a kids) =
  match handlers h t (converted h kids) (textContent (Element t a kids)) with
  | Some fn => fn
  | None =>
      warn ("Unknown plist tag: <" ++ t ++ ">") ;;;
      ret (VString (textContent (Element t a kids)))
  end.
Proof.
  cbn [val]. unfold converted.
  replace (flat_map _ kids)
    with (map (fun c => (c, val h c)) (List.filter is_element kids));
    [reflexivity|].
  induction kids as [|k r IH]; [reflexivity|].
  cbn [List.filter flat_map]. destruct k; cbn; now rewrite IH.
Qed.

Lemma val_integer a kids :
  val h (Element "integer" a kids) =
  lift (int (textContent (Element "integer" a kids))).
Proof. rewrite val_element. reflexivity. Qed.

Lemma val_real a kids :
  val h (Element "real" a kids) =
  ret (VNumber (JS.parseFloat (textContent (Element "real" a kids)))).
Proof. rewrite val_element. reflexivity. Qed.

Lemma val_dict a kids :
  val h (Element "dict" a kids) = dict (converted h kids).
Proof. rewrite val_element. reflexivity. Qed.

Lemma val_array a kids :
  val h (Element "array" a kids) =
  (items <- mapM snd (converted h kids) ;; ret (VArray items)).
Proof. rewrite val_element. reflexivity. Qed.

End WithHost.

Lemma bind_ext {A B} (m : M A) (f g : A -> M B) :
  (forall a, f a = g a) -> bind m f = bind m g.
Proof. intros H. destruct m as [w [a|e]]; cbn; [now rewrite H|reflexivity]. Qed.

Lemma mapM_map {A B C} (f : B -> M C) (g : A -> B) l :
  mapM f (map g l) = mapM (fun a => f (g a)) l.
Proof.
  induction l as [|a l IH]; [reflexivity|]. cbn [map mapM]. now rewrite IH.
Qed.

Lemma dict_entries children :
  dict children =
  (entries <- mapM (pair children) (seq 0 (List.length children / 2)) ;;
   ret (VObject (Obj.fromEntries (somes entries)))).
Proof. reflexivity. Qed.

Lemma entries_pair c1 c2 rest :
  mapM (pair (c1 :: c2 :: rest))
       (seq 0 (List.length (c1 :: c2 :: rest) / 2))
  = (e <- pair (c1 :: c2 :: rest) 0 ;;
     es <- mapM (pair rest) (seq 0 (List.length rest / 2)) ;;
     ret (e :: es)).
Proof.
  assert (L : List.length (c1 :: c2 :: rest) / 2 = S (List.length rest / 2)).
  { cbn [List.length].
    replace (S (S (List.length rest))) with (List.length rest + 1 * 2) by lia.
    rewrite Nat.div_add by lia. lia. }
  rewrite L. cbn [seq mapM]. apply bind_ext. intros e.
  rewrite <- seq_shift, mapM_map. reflexivity.
Qed.

(** A pair whose first child is no [key] element adds a warning and no
    entry. *)
Lemma dict_pair_without_key c1 c2 rest :
  tag_is "key" (fst c1) = false ->
  dict (c1 :: c2 :: rest) =
  (warn "Missing key in dictionary or malformed structure" ;;; dict rest).
Proof.
  intros H. rewrite !dict_entries, entries_pair.
  assert (E : pair (c1 :: c2 :: rest) 0
              = (warn "Missing key in dictionary or malformed structure" ;;;
                 ret None)).
  { unfold pair. cbn [nth_error Nat.mul]. destruct c1 as [k m].
    cbn [fst] in H. now rewrite H. }
  rewrite E, !bind_assoc. apply bind_ext. intros [].
  rewrite bind_ret_l, !bind_assoc. apply bind_ext. intros es.
  now rewrite bind_ret_l.
Qed.

Lemma trim_start_spaces s :
  Str.forallb Str.is_space s = true -> JS.trim_start s = EmptyString.
Proof.
  induction s as [|c r IH]; cbn; [reflexivity|].
  intros H. apply andb_true_iff in H as [-> Hr]. auto.
Qed.

Lemma trim_spaces s :
  Str.forallb Str.is_space s = true -> JS.trim s = EmptyString.
Proof. intros H. unfold JS.trim. now rewrite trim_start_spaces. Qed.

Lemma even_half n : Nat.even n = true -> (n + 1) / 2 = n / 2.
Proof.
  intros E. apply Nat.even_spec in E as [k ->].
  replace (2 * k + 1) with (1 + k * 2) by lia.
  rewrite Nat.div_add by lia. replace (2 * k) with (k * 2) by lia.
  rewrite Nat.div_mul by lia. reflexivity.
Qed.

(** The child after the last pair is never looked at. *)
Lemma dict_odd_child (children : list (Node * M value)) c :
  Nat.even (List.length children) = true ->
  dict (children ++ [c]) = dict children.
Proof.
  intros E. unfold dict. rewrite length_app. cbn [List.length].
  rewrite (even_half _ E). f_equal.
  apply mapM_ext. intros i Hi. apply in_seq in Hi.
  assert (B : i * 2 + 1 < List.length children).
  { apply Nat.even_spec in E as [k Hk]. rewrite Hk in *.
    replace (2 * k) with (k * 2) in Hi by lia.
    rewrite Nat.div_mul in Hi by lia. lia. }
  unfold pair. rewrite !nth_error_app1 by lia. reflexivity.
Qed.

End ReaderProofs.

(** C9.  An [integer] element whose text content is empty or white space
    only reads as the machine integer 0, without failing and without a
    warning: the numeric conversion of such a text is 0, a safe
    integer. *)
Theorem blank_integer_is_zero (h : Host) (attributes : list (string * string))
    (childNodes : list Dom.Node) :
  Str.forallb Str.is_space
    (Dom.textContent (Dom.Element "integer" attributes childNodes)) = true ->
  JS.Number (Dom.textContent (Dom.Element "integer" attributes childNodes))
  = JS.Zero false /\
  JS.isSafeInteger (JS.Zero false) = true /\
  Parser.val h (Dom.Element "integer" attributes childNodes)
  = ([], Ok (VNumber (JS.Zero false))).
Proof.
  intros H. rewrite ReaderProofs.val_integer.
  unfold Parser.int, JS.Number. rewrite (ReaderProofs.trim_spaces _ H).
  repeat split.
Qed.

Lemma blank_integer_is_zero_witness :
  Parser.val (example_host (document_of (Dom.Text "")) "")
    (Dom.Element "integer" [] [Dom.Text "  "; Dom.Comment "none"; Dom.Text " "])
  = ([], Ok (VNumber (JS.Zero false))).
Proof.
  apply (blank_integer_is_zero
           (example_host (document_of (Dom.Text "")) "") []
           [Dom.Text "  "; Dom.Comment "none"; Dom.Text " "]).
  reflexivity.
Defined.

(** C3 (the code departs from it).  A [dict] element whose only child is
    a [key] reads as the empty object, not as that key mapped to Null, and
    so does the document [<plist><dict><key>a</key></dict></plist>]: the
    pairs are counted as half the number of children rounded down, so the
    child after the last pair is never looked at, whatever it is. *)
Theorem dict_dangling_key_dropped (h : Host) :
  Parser.val h (Dom.Element "dict" []
                  [Dom.Element "key" [] [Dom.Text "a"]])
  = ([], Ok (VObject [])) /\
  (forall xml,
     Dom.documentElement (parseFromString h xml)
     = Dom.Element "plist" []
         [Dom.Element "dict" [] [Dom.Element "key" [] [Dom.Text "a"]]] ->
     Parser.parse h xml = ([], Ok (VObject []))) /\
  forall children last,
    Nat.even (List.length children) = true ->
    Parser.dict (children ++ [last]) = Parser.dict children.
Proof.
  split; [reflexivity|split].
  - intros xml E. unfold Parser.parse, Dom.querySelector. rewrite E.
    reflexivity.
  - intros children last. apply ReaderProofs.dict_odd_child.
Qed.

Lemma dict_dangling_key_dropped_witness :
  Parser.parse
    (scenario_host
       (Dom.Element "plist" []
          [Dom.Element "dict" [] [Dom.Element "key" [] [Dom.Text "a"]]]))
    "<plist><dict><key>a</key></dict></plist>"
  = ([], Ok (VObject [])) /\
  Parser.dict ([] ++ [(Dom.Element "key" [] [Dom.Text "a"],
                       Eff.ret (VString "a"))])
  = Parser.dict [].
Proof.
  split.
  - apply (proj1 (proj2 (dict_dangling_key_dropped
                           (scenario_host
                              (Dom.Element "plist" []
                                 [Dom.Element "dict" []
                                    [Dom.Element "key" [] [Dom.Text "a"]]]))))).
    reflexivity.
  - apply (proj2 (proj2 (dict_dangling_key_dropped
                           (scenario_host (Dom.Text ""))))).
    reflexivity.
Defined.

(** ** Rounding *)

Module RoundingProofs.
Import JS.
Local Open Scope Z_scope.

Lemma pow_pos b k : 0 < b -> 0 <= k -> 0 < b ^ k.
Proof. intros. apply Z.pow_pos_nonneg; lia. Qed.

Lemma scale_num_pos p e : 0 < p -> 0 < scale_num p e.
Proof. intros H. unfold scale_num. pose proof (pow_pos 2 (Z.max 0 (- e))). nia. Qed.

Lemma scale_den_pos q e : 0 < q -> 0 < scale_den q e.
Proof. intros H. unfold scale_den. pose proof (pow_pos 2 (Z.max 0 e)). nia. Qed.

(** [p / (q * 2^(e-d))] is [2^d] times [p / (q * 2^e)], cross-multiplied. *)
Lemma scale_cross p q e d :
  0 <= d ->
  scale_num p (e - d) * scale_den q e =
  2 ^ d * scale_num p e * scale_den q (e - d).
Proof.
  intros Hd. unfold scale_num, scale_den.
  destruct (Z.le_gt_cases 0 (e - d)) as [H|H].
  - replace (Z.max 0 (- (e - d))) with 0 by lia.
    replace (Z.max 0 (- e)) with 0 by lia.
    replace (Z.max 0 e) with (d + (e - d)) by lia.
    replace (Z.max 0 (e - d)) with (e - d) by lia.
    rewrite Z.pow_add_r by lia. ring.
  - replace (Z.max 0 (e - d)) with 0 by lia.
    replace (Z.max 0 (- (e - d))) with (d - e) by lia.
    destruct (Z.le_gt_cases 0 e) as [He|He].
    + replace (Z.max 0 (- e)) with 0 by lia.
      replace (Z.max 0 e) with e by lia.
      replace d with ((d - e) + e) at 2 by lia.
      rewrite (Z.pow_add_r 2 (d - e) e) by lia. ring.
    + replace (Z.max 0 (- e)) with (- e) by lia.
      replace (Z.max 0 e) with 0 by lia.
      replace (d - e) with (d + - e) by lia.
      rewrite Z.pow_add_r by lia. ring.
Qed.

Lemma above_down p q l l' :
  0 < p -> 0 < q -> l' <= l -> above p q l -> above p q l'.
Proof.
  unfold above. intros Hp Hq Hl H.
  pose proof (scale_cross p q l (l - l') ltac:(lia)) as C.
  replace (l - (l - l')) with l' in C by lia.
  pose proof (scale_num_pos p l Hp). pose proof (scale_den_pos q l Hq).
  pose proof (scale_num_pos p l' Hp). pose proof (scale_den_pos q l' Hq).
  pose proof (pow_pos 2 (l - l') ltac:(lia) ltac:(lia)).
  assert (scale_num p l * scale_den q l' <= 2 ^ (l - l') * scale_num p l * scale_den q l') by nia.
  assert (scale_den q l * scale_den q l' <= scale_num p l * scale_den q l') by nia.
  nia.
Qed.

Lemma floor_log2_spec p q :
  0 < p -> 0 < q ->
  above p q (floor_log2 p q) /\ ~ above p q (floor_log2 p q + 1).
Proof.
  intros Hp Hq.
  pose proof (Z.log2_spec p Hp) as [Pa Pb].
  pose proof (Z.log2_spec q Hq) as [Qa Qb].
  pose proof (Z.log2_nonneg p). pose proof (Z.log2_nonneg q).
  set (a := Z.log2 p) in *. set (b := Z.log2 q) in *.
  assert (Lo : above p q (a - b - 1)).
  { unfold above, scale_num, scale_den.
    destruct (Z.le_gt_cases 0 (a - b - 1)).
    - replace (Z.max 0 (- (a - b - 1))) with 0 by lia.
      replace (Z.max 0 (a - b - 1)) with (a - b - 1) by lia.
      rewrite Z.pow_0_r.
      replace (Z.succ b) with (b + 1) in Qb by lia.
      assert (2 ^ (b + 1) * 2 ^ (a - b - 1) = 2 ^ a).
      { rewrite <- Z.pow_add_r by lia. f_equal. lia. }
      pose proof (pow_pos 2 (a - b - 1) ltac:(lia) ltac:(lia)). nia.
    - replace (Z.max 0 (- (a - b - 1))) with (b + 1 - a) by lia.
      replace (Z.max 0 (a - b - 1)) with 0 by lia.
      rewrite Z.pow_0_r.
      replace (Z.succ b) with (b + 1) in Qb by lia.
      assert (2 ^ a * 2 ^ (b + 1 - a) = 2 ^ (b + 1)).
      { rewrite <- Z.pow_add_r by lia. f_equal. lia. }
      pose proof (pow_pos 2 (b + 1 - a) ltac:(lia) ltac:(lia)). nia. }
  assert (Hi : ~ above p q (a - b + 1)).
  { unfold above, scale_num, scale_den.
    destruct (Z.le_gt_cases 0 (a - b + 1)).
    - replace (Z.max 0 (- (a - b + 1))) with 0 by lia.
      replace (Z.max 0 (a - b + 1)) with (a - b + 1) by lia.
      rewrite Z.pow_0_r.
      replace (Z.succ a) with (a + 1) in Pb by lia.
      assert (2 ^ b * 2 ^ (a - b + 1) = 2 ^ (a + 1)).
      { rewrite <- Z.pow_add_r by lia. f_equal. lia. }
      pose proof (pow_pos 2 (a - b + 1) ltac:(lia) ltac:(lia)). nia.
    - replace (Z.max 0 (- (a - b + 1))) with (b - a - 1) by lia.
      replace (Z.max 0 (a - b + 1)) with 0 by lia.
      rewrite Z.pow_0_r.
      replace (Z.succ a) with (a + 1) in Pb by lia.
      assert (2 ^ (a + 1) * 2 ^ (b - a - 1) = 2 ^ b).
      { rewrite <- Z.pow_add_r by lia. f_equal. lia. }
      pose proof (pow_pos 2 (b - a - 1) ltac:(lia) ltac:(lia)). nia. }
  unfold floor_log2. fold a b.
  destruct (Z.leb_spec (scale_den q (a - b)) (scale_num p (a - b))) as [H1|H1].
  - split; [exact H1|exact Hi].
  - split; [exact Lo|]. replace (a - b - 1 + 1) with (a - b) by lia.
    unfold above. lia.
Qed.

Lemma floor_log2_unique p q l :
  0 < p -> 0 < q -> above p q l -> ~ above p q (l + 1) -> floor_log2 p q = l.
Proof.
  intros Hp Hq A B.
  destruct (floor_log2_spec p q Hp Hq) as [A' B'].
  destruct (Z.lt_trichotomy (floor_log2 p q) l) as [H|[H|H]]; [|exact H|].
  - exfalso. apply B'. apply (above_down p q l); auto. lia.
  - exfalso. apply B. apply (above_down p q (floor_log2 p q)); auto. lia.
Qed.


Lemma strip_spec m e :
  let (m', e') := strip m e in
  e <= e' /\ Z.pos m = Z.pos m' * 2 ^ (e' - e) /\ Z.odd (Z.pos m') = true.
Proof.
  revert e. induction m as [m IH|m IH|]; intros e; cbn [strip].
  - replace (e - e) with 0 by lia. rewrite Z.pow_0_r. repeat split; lia.
  - specialize (IH (e + 1)). destruct (strip m (e + 1)) as [m' e'].
    destruct IH as (H1 & H2 & H3). repeat split; [lia| |exact H3].
    replace (e' - e) with (1 + (e' - (e + 1))) by lia.
    rewrite Z.pow_add_r by lia. rewrite Pos2Z.inj_xO, H2. ring.
  - replace (e - e) with 0 by lia. repeat split; lia.
Qed.

Lemma strip_unique M m0 j e :
  Z.odd (Z.pos m0) = true -> 0 <= j -> Z.pos M = Z.pos m0 * 2 ^ j ->
  strip M e = (m0, e + j).
Proof.
  intros Hodd. revert j e.
  assert (Even : forall j, 0 < j -> Z.odd (Z.pos m0 * 2 ^ j) = false).
  { intros j Hj. replace j with (1 + (j - 1)) by lia.
    rewrite Z.pow_add_r by lia. rewrite Z.odd_mul, Z.odd_mul. cbn.
    now rewrite andb_false_r. }
  induction M as [M IH|M IH|]; intros j e Hj HM; cbn [strip].
  - destruct (Z.eq_dec j 0) as [->|Hn].
    + rewrite Z.pow_0_r in HM. f_equal; lia.
    + specialize (Even j ltac:(lia)). rewrite <- HM in Even. discriminate Even.
  - destruct (Z.eq_dec j 0) as [->|Hn].
    + rewrite Z.pow_0_r in HM. rewrite Z.mul_1_r in HM. rewrite <- HM in Hodd.
      discriminate Hodd.
    + rewrite (IH (j - 1) (e + 1)); [f_equal; lia|lia|].
      replace j with (1 + (j - 1)) in HM by lia.
      rewrite Z.pow_add_r in HM by lia. rewrite Pos2Z.inj_xO in HM. lia.
  - destruct (Z.eq_dec j 0) as [->|Hn].
    + rewrite Z.pow_0_r in HM. f_equal; lia.
    + specialize (Even j ltac:(lia)). rewrite <- HM in Even. discriminate Even.
Qed.

Lemma make_exact neg m0 j e :
  Z.odd (Z.pos m0) = true -> 0 <= j ->
  Z.log2 (Z.pos m0) + j + e < 1024 ->
  make neg (Z.pos m0 * 2 ^ j) e = Finite neg m0 (e + j).
Proof.
  intros Hodd Hj Hlog.
  pose proof (pow_pos 2 j ltac:(lia) Hj) as Hp.
  destruct (Z.pos m0 * 2 ^ j) as [|M|M] eqn:E; try lia.
  unfold make. rewrite <- E. rewrite Z.log2_mul_pow2 by lia.
  destruct (Z.leb_spec 1024 (j + Z.log2 (Z.pos m0) + e)); [lia|].
  now rewrite (strip_unique M m0 j e Hodd Hj).
Qed.

(** A ratio that is a binary64 value rounds to itself. *)
Lemma round_exact neg p q m0 e0 :
  0 < p -> 0 < q ->
  is_double (Finite neg m0 e0) = true ->
  scale_num p e0 = Z.pos m0 * scale_den q e0 ->
  round_ratio neg p q = Finite neg m0 e0.
Proof.
  intros Hp Hq Hd Hex.
  cbn [is_double] in Hd.
  apply andb_true_iff in Hd as [Hd H4]. apply andb_true_iff in Hd as [Hd H3].
  apply andb_true_iff in Hd as [H1 H2].
  apply Z.ltb_lt in H2, H4. apply Z.leb_le in H3.
  pose proof (Z.log2_spec (Z.pos m0) ltac:(lia)) as [Ca Cb].
  pose proof (Z.log2_nonneg (Z.pos m0)) as Cn.
  set (c := Z.log2 (Z.pos m0)) in *.
  replace (Z.succ c) with (c + 1) in Cb by lia.
  assert (Hc : c < 53).
  { apply Z.log2_lt_pow2; lia. }
  (* the logarithm of the ratio *)
  assert (L : floor_log2 p q = e0 + c).
  { apply floor_log2_unique; auto; unfold above.
    - pose proof (scale_cross p q (e0 + c) c ltac:(lia)) as C.
      replace (e0 + c - c) with e0 in C by lia. rewrite Hex in C.
      pose proof (scale_den_pos q e0 Hq).
      pose proof (scale_den_pos q (e0 + c) Hq).
      pose proof (scale_num_pos p (e0 + c) Hp).
      pose proof (pow_pos 2 c ltac:(lia) ltac:(lia)).
      assert (Z.pos m0 * scale_den q (e0 + c) = 2 ^ c * scale_num p (e0 + c)) by nia.
      nia.
    - pose proof (scale_cross p q (e0 + c + 1) (c + 1) ltac:(lia)) as C.
      replace (e0 + c + 1 - (c + 1)) with e0 in C by lia. rewrite Hex in C.
      pose proof (scale_den_pos q e0 Hq).
      pose proof (scale_den_pos q (e0 + c + 1) Hq).
      pose proof (scale_num_pos p (e0 + c + 1) Hp).
      pose proof (pow_pos 2 (c + 1) ltac:(lia) ltac:(lia)).
      assert (Z.pos m0 * scale_den q (e0 + c + 1)
              = 2 ^ (c + 1) * scale_num p (e0 + c + 1)) by nia.
      nia. }
  unfold round_ratio. rewrite L.
  set (e := Z.max (e0 + c - 52) (-1074)).
  assert (He : e <= e0) by lia.
  assert (N : scale_num p e = Z.pos m0 * 2 ^ (e0 - e) * scale_den q e).
  { pose proof (scale_cross p q e0 (e0 - e) ltac:(lia)) as C.
    replace (e0 - (e0 - e)) with e in C by lia. rewrite Hex in C.
    pose proof (scale_den_pos q e0 Hq). nia. }
  pose proof (scale_den_pos q e Hq) as Dp.
  cbv zeta. rewrite N, Z.div_mul, Z.mod_mul by lia.
  replace (scale_den q e <? 2 * 0) with false by (symmetry; apply Z.ltb_ge; lia).
  replace (scale_den q e =? 2 * 0) with false by (symmetry; apply Z.eqb_neq; lia).
  cbn [orb andb].
  rewrite make_exact; [f_equal; lia|auto|lia|lia].
Qed.

(** The rounding depends on the ratio only. *)
Lemma round_scale neg c p q :
  0 < c -> 0 < p -> 0 < q ->
  round_ratio neg (c * p) (c * q) = round_ratio neg p q.
Proof.
  intros Hc Hp Hq.
  assert (Sn : forall e, scale_num (c * p) e = c * scale_num p e).
  { intros e. unfold scale_num. ring. }
  assert (Sd : forall e, scale_den (c * q) e = c * scale_den q e).
  { intros e. unfold scale_den. ring. }
  assert (L : floor_log2 (c * p) (c * q) = floor_log2 p q).
  { destruct (floor_log2_spec p q Hp Hq) as [A B].
    apply floor_log2_unique; try nia; unfold above in *; rewrite Sn, Sd; nia. }
  unfold round_ratio. rewrite L. cbv zeta. rewrite Sn, Sd.
  set (e := Z.max (floor_log2 p q - 52) (-1074)).
  pose proof (scale_den_pos q e Hq) as Dp.
  rewrite Z.div_mul_cancel_l by lia.
  rewrite Z.mul_mod_distr_l by lia.
  set (d := scale_den q e) in *. set (r := scale_num p e mod d).
  replace (c * d <? 2 * (c * r)) with (d <? 2 * r).
  2:{ destruct (Z.ltb_spec d (2 * r)), (Z.ltb_spec (c * d) (2 * (c * r)));
      try reflexivity; nia. }
  replace (c * d =? 2 * (c * r)) with (d =? 2 * r).
  2:{ destruct (Z.eqb_spec d (2 * r)), (Z.eqb_spec (c * d) (2 * (c * r)));
      try reflexivity; nia. }
  reflexivity.
Qed.

(** An integer of 2^53 or more rounds to an integer of 2^53 or more, or
    to an infinity. *)
Lemma round_large neg z :
  2 ^ 53 <= z ->
  round_ratio neg z 1 = Infinity neg \/
  exists m e, round_ratio neg z 1 = Finite neg m e /\ 0 <= e
              /\ 2 ^ 53 <= Z.pos m * 2 ^ e.
Proof.
  intros Hz.
  assert (Hp : 0 < z) by lia.
  pose proof (Z.log2_spec z Hp) as [Ca Cb].
  assert (Ha : 53 <= Z.log2 z).
  { change 53 with (Z.log2 (2 ^ 53)). now apply Z.log2_le_mono. }
  set (a := Z.log2 z) in *.
  replace (Z.succ a) with (a + 1) in Cb by lia.
  assert (L : floor_log2 z 1 = a).
  { apply floor_log2_unique; try lia; unfold above, scale_num, scale_den.
    - replace (Z.max 0 (- a)) with 0 by lia. replace (Z.max 0 a) with a by lia.
      rewrite Z.pow_0_r. lia.
    - replace (Z.max 0 (- (a + 1))) with 0 by lia.
      replace (Z.max 0 (a + 1)) with (a + 1) by lia.
      rewrite Z.pow_0_r. lia. }
  unfold round_ratio. rewrite L. cbv zeta.
  replace (Z.max (a - 52) (-1074)) with (a - 52) by lia.
  unfold scale_num, scale_den.
  replace (Z.max 0 (- (a - 52))) with 0 by lia.
  replace (Z.max 0 (a - 52)) with (a - 52) by lia.
  rewrite Z.pow_0_r, Z.mul_1_r, Z.mul_1_l.
  set (e := a - 52). set (d := 2 ^ e).
  assert (Dp : 0 < d) by (apply pow_pos; lia).
  assert (Hm : 2 ^ 52 <= z / d).
  { apply Z.div_le_lower_bound; [lia|].
    unfold d, e. rewrite <- Z.pow_add_r by lia.
    replace (a - 52 + 52) with a by lia. exact Ca. }
  match goal with |- context [make neg ?X _] => set (M := X) end.
  assert (HM : 2 ^ 52 <= M).
  { unfold M. match goal with |- context [if ?b then _ else _] => destruct b end; lia. }
  destruct M as [|M'|M'] eqn:EM; try lia.
  unfold make. destruct (1024 <=? _); [now left|right].
  pose proof (strip_spec M' e) as S. destruct (strip M' e) as [m' e'].
  destruct S as (S1 & S2 & S3).
  exists m', e'. repeat split; [unfold e in *; lia|].
  replace e' with ((e' - e) + e) by lia.
  rewrite Z.pow_add_r by (unfold e in *; lia).
  rewrite Z.mul_assoc, <- S2.
  assert (2 ^ 53 = 2 ^ 52 * 2 ^ 1) by reflexivity.
  assert (2 ^ 1 <= 2 ^ e) by (apply Z.pow_le_mono_r; unfold e; lia).
  fold d. nia.
Qed.

End RoundingProofs.

(** ** Digit strings *)

Module DigitsProofs.
Import Digits.
Local Open Scope Z_scope.

Lemma length_append (a b : string) :
  String.length (a ++ b) = (String.length a + String.length b)%nat.
Proof. induction a as [|c a IH]; cbn; [reflexivity|]. now rewrite IH. Qed.

Lemma append_nil_r (a : string) : a ++ "" = a.
Proof. induction a as [|c a IH]; cbn; [reflexivity|]. now rewrite IH. Qed.

Lemma append_assoc (a b c : string) : (a ++ b) ++ c = a ++ (b ++ c).
Proof. induction a as [|x a IH]; cbn; [reflexivity|]. now rewrite IH. Qed.

Lemma forallb_append f (a b : string) :
  Str.forallb f (a ++ b) = Str.forallb f a && Str.forallb f b.
Proof.
  induction a as [|c a IH]; cbn; [reflexivity|]. now rewrite IH, andb_assoc.
Qed.

Lemma value_from_spec acc s :
  value_from acc s = acc * 10 ^ Z.of_nat (String.length s) + value s.
Proof.
  unfold value. revert acc. induction s as [|c r IH]; intros acc.
  - cbn. lia.
  - cbn [value_from String.length]. rewrite (IH (10 * acc + _)), (IH (10 * 0 + _)).
    rewrite Nat2Z.inj_succ, Z.pow_succ_r by lia. ring.
Qed.

Lemma value_append a b :
  value (a ++ b) = value a * 10 ^ Z.of_nat (String.length b) + value b.
Proof.
  unfold value at 1 2. generalize 0.
  induction a as [|c a IH]; intros acc; cbn [append value_from].
  - apply value_from_spec.
  - apply IH.
Qed.

Lemma digit_value_char d : 0 <= d <= 9 -> digit_value (digit_char d) = d.
Proof.
  intros H. unfold digit_value, digit_char.
  rewrite N_ascii_embedding by lia. lia.
Qed.

Lemma is_digit_char d : 0 <= d <= 9 -> is_digit (digit_char d) = true.
Proof.
  intros H. unfold is_digit, digit_char.
  rewrite N_ascii_embedding by lia. blia.
Qed.

Lemma value_zeros n : value (zeros n) = 0.
Proof.
  induction n as [|n IH]; [reflexivity|].
  change (zeros (S n)) with ("0" ++ zeros n). rewrite value_append, IH.
  reflexivity.
Qed.

Lemma length_zeros n : String.length (zeros n) = n.
Proof. induction n as [|n IH]; cbn; [reflexivity|]. now rewrite IH. Qed.

Lemma digits_zeros n : Str.forallb is_digit (zeros n) = true.
Proof. induction n as [|n IH]; cbn; [reflexivity|]. exact IH. Qed.

Lemma value_append_zeros a n : value (a ++ zeros n) = value a * 10 ^ Z.of_nat n.
Proof. rewrite value_append, value_zeros, length_zeros. lia. Qed.

Lemma print_from_value fuel n acc :
  0 <= n < 2 ^ Z.of_nat fuel ->
  value (print_from fuel n acc)
  = n * 10 ^ Z.of_nat (String.length acc) + value acc.
Proof.
  revert n acc. induction fuel as [|fuel IH]; intros n acc Hn.
  - assert (n = 0) by (change (2 ^ Z.of_nat 0) with 1 in Hn; lia).
    subst n. cbn [print_from]. lia.
  - cbn [print_from]. rewrite Nat2Z.inj_succ, Z.pow_succ_r in Hn by lia.
    destruct (Z.ltb_spec n 10) as [Hs|Hl].
    + unfold value at 1. cbn [value_from]. rewrite value_from_spec.
      rewrite digit_value_char by lia. f_equal. f_equal. lia.
    + rewrite IH by lia.
      cbn [String.length]. rewrite Nat2Z.inj_succ, Z.pow_succ_r by lia.
      change (String ?c acc) with (String c "" ++ acc).
      rewrite value_append. unfold value at 1. cbn [value_from].
      rewrite digit_value_char by lia.
      pose proof (Z.pow_pos_nonneg 10 (Z.of_nat (String.length acc))). nia.
Qed.

Lemma print_fuel n : 0 <= n -> n < 2 ^ Z.of_nat (S (Z.to_nat (Z.log2 n))).
Proof.
  intros Hn. rewrite Nat2Z.inj_succ, Z2Nat.id by apply Z.log2_nonneg.
  destruct (Z.eq_dec n 0) as [->|H]; [reflexivity|].
  apply Z.log2_spec. lia.
Qed.

Lemma value_print n : 0 <= n -> value (print n) = n.
Proof.
  intros Hn. unfold print. rewrite print_from_value.
  - cbn. unfold value. cbn. lia.
  - split; [exact Hn|]. now apply print_fuel.
Qed.

Lemma print_from_digits fuel n acc :
  0 <= n -> Str.forallb is_digit acc = true ->
  Str.forallb is_digit (print_from fuel n acc) = true.
Proof.
  revert n acc. induction fuel as [|fuel IH]; intros n acc Hn Hacc; [exact Hacc|].
  cbn [print_from].
  assert (D : Str.forallb is_digit (String (digit_char (n mod 10)) acc) = true).
  { cbn. rewrite is_digit_char by lia. exact Hacc. }
  destruct (n <? 10); [exact D|]. apply IH; [lia|exact D].
Qed.

Lemma print_digits n : 0 <= n -> Str.forallb is_digit (print n) = true.
Proof. intros H. now apply print_from_digits. Qed.

Lemma print_from_length fuel n acc d :
  0 <= n < 10 ^ d -> 1 <= d ->
  Z.of_nat (String.length (print_from fuel n acc))
  <= Z.of_nat (String.length acc) + d.
Proof.
  revert n acc d. induction fuel as [|fuel IH]; intros n acc d Hn Hd.
  - cbn. lia.
  - cbn [print_from]. destruct (Z.ltb_spec n 10) as [Hs|Hl].
    + cbn [String.length]. lia.
    + assert (2 <= d).
      { destruct (Z.eq_dec d 1) as [->|]; [cbn in Hn; lia|lia]. }
      specialize (IH (n / 10) (String (digit_char (n mod 10)) acc) (d - 1)).
      cbn [String.length] in IH.
      assert (10 ^ d = 10 * 10 ^ (d - 1)).
      { rewrite <- Z.pow_succ_r by lia. f_equal. lia. }
      lia.
Qed.

Lemma print_length n d :
  0 <= n < 10 ^ d -> 1 <= d -> Z.of_nat (String.length (print n)) <= d.
Proof. intros. unfold print. now apply (print_from_length _ n "" d). Qed.

Lemma print_from_nonempty fuel n acc :
  print_from (S fuel) n acc <> "".
Proof.
  revert n acc. induction fuel as [|fuel IH]; intros n acc.
  - cbn [print_from]. destruct (n <? 10); discriminate.
  - change (print_from (S (S fuel)) n acc)
      with (let acc' := String (digit_char (n mod 10)) acc in
            if n <? 10 then acc' else print_from (S fuel) (n / 10) acc').
    cbv zeta. destruct (n <? 10); [discriminate|apply IH].
Qed.

Lemma print_nonempty n : print n <> "".
Proof. apply print_from_nonempty. Qed.

Lemma span_append ds rest :
  Str.forallb is_digit ds = true -> stops rest = true ->
  span (ds ++ rest) = (ds, rest).
Proof.
  intros Hd Hr. induction ds as [|c ds IH]; cbn [append].
  - destruct rest as [|c r]; [reflexivity|]. cbn in *.
    apply negb_true_iff in Hr. now rewrite Hr.
  - cbn in Hd. apply andb_true_iff in Hd as [Hc Hd].
    cbn [span]. rewrite Hc, IH by exact Hd. reflexivity.
Qed.

Lemma span_digits ds :
  Str.forallb is_digit ds = true -> span ds = (ds, "").
Proof.
  intros H. rewrite <- (append_nil_r ds) at 1. now apply span_append.
Qed.

Lemma span_spec s :
  let (ds, rest) := span s in
  s = ds ++ rest /\ Str.forallb is_digit ds = true /\ stops rest = true.
Proof.
  induction s as [|c r IH]; cbn [span].
  - repeat split.
  - destruct (is_digit c) eqn:Hc.
    + destruct (span r) as [ds rest]. destruct IH as (-> & H1 & H2).
      cbn. rewrite Hc. repeat split; assumption.
    + cbn. rewrite Hc. repeat split.
Qed.

Lemma strip_zeros_spec s :
  s = strip_zeros s
      ++ zeros (String.length s - String.length (strip_zeros s)) /\
  (String.length (strip_zeros s) <= String.length s)%nat.
Proof.
  induction s as [|c r [IH1 IH2]]; cbn [strip_zeros]; [split; reflexivity|].
  destruct (Ascii.eqb_spec c "0") as [->|Hc]; cbn [andb].
  - destruct (String.eqb_spec (strip_zeros r) "") as [E|E].
    + rewrite E in *. cbn [String.length append] in *.
      rewrite Nat.sub_0_r in *. cbn [zeros]. split; [now rewrite <- IH1|lia].
    + cbn [String.length append]. split; [|lia].
      f_equal. exact IH1.
  - cbn [String.length append]. split; [|lia]. f_equal. exact IH1.
Qed.

Lemma strip_zeros_digits s :
  Str.forallb is_digit s = true -> Str.forallb is_digit (strip_zeros s) = true.
Proof.
  intros H. destruct (strip_zeros_spec s) as [E _]. rewrite E in H.
  rewrite forallb_append in H. now apply andb_true_iff in H as [H _].
Qed.

Lemma take_drop n s : take n s ++ drop n s = s.
Proof.
  revert s. induction n as [|n IH]; intros [|c r]; cbn; try reflexivity.
  now rewrite IH.
Qed.

Lemma length_take n s :
  (n <= String.length s)%nat -> String.length (take n s) = n.
Proof.
  revert s. induction n as [|n IH]; intros [|c r]; cbn; intros H;
    try reflexivity; try lia.
  rewrite IH; lia.
Qed.

Lemma take_drop_digits n s :
  Str.forallb is_digit s = true ->
  Str.forallb is_digit (take n s) = true /\
  Str.forallb is_digit (drop n s) = true.
Proof.
  intros H. rewrite <- (take_drop n s), forallb_append in H.
  now apply andb_true_iff in H.
Qed.

End DigitsProofs.

(** ** Numbers and their decimal texts *)

Module NumberProofs.
Import JS RoundingProofs DigitsProofs.
Local Open Scope Z_scope.

Lemma eqb_eq x y : eqb x y = true -> x = y.
Proof.
  destruct x as [|a|a|a m e], y as [|b|b|b m' e']; cbn; try discriminate;
    try reflexivity.
  - intros H. apply Bool.eqb_prop in H. now subst.
  - intros H. apply Bool.eqb_prop in H. now subst.
  - intros H. apply andb_true_iff in H as [H H3].
    apply andb_true_iff in H as [H1 H2].
    apply Bool.eqb_prop in H1. apply Pos.eqb_eq in H2. apply Z.eqb_eq in H3.
    now subst.
Qed.

Lemma make_signed neg m e : make neg m e = signed neg (make false m e).
Proof.
  unfold make. destruct m as [|M|M]; try reflexivity.
  destruct (1024 <=? _); [reflexivity|]. now destruct (strip M e).
Qed.

Lemma of_decimal_signed neg s p :
  of_decimal neg s p = signed neg (of_decimal false s p).
Proof.
  unfold of_decimal. destruct (s <=? 0); [reflexivity|].
  unfold round_ratio. destruct (0 <=? p); apply make_signed.
Qed.

Lemma make_not_nan neg m e : make neg m e <> NaN.
Proof.
  unfold make. destruct m; try discriminate.
  destruct (1024 <=? _); [discriminate|]. now destruct (strip _ _).
Qed.

Lemma of_decimal_not_nan neg s p : of_decimal neg s p <> NaN.
Proof.
  unfold of_decimal, round_ratio.
  destruct (s <=? 0); [discriminate|]. destruct (0 <=? p); apply make_not_nan.
Qed.

Lemma of_Z_not_nan z : of_Z z <> NaN.
Proof.
  unfold of_Z, round_ratio. destruct (z =? 0); [discriminate|].
  apply make_not_nan.
Qed.

(** Trailing zeros of the digits move into the exponent. *)
Lemma of_decimal_shift neg s z p :
  0 < s -> 0 <= z ->
  of_decimal neg (s * 10 ^ z) p = of_decimal neg s (p + z).
Proof.
  intros Hs Hz. unfold of_decimal.
  pose proof (pow_pos 10 z ltac:(lia) Hz) as Pz.
  destruct (Z.leb_spec (s * 10 ^ z) 0); [nia|].
  destruct (Z.leb_spec s 0); [lia|].
  destruct (Z.leb_spec 0 p) as [Hp|Hp].
  - destruct (Z.leb_spec 0 (p + z)); [|lia].
    f_equal. rewrite (Z.add_comm p z), Z.pow_add_r by lia. ring.
  - destruct (Z.leb_spec 0 (p + z)) as [Hq|Hq].
    + assert (P1 : 0 < 10 ^ (- p)) by (apply pow_pos; lia).
      assert (P2 : 0 < s * 10 ^ (p + z)).
      { pose proof (pow_pos 10 (p + z) ltac:(lia) Hq). nia. }
      rewrite <- (round_scale neg (10 ^ (- p)) (s * 10 ^ (p + z)) 1 P1 P2 ltac:(lia)).
      f_equal; [|ring].
      replace z with (- p + (p + z)) at 1 by lia.
      rewrite Z.pow_add_r by lia. ring.
    + assert (P2 : 0 < 10 ^ (- (p + z))) by (apply pow_pos; lia).
      rewrite <- (round_scale neg (10 ^ z) s (10 ^ (- (p + z))) Pz Hs P2).
      f_equal; [ring|].
      rewrite <- Z.pow_add_r by lia. f_equal. lia.
Qed.

(** The exact decimal expansion of a binary64 value reads back as it. *)
Lemma exact_decimal_sound neg m e :
  is_double (Finite neg m e) = true ->
  0 < fst (exact_decimal m e) /\
  of_decimal neg (fst (exact_decimal m e)) (snd (exact_decimal m e))
  = Finite neg m e.
Proof.
  intros Hd. unfold exact_decimal.
  destruct (Z.leb_spec 0 e) as [He|He]; cbn [fst snd].
  - pose proof (pow_pos 2 e ltac:(lia) He). split; [nia|].
    unfold of_decimal. destruct (Z.leb_spec (Z.pos m * 2 ^ e) 0); [nia|].
    cbn [Z.leb]. rewrite Z.pow_0_r, Z.mul_1_r.
    apply round_exact; [nia|lia|exact Hd|].
    unfold scale_num, scale_den.
    replace (Z.max 0 (- e)) with 0 by lia. replace (Z.max 0 e) with e by lia.
    rewrite !Z.pow_0_r. ring.
  - pose proof (pow_pos 5 (- e) ltac:(lia) ltac:(lia)). split; [nia|].
    unfold of_decimal. destruct (Z.leb_spec (Z.pos m * 5 ^ (- e)) 0); [nia|].
    destruct (Z.leb_spec 0 e); [lia|].
    apply round_exact; [nia|apply pow_pos; lia|exact Hd|].
    unfold scale_num, scale_den.
    replace (Z.max 0 (- e)) with (- e) by lia. replace (Z.max 0 e) with 0 by lia.
    rewrite Z.pow_0_r. change 10 with (2 * 5). rewrite Z.pow_mul_l. ring.
Qed.

Lemma candidate_sound m e s p j c :
  0 <= s ->
  candidate (Finite false m e) s p j = Some c ->
  0 < fst c /\ of_decimal false (fst c) (snd c) = Finite false m e.
Proof.
  intros Hs. unfold candidate.
  set (t := 10 ^ Z.of_nat j). set (lo := s / t).
  assert (Ht : 0 < t) by (apply pow_pos; lia).
  assert (Hlo : 0 <= lo) by (apply Z.div_pos; lia).
  assert (Pos : forall a q, of_decimal false a q = Finite false m e -> 0 < a).
  { intros a q. unfold of_decimal. destruct (Z.leb_spec a 0); [discriminate|lia]. }
  destruct (eqb (of_decimal false lo _) _) eqn:Elo;
    destruct (eqb (of_decimal false (lo + 1) _) _) eqn:Ehi; cbn [andb];
    try apply eqb_eq in Elo; try apply eqb_eq in Ehi;
    repeat match goal with
    | |- context [if ?b then _ else _] => destruct b
    end;
    intros E; inversion E; subst c; cbn [fst snd]; eauto.
Qed.

Lemma shortest_from_sound m e s p j :
  0 < s -> of_decimal false s p = Finite false m e ->
  0 < fst (shortest_from (Finite false m e) s p j) /\
  of_decimal false (fst (shortest_from (Finite false m e) s p j))
                   (snd (shortest_from (Finite false m e) s p j))
  = Finite false m e.
Proof.
  intros Hs Hx. induction j as [|j IH]; cbn [shortest_from].
  - now split.
  - destruct (candidate _ s p (S j)) as [c|] eqn:E; [|exact IH].
    apply (candidate_sound m e s p (S j) c); [lia|exact E].
Qed.

(** The digits [String] chooses for a binary64 value read back as it. *)
Lemma shortest_sound neg m e :
  is_double (Finite neg m e) = true ->
  0 < fst (shortest m e) /\
  of_decimal neg (fst (shortest m e)) (snd (shortest m e)) = Finite neg m e.
Proof.
  intros Hd. unfold shortest.
  destruct (exact_decimal_sound false m e Hd) as [H1 H2].
  destruct (exact_decimal m e) as [s p]. cbn [fst snd] in *.
  destruct (shortest_from_sound m e s p (String.length (Digits.print s) - 1) H1 H2)
    as [H3 H4].
  split; [exact H3|]. rewrite of_decimal_signed, H4. reflexivity.
Qed.

End NumberProofs.

(** ** Scanning the texts [String] writes *)

Module ScanProofs.
Import JS RoundingProofs DigitsProofs NumberProofs.
Local Open Scope Z_scope.

Lemma digit_cases c :
  Digits.is_digit c = true ->
  In c ["0"; "1"; "2"; "3"; "4"; "5"; "6"; "7"; "8"; "9"]%char.
Proof.
  destruct c as [[] [] [] [] [] [] [] []]; intros H;
    try discriminate H; cbn; tauto.
Qed.

Ltac by_digit c H :=
  apply digit_cases in H; cbn [In] in H;
  repeat (destruct H as [H|H]; [subst c; try reflexivity|]); try destruct H.

Lemma scan_sign_digit c r :
  Digits.is_digit c = true -> scan_sign (String c r) = (false, String c r).
Proof. intros H. by_digit c H. Qed.

Lemma prefix_Infinity_digit c r :
  Digits.is_digit c = true -> String.prefix "Infinity" (String c r) = false.
Proof. intros H. by_digit c H. Qed.

Lemma eqb_nonempty s : s <> "" -> String.eqb s "" = false.
Proof. intros H. now apply String.eqb_neq. Qed.

(** Digits, then what follows them, which is no fraction. *)
Lemma scan_unsigned_integer neg ip t :
  ip <> "" -> Str.forallb Digits.is_digit ip = true ->
  Digits.stops t = true -> no_point t = true ->
  scan_unsigned neg (ip ++ t) =
  Some (LDecimal neg (Digits.value ip) (fst (scan_exponent t)),
        snd (scan_exponent t)).
Proof.
  intros Hne Hip Ht Hp. unfold scan_unsigned.
  destruct ip as [|c ip']; [contradiction|].
  assert (Hc : Digits.is_digit c = true).
  { cbn in Hip. now apply andb_true_iff in Hip as [Hc _]. }
  change (String c ip' ++ t) with (String c (ip' ++ t)) at 1.
  rewrite prefix_Infinity_digit by exact Hc.
  change (String c (ip' ++ t)) with (String c ip' ++ t).
  rewrite span_append by assumption.
  assert (E : match t with
              | String "."%char r =>
                  let (fp, r') := Digits.span r in
                  if (String.eqb (String c ip') "" && String.eqb fp "")%bool
                  then (EmptyString, t) else (fp, r')
              | _ => (EmptyString, t)
              end = (EmptyString, t)).
  { destruct t as [|d r]; [reflexivity|]. cbn in Hp.
    destruct d as [[] [] [] [] [] [] [] []]; try reflexivity; discriminate Hp. }
  rewrite E. cbn [String.eqb andb].
  rewrite append_nil_r. destruct (scan_exponent t) as [ex rest]. cbn [fst snd].
  cbn [String.length Z.of_nat]. now rewrite Z.sub_0_r.
Qed.

(** Digits, a decimal point, digits, then what follows them. *)
Lemma scan_unsigned_fraction neg ip fp t :
  ip <> "" -> Str.forallb Digits.is_digit ip = true ->
  Str.forallb Digits.is_digit fp = true -> Digits.stops t = true ->
  scan_unsigned neg (ip ++ "." ++ fp ++ t) =
  Some (LDecimal neg (Digits.value (ip ++ fp))
                 (fst (scan_exponent t) - Z.of_nat (String.length fp)),
        snd (scan_exponent t)).
Proof.
  intros Hne Hip Hfp Ht. unfold scan_unsigned.
  destruct ip as [|c ip']; [contradiction|].
  assert (Hc : Digits.is_digit c = true).
  { cbn in Hip. now apply andb_true_iff in Hip as [Hc _]. }
  change (String c ip' ++ ?x) with (String c (ip' ++ x)) at 1.
  rewrite prefix_Infinity_digit by exact Hc.
  change (String c (ip' ++ ?x)) with (String c ip' ++ x).
  rewrite span_append; [|assumption|reflexivity].
  change ("." ++ fp ++ t) with (String "." (fp ++ t)). cbv iota beta.
  rewrite span_append by assumption.
  cbn [String.eqb andb]. destruct (scan_exponent t) as [ex rest].
  reflexivity.
Qed.

Lemma scan_exponent_text e : scan_exponent (exponent_text e) = (e, "").
Proof.
  unfold exponent_text.
  pose proof (print_digits (Z.abs e) ltac:(lia)) as Hd.
  pose proof (print_nonempty (Z.abs e)) as Hn.
  pose proof (value_print (Z.abs e) ltac:(lia)) as Hv.
  destruct (Z.leb_spec 0 e); cbn [append scan_exponent Ascii.eqb Bool.eqb orb
                                     scan_sign];
    rewrite span_digits by exact Hd; rewrite eqb_nonempty by exact Hn;
    rewrite Hv; f_equal; lia.
Qed.

End ScanProofs.

(** ** The text of a Number *)

Module FormatProofs.
Import JS RoundingProofs DigitsProofs NumberProofs ScanProofs.
Local Open Scope Z_scope.

Lemma digits_numeric s :
  Str.forallb Digits.is_digit s = true -> Str.forallb numeric_char s = true.
Proof.
  apply Base64Proofs.forallb_impl. intros c H. unfold numeric_char. now rewrite H.
Qed.

Lemma exponent_text_numeric e : Str.forallb numeric_char (exponent_text e) = true.
Proof.
  unfold exponent_text. rewrite forallb_append.
  rewrite (digits_numeric _ (print_digits (Z.abs e) ltac:(lia))).
  now destruct (0 <=? e).
Qed.

Lemma exponent_text_stops e :
  Digits.stops (exponent_text e) = true /\ no_point (exponent_text e) = true.
Proof. unfold exponent_text. now destruct (0 <=? e). Qed.

Lemma head_digit ip :
  ip <> "" -> Str.forallb Digits.is_digit ip = true ->
  exists c r, ip = String c r /\ Digits.is_digit c = true.
Proof.
  destruct ip as [|c r]; [contradiction|]. intros _ H. cbn in H.
  apply andb_true_iff in H as [H _]. eauto.
Qed.

(** A decimal text scans as its mantissa and exponent, whole. *)
Lemma decimal_text_scan neg t m e :
  decimal_text t m e ->
  scan_unsigned neg t = Some (LDecimal neg m e, "").
Proof.
  intros [ip Hn Hd|ip fp Hn Hd Hf|ip x Hn Hd|ip fp x Hn Hd Hf].
  - rewrite <- (append_nil_r ip) at 1.
    now rewrite scan_unsigned_integer.
  - rewrite <- (append_nil_r fp) at 1.
    now rewrite scan_unsigned_fraction.
  - destruct (exponent_text_stops x).
    rewrite scan_unsigned_integer by assumption.
    now rewrite scan_exponent_text.
  - destruct (exponent_text_stops x).
    rewrite scan_unsigned_fraction by assumption.
    now rewrite scan_exponent_text.
Qed.

Lemma decimal_text_head t m e :
  decimal_text t m e -> exists c r, t = String c r /\ Digits.is_digit c = true.
Proof.
  intros [ip Hn Hd|ip fp Hn Hd Hf|ip x Hn Hd|ip fp x Hn Hd Hf];
    destruct (head_digit ip Hn Hd) as (c & r & -> & Hc);
    cbn [append]; eauto.
Qed.

Lemma decimal_text_numeric t m e :
  decimal_text t m e -> Str.forallb numeric_char t = true.
Proof.
  intros [ip Hn Hd|ip fp Hn Hd Hf|ip x Hn Hd|ip fp x Hn Hd Hf];
    rewrite ?forallb_append, ?exponent_text_numeric, ?(digits_numeric ip Hd);
    try rewrite (digits_numeric fp Hf); reflexivity.
Qed.

(** The text [format] writes for [s * 10^p] is a decimal text of the same
    value. *)
Lemma format_text neg s p :
  0 < s ->
  exists m e,
    decimal_text (format s p) m e /\
    of_decimal neg m e = of_decimal neg s p.
Proof.
  intros Hs. unfold format.
  pose proof (print_digits s ltac:(lia)) as Dall.
  pose proof (value_print s ltac:(lia)) as Vall.
  set (all := Digits.print s) in *.
  destruct (strip_zeros_spec all) as [Eall Lds].
  pose proof (strip_zeros_digits all Dall) as Dds.
  set (ds := Digits.strip_zeros all) in *.
  set (z := (String.length all - String.length ds)%nat) in *.
  assert (Vds : s = Digits.value ds * 10 ^ Z.of_nat z).
  { rewrite <- Vall, Eall. apply value_append_zeros. }
  assert (Hv : 0 < Digits.value ds).
  { pose proof (pow_pos 10 (Z.of_nat z) ltac:(lia) ltac:(lia)). nia. }
  assert (Hne : ds <> "").
  { intros E. rewrite E in Hv. cbn in Hv. lia. }
  assert (Target : of_decimal neg s p
                   = of_decimal neg (Digits.value ds) (p + Z.of_nat z)).
  { rewrite Vds at 1. apply of_decimal_shift; lia. }
  cbv zeta.
  set (n := Z.of_nat (String.length all) + p).
  set (k := Z.of_nat (String.length ds)).
  assert (Hnk : n - k = p + Z.of_nat z) by (unfold n, k, z; lia).
  rewrite Target, <- Hnk.
  destruct ((k <=? n) && (n <=? 21)) eqn:C1.
  { (* digits and zeros *)
    apply andb_true_iff in C1 as [C1 _]. apply Z.leb_le in C1.
    eexists _, _. split.
    - apply decimal_integer.
      + destruct ds; [contradiction|discriminate].
      + now rewrite forallb_append, Dds, digits_zeros.
    - rewrite value_append_zeros, Z2Nat.id by lia.
      rewrite of_decimal_shift by lia. reflexivity. }
  destruct ((0 <? n) && (n <=? 21)) eqn:C2.
  { (* a decimal point inside the digits *)
    apply andb_true_iff in C2 as [C2 C2']. apply Z.ltb_lt in C2.
    apply Z.leb_le in C2'.
    assert (Hlt : n < k).
    { apply andb_false_iff in C1 as [C1|C1]; apply Z.leb_gt in C1; lia. }
    destruct (take_drop_digits (Z.to_nat n) ds Dds) as [Dt Dd].
    assert (Lt : String.length (Digits.take (Z.to_nat n) ds) = Z.to_nat n).
    { apply length_take. unfold k in Hlt. lia. }
    assert (Ld : Z.of_nat (String.length (Digits.drop (Z.to_nat n) ds)) = k - n).
    { pose proof (f_equal String.length (take_drop (Z.to_nat n) ds)) as E.
      rewrite length_append, Lt in E. unfold k. lia. }
    eexists _, _. split.
    - apply decimal_fraction; [|exact Dt|exact Dd].
      intros E. rewrite E in Lt. cbn in Lt. lia.
    - rewrite take_drop, Ld. f_equal. lia. }
  destruct ((-6 <? n) && (n <=? 0)) eqn:C3.
  { (* zeros after the decimal point *)
    apply andb_true_iff in C3 as [_ C3]. apply Z.leb_le in C3.
    change ("0." ++ ?x) with ("0" ++ "." ++ x).
    eexists _, _. split.
    - apply decimal_fraction; [discriminate|reflexivity|].
      now rewrite forallb_append, digits_zeros, Dds.
    - rewrite length_append, length_zeros.
      rewrite (value_append "0"), (value_append (Digits.zeros _)), value_zeros.
      fold k. change (Digits.value "0") with 0.
      f_equal; lia. }
  (* exponent notation *)
  destruct ds as [|c r] eqn:Eds; [contradiction|].
  cbn in Dds. apply andb_true_iff in Dds as [Dc Dr].
  destruct r as [|c' r'].
  - change (String c (exponent_text (n - 1)))
      with (String c "" ++ exponent_text (n - 1)).
    eexists _, _. split.
    + apply decimal_integer_exponent; [discriminate|]. cbn. now rewrite Dc.
    + f_equal; unfold k; cbn; lia.
  - change (String c ("." ++ ?r ++ ?x)) with (String c "" ++ "." ++ r ++ x).
    eexists _, _. split.
    + apply decimal_fraction_exponent; [discriminate| |exact Dr].
      cbn. now rewrite Dc.
    + f_equal; unfold k; cbn [String.length]; lia.
Qed.

End FormatProofs.

(** ** Reading the texts of numbers back *)

Module TextProofs.
Import JS RoundingProofs DigitsProofs NumberProofs ScanProofs FormatProofs.
Local Open Scope Z_scope.

Lemma numeric_not_space c : numeric_char c = true -> Str.is_space c = false.
Proof.
  destruct c as [[] [] [] [] [] [] [] []]; intros H;
    try discriminate H; reflexivity.
Qed.

Lemma numeric_not_radix c : numeric_char c = true -> radix_letter c = false.
Proof.
  destruct c as [[] [] [] [] [] [] [] []]; intros H;
    try discriminate H; reflexivity.
Qed.

Lemma non_decimal_second a x r :
  radix_letter x = false -> non_decimal (String a (String x r)) = None.
Proof.
  unfold radix_letter. intros H.
  repeat (apply orb_false_iff in H as [H ?]).
  unfold non_decimal.
  destruct a as [[] [] [] [] [] [] [] []]; try reflexivity.
  destruct r as [|c r]; [reflexivity|].
  now rewrite H, H0, H1, H2, H3, H4.
Qed.

Lemma non_decimal_numeric t :
  Str.forallb numeric_char t = true -> non_decimal t = None.
Proof.
  destruct t as [|a [|x r]]; [reflexivity| |].
  { intros _. destruct a as [[] [] [] [] [] [] [] []]; reflexivity. }
  cbn [Str.forallb]. intros H.
  apply andb_true_iff in H as [_ H]. apply andb_true_iff in H as [H _].
  apply non_decimal_second. now apply numeric_not_radix.
Qed.

Lemma trim_end_numeric t :
  Str.forallb numeric_char t = true -> trim_end t = t.
Proof.
  induction t as [|c r IH]; [reflexivity|]. cbn [Str.forallb trim_end].
  intros H. apply andb_true_iff in H as [Hc Hr].
  rewrite IH by exact Hr. now rewrite (numeric_not_space c Hc).
Qed.

Lemma trim_start_numeric t :
  Str.forallb numeric_char t = true -> trim_start t = t.
Proof.
  destruct t as [|c r]; [reflexivity|]. cbn [Str.forallb trim_start].
  intros H. apply andb_true_iff in H as [Hc _].
  now rewrite (numeric_not_space c Hc).
Qed.

Lemma trim_numeric t : Str.forallb numeric_char t = true -> trim t = t.
Proof.
  intros H. unfold trim. rewrite trim_start_numeric by exact H.
  now apply trim_end_numeric.
Qed.

Section SignedText.

Variables (neg : bool) (t : string) (m e : Z).
Hypothesis Ht : decimal_text t m e.

Lemma signed_text_numeric : Str.forallb numeric_char (signed_text neg t) = true.
Proof.
  unfold signed_text. rewrite forallb_append.
  rewrite (decimal_text_numeric t m e Ht). now destruct neg.
Qed.

Lemma signed_text_nonempty : String.eqb (signed_text neg t) "" = false.
Proof.
  destruct (decimal_text_head t m e Ht) as (c & r & -> & _).
  now destruct neg.
Qed.

Lemma scan_signed_text :
  scan_decimal (signed_text neg t) = Some (LDecimal neg m e, "").
Proof.
  unfold scan_decimal, signed_text.
  destruct (decimal_text_head t m e Ht) as (c & r & E & Hc).
  destruct neg; cbn [append scan_sign].
  - now apply decimal_text_scan.
  - rewrite E, scan_sign_digit by exact Hc. rewrite <- E.
    now apply decimal_text_scan.
Qed.

Lemma Number_signed_text : Number (signed_text neg t) = of_decimal neg m e.
Proof.
  unfold Number. rewrite (trim_numeric _ signed_text_numeric).
  rewrite signed_text_nonempty, (non_decimal_numeric _ signed_text_numeric).
  now rewrite scan_signed_text.
Qed.

Lemma parseFloat_signed_text :
  parseFloat (signed_text neg t) = of_decimal neg m e.
Proof.
  unfold parseFloat. rewrite (trim_start_numeric _ signed_text_numeric).
  now rewrite scan_signed_text.
Qed.

End SignedText.

(** The text of a finite Number other than zero. *)
Lemma String_of_finite neg m e :
  is_double (Finite neg m e) = true ->
  exists t m' e',
    String_of_number (Finite neg m e) = signed_text neg t /\
    decimal_text t m' e' /\ of_decimal neg m' e' = Finite neg m e.
Proof.
  intros Hd. cbn [String_of_number].
  destruct (shortest_sound neg m e Hd) as [Hs Hx].
  destruct (shortest m e) as [s p]. cbn [fst snd] in *.
  destruct (format_text neg s p Hs) as (m' & e' & Ht & Hv).
  exists (format s p), m', e'. repeat split; [exact Ht|congruence].
Qed.

(** [Number(String(x))] is [x], the negative zero apart. *)
Lemma Number_String x :
  is_double x = true -> x <> Zero true ->
  Number (String_of_number x) = x.
Proof.
  intros Hd Hz. destruct x as [|[]|[]|neg m e]; try reflexivity.
  - contradiction.
  - destruct (String_of_finite neg m e Hd) as (t & m' & e' & -> & Ht & Hv).
    now rewrite (Number_signed_text neg t m' e' Ht).
Qed.

(** [parseFloat(String(x))] is [x], the negative zero apart. *)
Lemma parseFloat_String x :
  is_double x = true -> x <> Zero true ->
  parseFloat (String_of_number x) = x.
Proof.
  intros Hd Hz. destruct x as [|[]|[]|neg m e]; try reflexivity.
  - contradiction.
  - destruct (String_of_finite neg m e Hd) as (t & m' & e' & -> & Ht & Hv).
    now rewrite (parseFloat_signed_text neg t m' e' Ht).
Qed.

(** The text of a BigInt. *)
Lemma String_of_bigint_text z :
  String_of_bigint z = signed_text (z <? 0) (Digits.print (Z.abs z)) /\
  decimal_text (Digits.print (Z.abs z)) (Z.abs z) 0.
Proof.
  split; [reflexivity|].
  rewrite <- (value_print (Z.abs z)) at 2 by lia.
  apply decimal_integer; [apply print_nonempty|apply print_digits; lia].
Qed.

Lemma BigInt_signed_digits neg ds :
  ds <> "" -> Str.forallb Digits.is_digit ds = true ->
  BigInt (signed_text neg ds)
  = Ok (if neg then - Digits.value ds else Digits.value ds).
Proof.
  intros Hn Hd.
  pose proof (decimal_integer ds Hn Hd) as Ht.
  unfold BigInt. rewrite (trim_numeric _ (signed_text_numeric neg ds _ _ Ht)).
  rewrite (signed_text_nonempty neg ds _ _ Ht).
  rewrite (non_decimal_numeric _ (signed_text_numeric neg ds _ _ Ht)).
  destruct (head_digit ds Hn Hd) as (c & r & E & Hc).
  assert (S : scan_sign (signed_text neg ds) = (neg, ds)).
  { unfold signed_text. destruct neg; [reflexivity|].
    cbn [append]. rewrite E. now apply scan_sign_digit. }
  rewrite S, span_digits by exact Hd.
  now rewrite eqb_nonempty.
Qed.

Lemma BigInt_String z : BigInt (String_of_bigint z) = Ok z.
Proof.
  destruct (String_of_bigint_text z) as [-> _].
  rewrite BigInt_signed_digits;
    [|apply print_nonempty|apply print_digits; lia].
  rewrite value_print by lia. f_equal.
  destruct (Z.ltb_spec z 0); lia.
Qed.

Lemma Number_String_of_bigint z :
  Number (String_of_bigint z) = of_decimal (z <? 0) (Z.abs z) 0.
Proof.
  destruct (String_of_bigint_text z) as [-> Ht].
  now apply Number_signed_text.
Qed.

(** An integer beyond the safe range is no safe integer as a Number. *)
Lemma large_not_safe z :
  MAX_SAFE_INTEGER < Z.abs z ->
  isSafeInteger (of_decimal (z <? 0) (Z.abs z) 0) = false.
Proof.
  unfold MAX_SAFE_INTEGER. intros Hz.
  unfold of_decimal. destruct (Z.leb_spec (Z.abs z) 0); [lia|].
  change (0 <=? 0) with true. cbv iota. rewrite Z.pow_0_r, Z.mul_1_r.
  destruct (round_large (z <? 0) (Z.abs z) ltac:(lia))
    as [->|(m & e & -> & He & Hv)]; [reflexivity|].
  unfold isSafeInteger, isInteger, integer_value, MAX_SAFE_INTEGER.
  apply andb_false_iff. right. apply Z.leb_gt.
  change (2 ^ 53) with 9007199254740992 in *.
  pose proof (pow_pos 2 e ltac:(lia) He).
  destruct (z <? 0); nia.
Qed.

(** A text that [Number] does not take for a number, [BigInt] rejects. *)
Lemma BigInt_of_NaN text : Number text = NaN -> BigInt text = Throw SyntaxError.
Proof.
  unfold Number, BigInt. set (s := trim text).
  destruct (String.eqb s ""); [discriminate|].
  destruct (non_decimal s) as [z|].
  { intros H. now apply of_Z_not_nan in H. }
  unfold scan_decimal. destruct (scan_sign s) as [neg r].
  pose proof (span_spec r) as Sp. destruct (Digits.span r) as [ds rest].
  destruct Sp as (-> & Hd & _).
  destruct (String.eqb_spec ds "") as [E|E]; [reflexivity|].
  destruct (String.eqb_spec rest "") as [->|R]; [|reflexivity].
  rewrite append_nil_r.
  rewrite (decimal_text_scan neg ds _ _ (decimal_integer ds E Hd)).
  intros H. now apply of_decimal_not_nan in H.
Qed.

End TextProofs.

(** ** Documents *)

Module DocumentProofs.
Import Dom Eff.

Lemma textContent_el tag text :
  textContent (Serializer.el tag text) = text.
Proof.
  unfold Serializer.el. destruct (String.eqb_spec text "") as [->|_];
    [reflexivity|]. cbn. apply DigitsProofs.append_nil_r.
Qed.

(** What [parse] does once the XML parser has answered. *)
Lemma parse_answer (r : Host) xml :
  Parser.parse r xml =
  match querySelector "parsererror" (parseFromString r xml) with
  | Some err => throw (Error ("Error parsing XML: " ++ textContent err))
  | None =>
      match querySelector "plist" (parseFromString r xml) with
      | None => throw (Error "Invalid plist: Missing <plist> root element.")
      | Some plist =>
          match children plist with
          | [] => ret VNull
          | root :: _ => Parser.val r root
          end
      end
  end.
Proof. reflexivity. Qed.

(** Reading the document the writer builds around an element. *)
Lemma parse_written (r : Host) xml node :
  parseFromString r xml = Serializer.document node ->
  match node with
  | Some n => is_element n = true /\ find "parsererror" n = None
  | None => True
  end ->
  Parser.parse r xml =
  match node with
  | Some n => Parser.val r n
  | None => ret VNull
  end.
Proof.
  intros E H. rewrite parse_answer, E.
  destruct node as [n|]; cbn.
  - destruct H as [He Hn]. rewrite Hn. cbn. now rewrite He.
  - reflexivity.
Qed.

End DocumentProofs.

Module ParseProofs.
Import Dom.

Lemma children_first a before root rest :
  Forall (fun n => is_element n = false) before ->
  is_element root = true ->
  children (Element "plist" a (before ++ root :: rest))
  = root :: List.filter is_element rest.
Proof.
  intros F Hr. cbn [children]. induction F as [|n before Hn _ IH]; cbn [app List.filter].
  - now rewrite Hr.
  - now rewrite Hn.
Qed.

End ParseProofs.

Local Open Scope Z_scope.

(** C2.  An integer [n] beyond the safe range, [|n| > 2^53 - 1], written
    as a BigInt and read back comes out as the BigInt [n] itself: the
    writer [w] makes the [integer] element whose text is the sign and the
    decimal digits of [n], and [serialize] the text of the document
    around that element; the reader [r] turns the element into the BigInt
    [n] without a warning, and so does [parse] from the text [serialize]
    wrote, when the XML parser of the reader answers for that text the
    document that was serialized. *)
Theorem bigint_round_trip (w r : Host) (n : Z) :
  JS.MAX_SAFE_INTEGER < Z.abs n ->
  let node := Dom.Element "integer" [] [Dom.Text (JS.String_of_bigint n)] in
  let xml := (Serializer.xml_declaration
              ++ serializeToString w (Serializer.document (Some node)))%string in
  JS.String_of_bigint n
  = ((if (n <? 0)%Z then "-" else "") ++ Digits.print (Z.abs n))%string /\
  Digits.value (Digits.print (Z.abs n)) = Z.abs n /\
  Serializer.val w (VBigInt n) = Ok (Some node) /\
  Parser.val r node = ([], Ok (VBigInt n)) /\
  Serializer.serialize w (VBigInt n) = Ok xml /\
  (parseFromString r xml = Serializer.document (Some node) ->
   Parser.parse r xml = ([], Ok (VBigInt n))).
Proof.
  intros Hn node xml.
  assert (Hne : String.eqb (JS.String_of_bigint n) "" = false).
  { destruct (TextProofs.String_of_bigint_text n) as [E Ht].
    rewrite E. exact (TextProofs.signed_text_nonempty _ _ _ _ Ht). }
  assert (Hw : Serializer.val w (VBigInt n) = Ok (Some node)).
  { cbn [Serializer.val]. unfold Serializer.el. now rewrite Hne. }
  assert (Hr : Parser.val r node = ([], Ok (VBigInt n))).
  { unfold node. rewrite ReaderProofs.val_integer.
    cbn [Dom.textContent]. rewrite DigitsProofs.append_nil_r.
    unfold Parser.int. rewrite TextProofs.Number_String_of_bigint.
    rewrite TextProofs.large_not_safe by exact Hn.
    now rewrite TextProofs.BigInt_String. }
  repeat split; try assumption.
  - apply DigitsProofs.value_print. lia.
  - unfold Serializer.serialize. now rewrite Hw.
  - intros Hx.
    rewrite (DocumentProofs.parse_written r xml (Some node) Hx); [exact Hr|].
    split; reflexivity.
Qed.

Lemma bigint_round_trip_witness :
  Serializer.serialize
    (example_host
       (Serializer.document
          (Some (Dom.Element "integer" [] [Dom.Text "-9223372036854775808"])))
       "<plist/>")
    (VBigInt (-9223372036854775808))
  = Ok (Serializer.xml_declaration ++ "<plist/>")%string /\
  Parser.parse
    (example_host
       (Serializer.document
          (Some (Dom.Element "integer" [] [Dom.Text "-9223372036854775808"])))
       "<plist/>")
    (Serializer.xml_declaration ++ "<plist/>")
  = ([], Ok (VBigInt (-9223372036854775808))).
Proof.
  pose proof (bigint_round_trip
                (example_host
                   (Serializer.document
                      (Some (Dom.Element "integer" []
                               [Dom.Text "-9223372036854775808"])))
                   "<plist/>")
                (example_host
                   (Serializer.document
                      (Some (Dom.Element "integer" []
                               [Dom.Text "-9223372036854775808"])))
                   "<plist/>")
                (-9223372036854775808) eq_refl) as H.
  cbv zeta in H. destruct H as (_ & _ & _ & _ & Hs & Hp).
  split; [exact Hs|]. apply Hp. reflexivity.
Defined.

(** *** The elements the reader comes to *)

Module ReachProofs.
Import Dom Eff Parser ReaderProofs.

Lemma snd_bind_throw {A B} (m : M A) (f : A -> M B) e :
  snd m = Throw e -> snd (bind m f) = Throw e.
Proof. destruct m as [w [a|e']]; cbn; [discriminate|]. now intros [= ->]. Qed.

Lemma snd_bind_ok {A B} (m : M A) (f : A -> M B) w a :
  m = (w, Ok a) -> snd (bind m f) = snd (f a).
Proof. intros ->. cbn. now destruct (f a). Qed.

(** The first call that fails makes the calls on a list fail. *)
Lemma mapM_throw {A B} (f : A -> M B) before a after e :
  Forall (fun b => exists w v, f b = (w, Ok v)) before ->
  snd (f a) = Throw e ->
  snd (mapM f (before ++ a :: after)) = Throw e.
Proof.
  intros F Ha. induction F as [|b before (w & v & Hb) _ IH]; cbn [app mapM].
  - now apply snd_bind_throw.
  - rewrite (snd_bind_ok _ _ w v Hb). now apply snd_bind_throw.
Qed.

Section WithHost.
Context (h : Host).

Lemma pairs_throw pairs key value after e :
  Forall (fun p => tag_is "key" (fst p) = false \/
                   exists w v, val h (snd p) = (w, Ok v)) pairs ->
  tag_is "key" key = true ->
  snd (val h value) = Throw e ->
  let cs := map (fun c => (c, val h c))
                (key_value_children pairs ++ key :: value :: after) in
  snd (mapM (pair cs) (seq 0 (List.length cs / 2))) = Throw e.
Proof.
  intros F Hk Hv. cbv zeta.
  induction F as [|[k v] pairs Hp _ IH].
  - cbn [key_value_children flat_map app map]. rewrite entries_pair.
    apply snd_bind_throw. unfold pair. cbn [nth_error Nat.mul Nat.add].
    rewrite Hk. cbn [negb]. now apply snd_bind_throw.
  - cbn [key_value_children flat_map fst snd app map] in *.
    fold (key_value_children pairs). rewrite entries_pair.
    assert (P : exists w0 e0,
               pair ((k, val h k) :: (v, val h v)
                     :: map (fun c => (c, val h c))
                          (key_value_children pairs ++ key :: value :: after)) 0
               = (w0, Ok e0)).
    { unfold pair. cbn [nth_error Nat.mul Nat.add].
      destruct (tag_is "key" k) eqn:Tk; cbn [negb].
      - destruct Hp as [Hp|(w & x & Hx)]; [discriminate Hp|].
        rewrite Hx. cbn. eauto.
      - cbn. eauto. }
    destruct P as (w0 & e0 & P). rewrite (snd_bind_ok _ _ w0 e0 P).
    now apply snd_bind_throw.
Qed.

(** The failure of an element the reader reaches is the failure of the
    element it started from. *)
Lemma reaches_throws root target e :
  reaches h root target ->
  snd (val h target) = Throw e -> snd (val h root) = Throw e.
Proof.
  induction 1 as [n|a kids before item after target Hc F _ IH
                  |a kids pairs key value after target Hc F Hk _ IH];
    intros Ht.
  - exact Ht.
  - rewrite val_array. unfold converted. rewrite mapM_map.
    cbn [children] in Hc. rewrite Hc. apply snd_bind_throw.
    apply (mapM_throw (fun a => snd (a, val h a))); [exact F|].
    cbn [snd]. now apply IH.
  - rewrite val_dict, dict_entries. unfold converted.
    cbn [children] in Hc. rewrite Hc. apply snd_bind_throw.
    apply pairs_throw; [exact F|exact Hk|now apply IH].
Qed.

End WithHost.

End ReachProofs.

(** C4, amended.  An [integer] element whose text is not numeric (its
    numeric conversion is NaN) makes the reader throw a [SyntaxError]
    and gives no value; the failure aborts the whole call whenever the
    reader reaches the element, which is then the first child element of
    the [plist] element or lies below it, as an item of an array or the
    value after a key, at any depth, the elements read before it having
    been read without failure: [parse] throws the [SyntaxError] and
    returns nothing.  A [real] element never makes the reader fail: its
    value is what [parseFloat] makes of the text, NaN when the text does
    not start with a decimal literal. *)
Theorem non_numeric_text (h : Host) (attributes : list (string * string))
    (childNodes : list Dom.Node) :
  (JS.Number (Dom.textContent (Dom.Element "integer" attributes childNodes))
   = JS.NaN ->
   Parser.val h (Dom.Element "integer" attributes childNodes)
   = ([], Throw SyntaxError) /\
   (forall root,
      reaches h root (Dom.Element "integer" attributes childNodes) ->
      snd (Parser.val h root) = Throw SyntaxError) /\
   (forall xml a before root rest,
      Dom.querySelector "parsererror" (parseFromString h xml) = None ->
      Dom.documentElement (parseFromString h xml)
      = Dom.Element "plist" a (before ++ root :: rest) ->
      Forall (fun n => Dom.is_element n = false) before ->
      Dom.is_element root = true ->
      reaches h root (Dom.Element "integer" attributes childNodes) ->
      snd (Parser.parse h xml) = Throw SyntaxError) /\
   (forall xml a rest,
      Dom.documentElement (parseFromString h xml)
      = Dom.Element "plist" a
          (Dom.Element "integer" attributes childNodes :: rest) ->
      Dom.querySelector "parsererror" (parseFromString h xml) = None ->
      Parser.parse h xml = ([], Throw SyntaxError))) /\
  Parser.val h (Dom.Element "real" attributes childNodes)
  = ([], Ok (VNumber (JS.parseFloat
                        (Dom.textContent
                           (Dom.Element "real" attributes childNodes))))) /\
  (JS.scan_decimal
     (JS.trim_start (Dom.textContent (Dom.Element "real" attributes childNodes)))
   = None ->
   Parser.val h (Dom.Element "real" attributes childNodes)
   = ([], Ok (VNumber JS.NaN))).
Proof.
  split; [|split].
  - intros Hnan.
    assert (Hv : Parser.val h (Dom.Element "integer" attributes childNodes)
                 = ([], Throw SyntaxError)).
    { rewrite ReaderProofs.val_integer. unfold Parser.int.
      rewrite Hnan. cbn [JS.isSafeInteger JS.isInteger andb].
      now rewrite (TextProofs.BigInt_of_NaN _ Hnan). }
    assert (Hr : forall root,
               reaches h root (Dom.Element "integer" attributes childNodes) ->
               snd (Parser.val h root) = Throw SyntaxError).
    { intros root R. apply (ReachProofs.reaches_throws h root _ _ R).
      now rewrite Hv. }
    split; [exact Hv|]. split; [exact Hr|]. split.
    + intros xml a before root rest Herr Hdoc Hb He R.
      rewrite DocumentProofs.parse_answer, Herr.
      unfold Dom.querySelector. rewrite Hdoc.
      cbn [Dom.find String.eqb Ascii.eqb Bool.eqb].
      rewrite ParseProofs.children_first by assumption. now apply Hr.
    + intros xml a rest Hdoc Herr.
      rewrite DocumentProofs.parse_answer, Herr.
      unfold Dom.querySelector. rewrite Hdoc. cbn. exact Hv.
  - now rewrite ReaderProofs.val_real.
  - intros Hs. rewrite ReaderProofs.val_real. unfold JS.parseFloat.
    now rewrite Hs.
Qed.

Lemma non_numeric_text_witness :
  snd (Parser.parse
         (scenario_host
            (Dom.Element "plist" []
               ([Dom.Text " "] ++ unread_and_failing :: [])))
         ("<plist> <dict><string>no key</string>"
          ++ "<integer>never read</integer><key>a</key>"
          ++ "<array><true/><integer>abc</integer></array></dict></plist>"))
  = Throw SyntaxError.
Proof.
  apply (proj1 (proj2 (proj2
           (proj1 (non_numeric_text
                     (scenario_host
                        (Dom.Element "plist" []
                           ([Dom.Text " "] ++ unread_and_failing :: [])))
                     [] [Dom.Text "abc"]) eq_refl)))
           ("<plist> <dict><string>no key</string>"
            ++ "<integer>never read</integer><key>a</key>"
            ++ "<array><true/><integer>abc</integer></array></dict></plist>")
           [] [Dom.Text " "] unread_and_failing []).
  - reflexivity.
  - reflexivity.
  - repeat constructor.
  - reflexivity.
  - apply (reaches_value _ [] _
             [(Dom.Element "string" [] [Dom.Text "no key"],
               Dom.Element "integer" [] [Dom.Text "never read"])]
             (Dom.Element "key" [] [Dom.Text "a"])
             (Dom.Element "array" []
                [Dom.Element "true" [] [];
                 Dom.Element "integer" [] [Dom.Text "abc"]]) []).
    + reflexivity.
    + repeat constructor.
    + reflexivity.
    + apply (reaches_item _ [] _ [Dom.Element "true" [] []]
               (Dom.Element "integer" [] [Dom.Text "abc"]) []).
      * reflexivity.
      * repeat constructor. now exists [], (VBool true).
      * apply reaches_self.
Defined.

(** C4 as stated fails: the text [abc] is not numeric, and the document
    [<plist><real>abc</real></plist>] reads as NaN, without an error. *)
Lemma non_numeric_real_reads_NaN :
  JS.Number "abc" = JS.NaN /\
  Parser.parse
    (example_host
       (document_of
          (Dom.Element "plist" []
             [Dom.Element "real" [] [Dom.Text "abc"]])) "")
    "<plist><real>abc</real></plist>"
  = ([], Ok (VNumber JS.NaN)).
Proof. split; reflexivity. Qed.

(** C6 (the code departs from it).  A document whose root element is not
    [plist] but which has a [plist] element further down is read without
    an error: [parse] looks for the first [plist] element anywhere in the
    document.  Here the root is [foo] and the result is [true]. *)
Theorem nested_plist_accepted (h : Host) (xml : string) :
  Dom.documentElement (parseFromString h xml)
  = Dom.Element "foo" []
      [Dom.Element "plist" [] [Dom.Element "true" [] []]] ->
  Parser.parse h xml = ([], Ok (VBool true)).
Proof.
  intros E. rewrite DocumentProofs.parse_answer.
  unfold Dom.querySelector. rewrite E. reflexivity.
Qed.

Lemma nested_plist_accepted_witness :
  Parser.parse
    (example_host
       (document_of
          (Dom.Element "foo" []
             [Dom.Element "plist" [] [Dom.Element "true" [] []]])) "")
    "<foo><plist><true/></plist></foo>"
  = ([], Ok (VBool true)).
Proof.
  apply (nested_plist_accepted
           (example_host
              (document_of
                 (Dom.Element "foo" []
                    [Dom.Element "plist" [] [Dom.Element "true" [] []]])) "")
           "<foo><plist><true/></plist></foo>").
  reflexivity.
Defined.

(** The rest of what C6 says holds: a document with a [parsererror]
    element, or without any [plist] element, makes [parse] throw, and a
    [plist] element without child elements reads as Null. *)
Lemma parse_outcomes (h : Host) (xml : string) :
  (forall err,
     Dom.querySelector "parsererror" (parseFromString h xml) = Some err ->
     Parser.parse h xml
     = ([], Throw (Error ("Error parsing XML: " ++ Dom.textContent err)))) /\
  (Dom.querySelector "parsererror" (parseFromString h xml) = None ->
   Dom.querySelector "plist" (parseFromString h xml) = None ->
   Parser.parse h xml
   = ([], Throw (Error "Invalid plist: Missing <plist> root element."))) /\
  (forall plist,
     Dom.querySelector "parsererror" (parseFromString h xml) = None ->
     Dom.querySelector "plist" (parseFromString h xml) = Some plist ->
     Dom.children plist = [] ->
     Parser.parse h xml = ([], Ok VNull)).
Proof.
  rewrite DocumentProofs.parse_answer. repeat split.
  - intros err ->. reflexivity.
  - intros -> ->. reflexivity.
  - intros plist -> -> ->. reflexivity.
Qed.

(** ** The text of an integral Number *)

Module IntegerTextProofs.
Import JS RoundingProofs DigitsProofs NumberProofs ScanProofs FormatProofs.
Local Open Scope Z_scope.

Lemma candidate_shape x s p j c :
  candidate x s p j = Some c ->
  snd c = p + Z.of_nat j /\
  (fst c = s / 10 ^ Z.of_nat j \/
   (fst c = s / 10 ^ Z.of_nat j + 1 /\
    of_decimal false (s / 10 ^ Z.of_nat j + 1) (p + Z.of_nat j) = x)).
Proof.
  unfold candidate.
  destruct (eqb (of_decimal false (s / _) _) _) eqn:Elo;
    destruct (eqb (of_decimal false (s / _ + 1) _) _) eqn:Ehi; cbn [andb];
    try apply eqb_eq in Ehi;
    repeat match goal with
    | |- context [if ?b then _ else _] => destruct b
    end;
    intros E; inversion E; subst c; cbn [fst snd]; auto.
Qed.

Lemma shortest_from_shape x s p j :
  shortest_from x s p j = (s, p) \/
  exists j', (1 <= j' <= j)%nat /\
    snd (shortest_from x s p j) = p + Z.of_nat j' /\
    (fst (shortest_from x s p j) = s / 10 ^ Z.of_nat j' \/
     (fst (shortest_from x s p j) = s / 10 ^ Z.of_nat j' + 1 /\
      of_decimal false (s / 10 ^ Z.of_nat j' + 1) (p + Z.of_nat j') = x)).
Proof.
  induction j as [|j IH]; cbn [shortest_from]; [now left|].
  destruct (candidate x s p (S j)) as [c|] eqn:E.
  - right. exists (S j). split; [lia|]. now apply candidate_shape.
  - destruct IH as [IH|(j' & Hj & IH)]; [now left|].
    right. exists j'. split; [lia|exact IH].
Qed.

Lemma ten_21 : of_decimal false 1 21 = Finite false 476837158203125 21.
Proof. vm_compute. reflexivity. Qed.

(** The digits chosen for an integer below 10^21 make an integer below
    10^21. *)
Lemma shortest_integer m e :
  is_double (Finite false m e) = true -> 0 <= e ->
  Z.pos m * 2 ^ e < 10 ^ 21 ->
  0 < fst (shortest m e) /\ 0 <= snd (shortest m e) /\
  fst (shortest m e) * 10 ^ snd (shortest m e) < 10 ^ 21.
Proof.
  intros Hd He Hlt.
  destruct (shortest_sound false m e Hd) as [Hpos Hval].
  split; [exact Hpos|]. revert Hpos Hval. unfold shortest, exact_decimal.
  destruct (Z.leb_spec 0 e); [|lia].
  set (s := Z.pos m * 2 ^ e) in *.
  assert (Hs : 0 < s).
  { pose proof (pow_pos 2 e ltac:(lia) He). unfold s. nia. }
  set (j := (String.length (Digits.print s) - 1)%nat).
  assert (Hj : Z.of_nat j <= 20).
  { pose proof (print_length s 21 ltac:(lia) ltac:(lia)). unfold j. lia. }
  destruct (shortest_from_shape (Finite false m e) s 0 j)
    as [->|(j' & Hj' & Hp & Hf)]; cbn [fst snd].
  - intros _ _. rewrite Z.pow_0_r. lia.
  - rewrite Hp. intros Hpos Hval. split; [lia|].
    set (t := 10 ^ Z.of_nat j') in *.
    assert (Ht : 0 < t) by (apply pow_pos; lia).
    assert (Hlo : s / t * t <= s).
    { rewrite Z.mul_comm. apply Z.mul_div_le. lia. }
    replace (0 + Z.of_nat j') with (Z.of_nat j') in * by lia. fold t.
    destruct Hf as [->|[-> Hhi]]; [lia|].
    destruct (Z.lt_ge_cases ((s / t + 1) * t) (10 ^ 21)) as [|Hge];
      [assumption|exfalso].
    assert (E21 : 10 ^ 21 = 10 ^ (21 - Z.of_nat j') * t).
    { unfold t. rewrite <- Z.pow_add_r by lia. f_equal. lia. }
    assert (Hq : s / t + 1 = 10 ^ (21 - Z.of_nat j')).
    { pose proof (pow_pos 10 (21 - Z.of_nat j') ltac:(lia) ltac:(lia)). nia. }
    rewrite Hq in Hhi.
    rewrite <- (Z.mul_1_l (10 ^ _)) in Hhi.
    rewrite of_decimal_shift in Hhi by lia.
    replace (Z.of_nat j' + (21 - Z.of_nat j')) with 21 in Hhi by lia.
    rewrite ten_21 in Hhi. injection Hhi as <- <-.
    unfold s in Hlt. vm_compute in Hlt. discriminate Hlt.
Qed.

(** Such digits are written out in full, zeros included. *)
Lemma format_integer s p :
  0 < s -> 0 <= p -> s * 10 ^ p < 10 ^ 21 ->
  format s p = Digits.print s ++ Digits.zeros (Z.to_nat p).
Proof.
  intros Hs Hp Hlt. unfold format.
  set (all := Digits.print s).
  destruct (strip_zeros_spec all) as [Eall Lds].
  set (ds := Digits.strip_zeros all) in *.
  assert (Hn : Z.of_nat (String.length all) + p <= 21).
  { assert (p < 21).
    { destruct (Z.lt_ge_cases p 21); [assumption|exfalso].
      assert (10 ^ 21 <= 10 ^ p) by (apply Z.pow_le_mono_r; lia). nia. }
    pose proof (print_length s (21 - p)) as L. fold all in L.
    assert (10 ^ 21 = 10 ^ (21 - p) * 10 ^ p).
    { rewrite <- Z.pow_add_r by lia. f_equal. lia. }
    pose proof (pow_pos 10 p ltac:(lia) Hp).
    pose proof (pow_pos 10 (21 - p) ltac:(lia) ltac:(lia)).
    assert (s < 10 ^ (21 - p)) by nia. lia. }
  cbv zeta.
  destruct (Z.leb_spec (Z.of_nat (String.length ds))
              (Z.of_nat (String.length all) + p)); [|lia].
  destruct (Z.leb_spec (Z.of_nat (String.length all) + p) 21); [|lia].
  cbn [andb].
  assert (G : forall a b,
             Digits.zeros (a + b) = Digits.zeros a ++ Digits.zeros b).
  { intros a b. induction a as [|a IH]; cbn; [reflexivity|]. now rewrite IH. }
  replace (Z.to_nat (Z.of_nat (String.length all) + p
                     - Z.of_nat (String.length ds)))
    with ((String.length all - String.length ds) + Z.to_nat p)%nat by lia.
  rewrite G, <- append_assoc. f_equal. symmetry. exact Eall.
Qed.

(** The text of an integral Number of magnitude below 10^21 is a
    decimal integer string. *)
Lemma String_of_integer x :
  is_double x = true -> isInteger x = true ->
  Z.abs (integer_value x) < 10 ^ 21 ->
  decimal_integer_string (String_of_number x).
Proof.
  intros Hd Hi Hlt. destruct x as [|neg|neg|neg m e]; try discriminate Hi.
  - exists false, "0". repeat split. discriminate.
  - cbn [isInteger] in Hi. apply Z.leb_le in Hi.
    assert (Hm : Z.pos m * 2 ^ e < 10 ^ 21).
    { cbn [integer_value] in Hlt.
      pose proof (pow_pos 2 e ltac:(lia) Hi). destruct neg; nia. }
    destruct (shortest_integer m e Hd Hi Hm) as (H1 & H2 & H3).
    cbn [String_of_number]. destruct (shortest m e) as [s p].
    cbn [fst snd] in *. rewrite format_integer by assumption.
    exists neg, (Digits.print s ++ Digits.zeros (Z.to_nat p)).
    repeat split.
    + pose proof (print_nonempty s). destruct (Digits.print s);
        [contradiction|discriminate].
    + rewrite forallb_append, print_digits, digits_zeros by lia. reflexivity.
Qed.

Lemma NaN_text_not_decimal : ~ decimal_float_string "NaN".
Proof.
  intros (neg & t & m & e & E & Ht).
  destruct (decimal_text_head t m e Ht) as (c & r & -> & Hc).
  destruct neg; cbn in E; [discriminate E|].
  injection E as <- _. discriminate Hc.
Qed.

End IntegerTextProofs.

(** C8, amended.  For a machine number the writer emits an [integer]
    element when the number is integral-valued and a [real] element
    otherwise, the text being [String(value)] in both cases.  That text
    is a decimal integer string for an integral value of magnitude below
    10^21; a decimal floating-point string (digits, with a decimal point
    or an exponent part or both) that reads back as the number for a
    finite value that is not integral; and [NaN], [Infinity] or
    [-Infinity] for the values that are not finite. *)
Theorem number_element (h : Host) (x : JS.number) :
  JS.is_double x = true ->
  Serializer.val h (VNumber x)
  = Ok (Some (Dom.Element (if JS.isInteger x then "integer" else "real") []
                [Dom.Text (JS.String_of_number x)])) /\
  (JS.isInteger x = true -> Z.abs (JS.integer_value x) < 10 ^ 21 ->
   decimal_integer_string (JS.String_of_number x)) /\
  (forall neg m e, x = JS.Finite neg m e -> JS.isInteger x = false ->
   decimal_float_string (JS.String_of_number x) /\
   JS.parseFloat (JS.String_of_number x) = x) /\
  (x = JS.NaN -> JS.String_of_number x = "NaN") /\
  (forall neg, x = JS.Infinity neg ->
   JS.String_of_number x = if neg then "-Infinity" else "Infinity").
Proof.
  intros Hd. split; [|split; [|split; [|split]]].
  - assert (Hne : String.eqb (JS.String_of_number x) "" = false).
    { destruct x as [|[]|[]|neg m e]; try reflexivity.
      destruct (TextProofs.String_of_finite neg m e Hd)
        as (t & m' & e' & -> & Ht & _).
      exact (TextProofs.signed_text_nonempty _ _ _ _ Ht). }
    cbn [Serializer.val]. unfold Serializer.el. rewrite Hne.
    now destruct (JS.isInteger x).
  - now apply IntegerTextProofs.String_of_integer.
  - intros neg m e -> _.
    destruct (TextProofs.String_of_finite neg m e Hd)
      as (t & m' & e' & E & Ht & Hv).
    split.
    + exists neg, t, m', e'. split; [exact E|exact Ht].
    + apply TextProofs.parseFloat_String; [exact Hd|discriminate].
  - now intros ->.
  - now intros neg ->.
Qed.

Lemma number_element_witness :
  decimal_integer_string (JS.String_of_number (JS.Finite false 1 60)) /\
  decimal_float_string (JS.String_of_number (JS.Finite true 3 (-1))).
Proof.
  split.
  - apply (number_element (example_host (document_of (Dom.Text "")) "")
             (JS.Finite false 1 60)); reflexivity.
  - exact (proj1 (proj1 (proj2 (proj2
             (number_element (example_host (document_of (Dom.Text "")) "")
                (JS.Finite true 3 (-1)) eq_refl)))
             true 3%positive (-1) eq_refl eq_refl)).
Defined.

(** C8 as stated fails: NaN is a machine number that is not
    integral-valued, and the writer emits for it the [real] element with
    the text [NaN], which is no decimal floating-point string. *)
Lemma NaN_element_text :
  JS.isInteger JS.NaN = false /\
  Serializer.val (example_host (document_of (Dom.Text "")) "") (VNumber JS.NaN)
  = Ok (Some (Dom.Element "real" [] [Dom.Text "NaN"])) /\
  ~ decimal_float_string "NaN".
Proof.
  repeat split. apply IntegerTextProofs.NaN_text_not_decimal.
Qed.

(** ** Writing and reading back *)

Module RoundTripProofs.
Import Dom Eff ReaderProofs.
Local Open Scope nat_scope.

(** *** Objects *)

Lemma set_append {A} (o : list (string * A)) k v :
  Forall (fun kv => fst kv <> k /\ Obj.before k (fst kv) = false) o ->
  Obj.set o k v = (o ++ [(k, v)])%list.
Proof.
  induction 1 as [|[k' v'] o [H1 H2] _ IH]; [reflexivity|].
  cbn [fst] in H1, H2. cbn [Obj.set app].
  rewrite (proj2 (String.eqb_neq k' k) H1), H2, IH. reflexivity.
Qed.

Lemma enumerated_last {A} (acc : list (string * A)) kv l :
  Obj.enumerated (acc ++ kv :: l) ->
  Forall (fun kv' => fst kv' <> fst kv /\ Obj.before (fst kv) (fst kv') = false)
         acc.
Proof.
  unfold Obj.enumerated. induction acc as [|a acc IH]; cbn [app]; intros H.
  - constructor.
  - inversion H as [|? ? Ha Hrest]; subst. constructor; [|now apply IH].
    rewrite Forall_forall in Ha. apply (Ha kv). apply in_or_app. right. now left.
Qed.

Lemma fromEntries_from {A} (l acc : list (string * A)) :
  Obj.enumerated (acc ++ l) ->
  fold_left (fun o kv => Obj.set o (fst kv) (snd kv)) l acc = (acc ++ l)%list.
Proof.
  revert acc. induction l as [|[k v] l IH]; intros acc H; cbn [fold_left].
  - now rewrite app_nil_r.
  - cbn [fst snd]. rewrite set_append by exact (enumerated_last acc (k, v) l H).
    rewrite IH; rewrite <- app_assoc; [reflexivity|exact H].
Qed.

(** An object is rebuilt from its own entries. *)
Lemma fromEntries_enumerated {A} (l : list (string * A)) :
  Obj.enumerated l -> Obj.fromEntries l = l.
Proof. intros H. unfold Obj.fromEntries. now rewrite fromEntries_from. Qed.

Lemma somes_map_Some {A} (l : list A) : Parser.somes (map Some l) = l.
Proof.
  unfold Parser.somes. induction l as [|a l IH]; [reflexivity|].
  cbn. now rewrite IH.
Qed.

(** *** The elements of the writer *)

Section Hosts.
Context (w r : Host).

Lemma converted_cons n nodes :
  is_element n = true ->
  Parser.converted r (n :: nodes) = (n, Parser.val r n) :: Parser.converted r nodes.
Proof. intros H. unfold Parser.converted. cbn [List.filter]. now rewrite H. Qed.

Lemma val_el tag text :
  Parser.val r (Serializer.el tag text) =
  match Parser.handlers r tag [] text with
  | Some fn => fn
  | None =>
      warn ("Unknown plist tag: <" ++ tag ++ ">") ;;; ret (VString text)
  end.
Proof.
  pose proof (DocumentProofs.textContent_el tag text) as T.
  unfold Serializer.el in *. rewrite val_element, T.
  now destruct (String.eqb text "").
Qed.

Lemma find_el tag tag' text :
  String.eqb tag' tag = false -> find tag (Serializer.el tag' text) = None.
Proof.
  intros H. unfold Serializer.el. cbn [find]. rewrite H.
  now destruct (String.eqb text "").
Qed.

Lemma find_element tag tag' nodes :
  String.eqb tag' tag = false ->
  Forall (fun n => find tag n = None) nodes ->
  find tag (Element tag' [] nodes) = None.
Proof.
  intros H F. cbn [find]. rewrite H.
  induction F as [|n nodes Hn _ IH]; [reflexivity|]. now rewrite Hn.
Qed.

Lemma good_el v tag text :
  Serializer.val w v = Ok (Some (Serializer.el tag text)) ->
  String.eqb tag "parsererror" = false ->
  Parser.val r (Serializer.el tag text) = ([], Ok v) ->
  exists n, good w r v n.
Proof.
  intros H1 H2 H3. exists (Serializer.el tag text).
  repeat split; [exact H1|now apply find_el|exact H3].
Qed.

Lemma good_array items nodes :
  Forall2 (good w r) items nodes -> good w r (VArray items) (Element "array" [] nodes).
Proof.
  intros F. repeat split.
  - rewrite WriterProofs.write_array.
    replace (Serializer.arr_children (Serializer.val w) items) with (Ok nodes);
      [reflexivity|].
    induction F as [|v n items nodes (Hv & _) _ IH]; [reflexivity|].
    cbn [Serializer.arr_children]. now rewrite Hv, <- IH.
  - apply find_element; [reflexivity|].
    induction F as [|v n items nodes (_ & _ & Hf & _) _ IH]; constructor; auto.
  - rewrite val_array.
    replace (mapM snd (Parser.converted r nodes)) with (ret (A := list value) items);
      [reflexivity|].
    induction F as [|v n items nodes (_ & He & _ & Hr) _ IH]; [reflexivity|].
    rewrite converted_cons by exact He. cbn [mapM snd].
    now rewrite Hr, <- IH.
Qed.

Lemma good_object entries nodes :
  Obj.enumerated entries ->
  Forall2 (fun kv n => good w r (snd kv) n) entries nodes ->
  good w r (VObject entries) (Element "dict" [] (dict_nodes entries nodes)).
Proof.
  intros Hen F. repeat split.
  - rewrite WriterProofs.write_object.
    replace (Serializer.dict_children (Serializer.val w) entries)
      with (Ok (dict_nodes entries nodes)); [reflexivity|].
    clear Hen.
    induction F as [|[k v] n entries nodes (Hv & _) _ IH]; [reflexivity|].
    cbn [Serializer.dict_children dict_nodes snd] in *. now rewrite Hv, <- IH.
  - apply find_element; [reflexivity|]. clear Hen.
    induction F as [|[k v] n entries nodes (_ & _ & Hf & _) _ IH];
      cbn [dict_nodes]; constructor; [now apply find_el|].
    constructor; auto.
  - rewrite val_dict, dict_entries.
    replace (mapM (Parser.pair (Parser.converted r (dict_nodes entries nodes)))
               (seq 0 (List.length (Parser.converted r (dict_nodes entries nodes)) / 2)))
      with (ret (A := list (option (string * value))) (map Some entries)).
    { rewrite bind_ret_l, somes_map_Some.
      now rewrite fromEntries_enumerated. }
    clear Hen.
    induction F as [|[k v] n entries nodes (_ & He & _ & Hr) _ IH];
      [reflexivity|].
    cbn [dict_nodes snd] in *.
    rewrite converted_cons by (unfold Serializer.el; reflexivity).
    rewrite converted_cons by exact He.
    rewrite entries_pair, <- IH.
    unfold Parser.pair at 1. cbn [nth_error Nat.mul Nat.add].
    replace (Parser.tag_is "key" (Serializer.el "key" k)) with true
      by (unfold Serializer.el; reflexivity).
    cbn [negb]. rewrite Hr, DocumentProofs.textContent_el. reflexivity.
Qed.

Lemma plain_array items :
  plain w r (VArray items) <-> Forall (plain w r) items.
Proof.
  cbn [plain]. induction items as [|v items IH].
  - split; constructor.
  - split.
    + intros [H1 H2]. constructor; [exact H1|now apply IH].
    + intros H. inversion H; subst. split; [assumption|now apply IH].
Qed.

Lemma plain_object entries :
  plain w r (VObject entries) <->
  Obj.enumerated entries /\ Forall (fun kv => plain w r (snd kv)) entries.
Proof.
  cbn [plain]. apply and_iff_compat_l. induction entries as [|kv entries IH].
  - split; constructor.
  - split.
    + intros [H1 H2]. constructor; [exact H1|now apply IH].
    + intros H. inversion H; subst. split; [assumption|now apply IH].
Qed.

(** Every plain value has its element, which reads back as the value. *)
Lemma plain_good v : plain w r v -> exists n, good w r v n.
Proof.
  induction v as [| |b|s|z|x|d|bytes|items IH|entries IH]
    using value_induction; intros Hp.
  - destruct Hp.
  - destruct Hp.
  - exists (Element (if b then "true" else "false") [] []).
    destruct b; repeat split.
  - apply (good_el _ "string" s); [reflexivity|reflexivity|].
    now rewrite val_el.
  - cbn [plain] in Hp.
    apply (good_el _ "integer" (JS.String_of_bigint z));
      [reflexivity|reflexivity|].
    rewrite val_el. cbn [Parser.handlers String.eqb Ascii.eqb Bool.eqb].
    unfold Parser.int, lift. rewrite TextProofs.Number_String_of_bigint.
    rewrite TextProofs.large_not_safe by exact Hp.
    now rewrite TextProofs.BigInt_String.
  - destruct Hp as (Hd & Hz & Hs).
    destruct (JS.isInteger x) eqn:Hi.
    + apply (good_el _ "integer" (JS.String_of_number x));
        [cbn [Serializer.val]; now rewrite Hi|reflexivity|].
      rewrite val_el. cbn [Parser.handlers String.eqb Ascii.eqb Bool.eqb].
      unfold Parser.int, lift.
      rewrite TextProofs.Number_String by assumption.
      now rewrite Hs.
    + apply (good_el _ "real" (JS.String_of_number x));
        [cbn [Serializer.val]; now rewrite Hi|reflexivity|].
      rewrite val_el. cbn [Parser.handlers String.eqb Ascii.eqb Bool.eqb].
      now rewrite TextProofs.parseFloat_String.
  - destruct Hp as (t & -> & Ht).
    apply (good_el _ "date" (toISOString w t)); [reflexivity|reflexivity|].
    rewrite val_el. cbn [Parser.handlers String.eqb Ascii.eqb Bool.eqb].
    now rewrite Ht.
  - apply (good_el _ "data" (Serializer.b64 w bytes));
      [reflexivity|reflexivity|].
    rewrite val_el. cbn [Parser.handlers String.eqb Ascii.eqb Bool.eqb].
    rewrite CodecProofs.b64_is_btoa, CodecProofs.data_btoa.
    now rewrite list_byte_of_string_of_list_byte.
  - apply plain_array in Hp.
    assert (N : exists nodes, Forall2 (good w r) items nodes).
    { induction IH as [|v items Hv _ IHl]; [exists []; constructor|].
      inversion Hp; subst. destruct (Hv ltac:(assumption)) as [n Hn].
      destruct (IHl ltac:(assumption)) as [nodes Hnodes].
      exists (n :: nodes). now constructor. }
    destruct N as [nodes N]. exists (Element "array" [] nodes).
    exact (good_array items nodes N).
  - apply plain_object in Hp. destruct Hp as [Hen Hp].
    assert (N : exists nodes,
               Forall2 (fun kv n => good w r (snd kv) n) entries nodes).
    { clear Hen. induction IH as [|kv entries Hv _ IHl];
        [exists []; constructor|].
      inversion Hp; subst. destruct (Hv ltac:(assumption)) as [n Hn].
      destruct (IHl ltac:(assumption)) as [nodes Hnodes].
      exists (n :: nodes). now constructor. }
    destruct N as [nodes N]. exists (Element "dict" [] (dict_nodes entries nodes)).
    exact (good_object entries nodes Hen N).
Qed.

End Hosts.

End RoundTripProofs.

(** C1, amended.  Every value that is Null or plain is written and read
    back as itself: the writer [w] makes of it the text of the document
    around its element, after the XML declaration, and whenever the XML
    parser of the reader [r] answers for that text the document that was
    serialized, [parse] returns the value, without a warning.  The
    plain values have no Null and no [undefined] inside a container, their
    BigInts are beyond the safe integers, their Numbers are binary64
    values other than the negative zero and safe integers when they are
    integral, their Dates are valid and read back by the Date parser of
    [r], their objects are in enumeration order. *)
Theorem read_write_round_trip (w r : Host) (v : value) :
  round_trips w r v ->
  exists node xml,
    Serializer.val w v = Ok node /\
    Serializer.serialize w v = Ok xml /\
    xml = (Serializer.xml_declaration
           ++ serializeToString w (Serializer.document node))%string /\
    (parseFromString r xml = Serializer.document node ->
     Parser.parse r xml = ([], Ok v)).
Proof.
  intros [->|Hp].
  - exists None. eexists. repeat split.
    intros E. now rewrite (DocumentProofs.parse_written r _ None E).
  - destruct (RoundTripProofs.plain_good w r v Hp) as (n & Hw & He & Hf & Hr).
    exists (Some n). eexists. split; [exact Hw|]. split; [|split].
    + unfold Serializer.serialize. rewrite Hw. reflexivity.
    + reflexivity.
    + intros E. rewrite (DocumentProofs.parse_written r _ (Some n) E);
        [exact Hr|now split].
Qed.

Lemma read_write_round_trip_witness :
  Parser.parse
    (example_host (Serializer.document (Some sample_node)) "<plist/>")
    (Serializer.xml_declaration ++ "<plist/>")
  = ([], Ok sample_value).
Proof.
  destruct (read_write_round_trip
              (example_host (Serializer.document (Some sample_node)) "<plist/>")
              (example_host (Serializer.document (Some sample_node)) "<plist/>")
              sample_value)
    as (node & xml & Hv & Hs & Hx & Hp).
  - right. cbn [plain sample_value snd]. repeat split.
    + repeat constructor; cbn; discriminate.
    + discriminate.
    + discriminate.
  - vm_compute in Hv. injection Hv as <-.
    vm_compute in Hs. injection Hs as <-.
    apply Hp. reflexivity.
Defined.

(** C1 as stated fails: the Number 2^53 is a 64-bit floating point value
    with nothing dropped from it, the writer makes the [integer] element
    with the text 9007199254740992 of it, and the reader, for which this
    integer is beyond the safe range, returns the BigInt of these digits,
    not the Number. *)
Lemma large_number_reads_as_bigint :
  JS.is_double (JS.Finite false 1 53) = true /\
  Serializer.serialize
    (example_host
       (Serializer.document
          (Some (Dom.Element "integer" [] [Dom.Text "9007199254740992"])))
       "<plist/>")
    (VNumber (JS.Finite false 1 53))
  = Ok (Serializer.xml_declaration ++ "<plist/>") /\
  Serializer.val
    (example_host
       (Serializer.document
          (Some (Dom.Element "integer" [] [Dom.Text "9007199254740992"])))
       "<plist/>")
    (VNumber (JS.Finite false 1 53))
  = Ok (Some (Dom.Element "integer" [] [Dom.Text "9007199254740992"])) /\
  Parser.parse
    (example_host
       (Serializer.document
          (Some (Dom.Element "integer" [] [Dom.Text "9007199254740992"])))
       "<plist/>")
    (Serializer.xml_declaration ++ "<plist/>")
  = ([], Ok (VBigInt 9007199254740992)) /\
  VBigInt 9007199254740992 <> VNumber (JS.Finite false 1 53).
Proof.
  repeat split; try (vm_compute; reflexivity). discriminate.
Qed.

(** ** Further properties of the reader and the writer *)

(** *** Induction over nodes, and over lists two items at a time *)

Section NodeInduction.

Variable P : Dom.Node -> Prop.
Hypothesis P_element :
  forall t a kids, Forall P kids -> P (Dom.Element t a kids).
Hypothesis P_text : forall d, P (Dom.Text d).
Hypothesis P_comment : forall d, P (Dom.Comment d).

Lemma Node_induction : forall n, P n.
Proof.
  fix IH 1. intros [t a kids|d|d].
  - apply P_element. induction kids as [|k kids IHkids]; constructor.
    + apply IH.
    + exact IHkids.
  - apply P_text.
  - apply P_comment.
Qed.

End NodeInduction.

Section PairInduction.

Context {A : Type} (P : list A -> Prop).
Hypothesis P_nil : P [].
Hypothesis P_one : forall a, P [a].
Hypothesis P_two : forall a b l, P l -> P (a :: b :: l).

Lemma by_pairs : forall l, P l.
Proof.
  fix IH 1. intros [|a [|b l]].
  - exact P_nil.
  - apply P_one.
  - apply P_two. apply IH.
Qed.

End PairInduction.

(** *** The integers the reader takes *)

Module IntegerProofs.
Import JS RoundingProofs DigitsProofs NumberProofs ScanProofs FormatProofs TextProofs.
Local Open Scope Z_scope.

(** An integer below 2^53 is a Number, exactly. *)
Lemma round_small neg s :
  0 < s < 2 ^ 53 ->
  exists m e, round_ratio neg s 1 = Finite neg m e /\ 0 <= e /\ Z.pos m * 2 ^ e = s.
Proof.
  intros Hs. destruct s as [|P|P]; try lia.
  pose proof (strip_spec P 0) as S. destruct (strip P 0) as [m e].
  destruct S as (He & Hv & Ho). rewrite Z.sub_0_r in Hv.
  exists m, e. split; [|split; [exact He|lia]].
  pose proof (pow_pos 2 e ltac:(lia) He) as Hp.
  assert (Hm : Z.pos m < 2 ^ 53) by nia.
  assert (He53 : e < 53).
  { destruct (Z.lt_ge_cases e 53) as [|G]; [assumption|exfalso].
    pose proof (Z.pow_le_mono_r 2 53 e ltac:(lia) G). nia. }
  apply round_exact; try lia.
  - unfold is_double. rewrite Ho.
    assert (L : Z.log2 (Z.pos m) < 53).
    { apply Z.log2_lt_pow2; lia. }
    apply andb_true_iff; split; [apply andb_true_iff; split|];
      [apply andb_true_iff; split; [reflexivity|]|..]; blia.
  - unfold scale_num, scale_den.
    rewrite Z.max_l, Z.max_r by lia. rewrite Z.pow_0_r. lia.
Qed.

Lemma of_decimal_small neg s :
  0 <= s <= MAX_SAFE_INTEGER ->
  isSafeInteger (of_decimal neg s 0) = true /\
  integer_value (of_decimal neg s 0) = (if neg then - s else s).
Proof.
  unfold MAX_SAFE_INTEGER. intros Hs. unfold of_decimal.
  destruct (Z.leb_spec s 0) as [L|L].
  - assert (s = 0) by lia. subst s. cbn. now destruct neg.
  - change (0 <=? 0) with true. cbv iota. rewrite Z.pow_0_r, Z.mul_1_r.
    destruct (round_small neg s ltac:(lia)) as (m & e & -> & He & Hv).
    unfold isSafeInteger, isInteger, integer_value, MAX_SAFE_INTEGER.
    split; [|destruct neg; lia].
    apply andb_true_iff. split; [blia|]. apply Z.leb_le.
    destruct neg; lia.
Qed.

Lemma of_Z_decimal z : of_Z z = of_decimal (z <? 0) (Z.abs z) 0 \/ z = 0.
Proof.
  destruct (Z.eq_dec z 0) as [|N]; [now right|left].
  unfold of_Z, of_decimal. destruct (Z.eqb_spec z 0); [lia|].
  destruct (Z.leb_spec (Z.abs z) 0); [lia|].
  change (0 <=? 0) with true. cbv iota. now rewrite Z.pow_0_r, Z.mul_1_r.
Qed.

Lemma of_Z_small z :
  Z.abs z <= MAX_SAFE_INTEGER ->
  isSafeInteger (of_Z z) = true /\ integer_value (of_Z z) = z.
Proof.
  intros Hz. destruct (of_Z_decimal z) as [->| ->]; [|split; reflexivity].
  destruct (of_decimal_small (z <? 0) (Z.abs z) ltac:(lia)) as [S V].
  split; [exact S|]. rewrite V. destruct (Z.ltb_spec z 0); lia.
Qed.

Lemma of_Z_large z : MAX_SAFE_INTEGER < Z.abs z -> isSafeInteger (of_Z z) = false.
Proof.
  intros Hz. destruct (of_Z_decimal z) as [->| ->].
  - now apply large_not_safe.
  - unfold MAX_SAFE_INTEGER in Hz. cbn in Hz. lia.
Qed.

Lemma digit_value_range c : Digits.is_digit c = true -> 0 <= Digits.digit_value c <= 9.
Proof.
  unfold Digits.is_digit, Digits.digit_value. cbv zeta. intros H.
  apply andb_true_iff in H as [H1 H2]. apply N.leb_le in H1, H2. lia.
Qed.

Lemma value_from_nonneg s acc :
  Str.forallb Digits.is_digit s = true -> 0 <= acc -> 0 <= Digits.value_from acc s.
Proof.
  revert acc. induction s as [|c r IH]; intros acc H Ha;
    cbn [Digits.value_from Str.forallb] in *; [exact Ha|].
  apply andb_true_iff in H as [Hc Hr].
  apply IH; [exact Hr|]. pose proof (digit_value_range c Hc). lia.
Qed.

Lemma value_nonneg s : Str.forallb Digits.is_digit s = true -> 0 <= Digits.value s.
Proof. intros H. now apply value_from_nonneg. Qed.

Lemma radix_digit_nonneg radix c d : radix_digit radix c = Some d -> 0 <= d < radix.
Proof.
  unfold radix_digit. cbv zeta.
  set (n := Z.of_N (N_of_ascii c)).
  destruct ((48 <=? n) && (n <=? 57)) eqn:E1;
    [|destruct ((97 <=? n) && (n <=? 102)) eqn:E2;
      [|destruct ((65 <=? n) && (n <=? 70)) eqn:E3]].
  all: match goal with |- (if ?b then _ else _) = _ -> _ => destruct b eqn:Eb end;
    intros H; inversion H; subst; clear H; try blia.
Qed.

Lemma radix_value_nonneg radix s acc z :
  0 < radix -> 0 <= acc -> radix_value radix acc s = Some z -> 0 <= z.
Proof.
  intros Hr. revert acc. induction s as [|c r IH]; intros acc Ha; cbn.
  - intros H. inversion H. lia.
  - destruct (radix_digit radix c) as [d|] eqn:E; [|discriminate].
    apply radix_digit_nonneg in E. apply IH. nia.
Qed.

Lemma non_decimal_nonneg s z : non_decimal s = Some z -> 0 <= z.
Proof.
  unfold non_decimal.
  destruct s as [|a [|x [|c r]]]; try discriminate;
    try (destruct a as [[] [] [] [] [] [] [] []]; discriminate).
  destruct a as [[] [] [] [] [] [] [] []]; try discriminate.
  destruct (Ascii.eqb x "x" || Ascii.eqb x "X")%bool;
    [apply radix_value_nonneg; lia|].
  destruct (Ascii.eqb x "o" || Ascii.eqb x "O")%bool;
    [apply radix_value_nonneg; lia|].
  destruct (Ascii.eqb x "b" || Ascii.eqb x "B")%bool;
    [apply radix_value_nonneg; lia|discriminate].
Qed.

(** The three outcomes of [int]. *)
Lemma int_cases text :
  Parser.int text =
  if isSafeInteger (Number text) then Ok (VNumber (Number text))
  else match BigInt text with
       | Ok z => Ok (VBigInt z)
       | Throw e => Throw e
       end.
Proof. reflexivity. Qed.

Lemma BigInt_throws text e : BigInt text = Throw e -> e = SyntaxError.
Proof.
  unfold BigInt. destruct (String.eqb (trim text) ""); [discriminate|].
  destruct (non_decimal (trim text)); [discriminate|].
  destruct (scan_sign (trim text)) as [neg r].
  destruct (Digits.span r) as [ds rest].
  destruct (negb (String.eqb ds "") && String.eqb rest "")%bool; [discriminate|].
  now intros [= <-].
Qed.

(** The integer literal [BigInt] reads is the one [Number] rounds. *)
Lemma BigInt_Number text z :
  BigInt text = Ok z ->
  Number text = of_Z z \/ exists neg, Number text = of_decimal neg (Z.abs z) 0.
Proof.
  unfold BigInt, Number. set (s := trim text).
  destruct (String.eqb s ""); [intros [= <-]; now left|].
  destruct (non_decimal s) as [z'|]; [intros [= <-]; now left|].
  unfold scan_decimal. destruct (scan_sign s) as [neg r].
  pose proof (span_spec r) as Sp. destruct (Digits.span r) as [ds rest].
  destruct Sp as (-> & Hd & _).
  destruct (String.eqb_spec ds "") as [E|E]; [discriminate|].
  destruct (String.eqb_spec rest "") as [->|R]; [|discriminate].
  cbn [negb andb]. intros [= <-]. right. exists neg.
  rewrite append_nil_r.
  rewrite (decimal_text_scan neg ds _ _ (decimal_integer ds E Hd)).
  cbn [of_literal]. pose proof (value_nonneg ds Hd).
  f_equal. destruct neg; lia.
Qed.

Lemma trim_start_app pre s :
  Str.forallb Str.is_space pre = true -> trim_start (pre ++ s) = trim_start s.
Proof.
  induction pre as [|c r IH]; cbn; [reflexivity|].
  intros H. apply andb_true_iff in H as [-> Hr]. auto.
Qed.

Lemma trim_end_spaces post :
  Str.forallb Str.is_space post = true -> trim_end post = "".
Proof.
  induction post as [|c r IH]; cbn; [reflexivity|].
  intros H. apply andb_true_iff in H as [-> Hr]. now rewrite IH.
Qed.

Lemma trim_end_app s post :
  Str.forallb numeric_char s = true ->
  Str.forallb Str.is_space post = true -> trim_end (s ++ post) = s.
Proof.
  intros Hs Hp. induction s as [|c r IH]; cbn [append].
  - now apply trim_end_spaces.
  - cbn [Str.forallb] in Hs. apply andb_true_iff in Hs as [Hc Hr].
    cbn [trim_end]. rewrite IH by exact Hr.
    now rewrite (numeric_not_space c Hc).
Qed.

(** White space around a numeric text is trimmed away. *)
Lemma trim_around pre s post :
  Str.forallb Str.is_space pre = true ->
  Str.forallb numeric_char s = true ->
  Str.forallb Str.is_space post = true ->
  trim (pre ++ s ++ post) = s.
Proof.
  intros Hpre Hs Hpost. unfold trim. rewrite trim_start_app by exact Hpre.
  destruct s as [|c r].
  - cbn [append]. now rewrite ReaderProofs.trim_start_spaces.
  - pose proof Hs as Hs'. cbn [Str.forallb] in Hs'.
    apply andb_true_iff in Hs' as [Hc _].
    cbn [append trim_start]. rewrite (numeric_not_space c Hc).
    now apply (trim_end_app (String c r)).
Qed.

(** [int] sees a text through [trim] only. *)
Lemma int_trim text core :
  trim text = core -> trim core = core -> Parser.int text = Parser.int core.
Proof.
  intros E1 E2. unfold Parser.int, Number, BigInt. now rewrite E1, E2.
Qed.

End IntegerProofs.

(** X1.  [int] returns a Number only when it is a safe integer, a BigInt only
    beyond the safe integers, and throws nothing but a [SyntaxError]. *)
Theorem int_result_kinds (text : string) :
  (Parser.int text = Ok (VNumber (JS.Number text)) /\
   JS.isSafeInteger (JS.Number text) = true) \/
  (exists z, Parser.int text = Ok (VBigInt z) /\ JS.BigInt text = Ok z /\
             JS.MAX_SAFE_INTEGER < Z.abs z) \/
  Parser.int text = Throw SyntaxError.
Proof.
  rewrite IntegerProofs.int_cases.
  destruct (JS.isSafeInteger (JS.Number text)) eqn:S; [now left|right].
  destruct (JS.BigInt text) as [z|e] eqn:B.
  - left. exists z. repeat split.
    destruct (Z.lt_ge_cases JS.MAX_SAFE_INTEGER (Z.abs z)) as [|G]; [assumption|].
    exfalso.
    destruct (IntegerProofs.BigInt_Number text z B) as [E|[neg E]];
      rewrite E in S.
    + destruct (IntegerProofs.of_Z_small z G) as [S' _]. congruence.
    + destruct (IntegerProofs.of_decimal_small neg (Z.abs z) ltac:(lia)) as [S' _].
      congruence.
  - right. now rewrite (IntegerProofs.BigInt_throws text e B).
Qed.

(** X2.  An [integer] element with decimal digits, a minus sign or none before
    them and white space or none around them: the Number of the digits,
    exactly, up to 2^53 - 1, and the BigInt of the digits beyond.  Zeros
    before the digits change nothing. *)
Theorem integer_digits (pre post : string) (neg : bool) (ds : string) :
  Str.forallb Str.is_space pre = true ->
  Str.forallb Str.is_space post = true ->
  ds <> "" -> Str.forallb Digits.is_digit ds = true ->
  Parser.int (pre ++ JS.signed_text neg ds ++ post)
  = (if Digits.value ds <=? JS.MAX_SAFE_INTEGER
     then Ok (VNumber (JS.of_decimal neg (Digits.value ds) 0))
     else Ok (VBigInt (if neg then - Digits.value ds else Digits.value ds))) /\
  (Digits.value ds <= JS.MAX_SAFE_INTEGER ->
   JS.integer_value (JS.of_decimal neg (Digits.value ds) 0)
   = if neg then - Digits.value ds else Digits.value ds).
Proof.
  intros Hpre Hpost Hn Hd.
  pose proof (decimal_integer ds Hn Hd) as Ht.
  pose proof (TextProofs.signed_text_numeric neg ds _ _ Ht) as Hnum.
  pose proof (IntegerProofs.value_nonneg ds Hd) as H0.
  split.
  - rewrite (IntegerProofs.int_trim _ (JS.signed_text neg ds));
      [|now apply IntegerProofs.trim_around|now apply TextProofs.trim_numeric].
    rewrite IntegerProofs.int_cases.
    rewrite (TextProofs.Number_signed_text neg ds _ _ Ht).
    rewrite TextProofs.BigInt_signed_digits by assumption.
    destruct (Z.leb_spec (Digits.value ds) JS.MAX_SAFE_INTEGER) as [L|L].
    + destruct (IntegerProofs.of_decimal_small neg (Digits.value ds)
                  ltac:(lia)) as [-> _]. reflexivity.
    + set (z := if neg then - Digits.value ds else Digits.value ds).
      assert (E : JS.of_decimal neg (Digits.value ds) 0
                  = JS.of_decimal (z <? 0) (Z.abs z) 0).
      { unfold JS.MAX_SAFE_INTEGER in L. cbn in L.
        unfold z. destruct neg.
        - destruct (Z.ltb_spec (- Digits.value ds) 0); [|lia].
          f_equal. lia.
        - destruct (Z.ltb_spec (Digits.value ds) 0); [lia|].
          f_equal. lia. }
      rewrite E, TextProofs.large_not_safe; [reflexivity|].
      unfold z. destruct neg; lia.
  - intros L.
    now destruct (IntegerProofs.of_decimal_small neg (Digits.value ds)
                    ltac:(lia)) as [_ ->].
Qed.

Lemma integer_digits_witness :
  Parser.int (" " ++ JS.signed_text true "0042" ++ " ")
  = Ok (VNumber (JS.Finite true 21 1)) /\
  Parser.int ("" ++ JS.signed_text false "18446744073709551616" ++ "")
  = Ok (VBigInt 18446744073709551616).
Proof.
  split.
  - apply (proj1 (integer_digits " " " " true "0042" eq_refl eq_refl
                    ltac:(discriminate) eq_refl)).
  - apply (proj1 (integer_digits "" "" false "18446744073709551616"
                    eq_refl eq_refl ltac:(discriminate) eq_refl)).
Defined.

(** X3.  An [integer] element with a hexadecimal, octal or binary literal
    ([0x], [0o], [0b] and digits, white space or none around it): the
    Number of its value, exactly, up to 2^53 - 1, and the BigInt of its
    value beyond. *)
Theorem integer_radix (text : string) (z : Z) :
  JS.non_decimal (JS.trim text) = Some z ->
  0 <= z /\
  Parser.int text
  = (if z <=? JS.MAX_SAFE_INTEGER then Ok (VNumber (JS.of_Z z))
     else Ok (VBigInt z)) /\
  (z <= JS.MAX_SAFE_INTEGER -> JS.integer_value (JS.of_Z z) = z).
Proof.
  intros H. pose proof (IntegerProofs.non_decimal_nonneg _ _ H) as H0.
  split; [exact H0|split].
  - assert (N : JS.Number text = JS.of_Z z).
    { unfold JS.Number. rewrite H.
      destruct (String.eqb_spec (JS.trim text) "") as [E|]; [|reflexivity].
      rewrite E in H. discriminate H. }
    assert (B : JS.BigInt text = Ok z).
    { unfold JS.BigInt. rewrite H.
      destruct (String.eqb_spec (JS.trim text) "") as [E|]; [|reflexivity].
      rewrite E in H. discriminate H. }
    rewrite IntegerProofs.int_cases, N, B.
    destruct (Z.leb_spec z JS.MAX_SAFE_INTEGER) as [L|L].
    + now destruct (IntegerProofs.of_Z_small z ltac:(lia)) as [-> _].
    + now rewrite IntegerProofs.of_Z_large by lia.
  - intros L. now destruct (IntegerProofs.of_Z_small z ltac:(lia)).
Qed.

Lemma integer_radix_witness :
  Parser.int " 0xFF" = Ok (VNumber (JS.Finite false 255 0)) /\
  Parser.int "0x10000000000000000" = Ok (VBigInt 18446744073709551616).
Proof.
  split.
  - apply (proj1 (proj2 (integer_radix " 0xFF" 255 eq_refl))).
  - apply (proj1 (proj2 (integer_radix "0x10000000000000000"
                           18446744073709551616 eq_refl))).
Defined.

(** *** Numbers beyond the safe integers *)

Module LargeNumberProofs.
Import JS RoundingProofs DigitsProofs NumberProofs ScanProofs FormatProofs TextProofs.
Import IntegerTextProofs IntegerProofs.
Local Open Scope Z_scope.

Lemma value_lt s :
  Str.forallb Digits.is_digit s = true ->
  Digits.value s < 10 ^ Z.of_nat (String.length s).
Proof.
  induction s as [|c r IH]; intros H.
  - cbn. lia.
  - cbn [Str.forallb] in H. apply andb_true_iff in H as [Hc Hr].
    specialize (IH Hr). pose proof (digit_value_range c Hc) as Rc.
    change (String c r) with (String c "" ++ r).
    rewrite value_append, length_append.
    change (Digits.value (String c "")) with (10 * 0 + Digits.digit_value c).
    change (String.length (String c "")) with 1%nat.
    rewrite Nat2Z.inj_add, Z.pow_add_r by lia.
    pose proof (pow_pos 10 (Z.of_nat (String.length r)) ltac:(lia) ltac:(lia)).
    change (10 ^ Z.of_nat 1) with 10. nia.
Qed.

(** A number of at least [d] digits prints with at least [d] digits. *)
Lemma print_long n d :
  0 <= d -> 10 ^ d <= n -> d < Z.of_nat (String.length (Digits.print n)).
Proof.
  intros Hd Hn.
  assert (N0 : 0 <= n).
  { pose proof (pow_pos 10 d ltac:(lia) Hd). lia. }
  pose proof (value_lt (Digits.print n) (print_digits n N0)) as L.
  rewrite value_print in L by exact N0.
  destruct (Z.lt_ge_cases d (Z.of_nat (String.length (Digits.print n))))
    as [|G]; [assumption|exfalso].
  pose proof (Z.pow_le_mono_r 10 _ d ltac:(lia) G). lia.
Qed.

(** The digits chosen for an integer from 10^21 on end beyond the 21st
    place. *)
Lemma shortest_large m e :
  is_double (Finite false m e) = true -> 0 <= e ->
  10 ^ 21 <= Z.pos m * 2 ^ e ->
  0 < fst (shortest m e) /\
  21 < Z.of_nat (String.length (Digits.print (fst (shortest m e))))
       + snd (shortest m e).
Proof.
  intros Hd He Hge.
  destruct (shortest_sound false m e Hd) as [Hpos _].
  split; [exact Hpos|]. revert Hpos. unfold shortest, exact_decimal.
  destruct (Z.leb_spec 0 e); [|lia].
  set (s := Z.pos m * 2 ^ e) in *.
  set (j := (String.length (Digits.print s) - 1)%nat).
  destruct (shortest_from_shape (Finite false m e) s 0 j)
    as [->|(j' & Hj' & Hp & Hf)]; cbn [fst snd].
  - intros _. pose proof (print_long s 21 ltac:(lia) Hge). lia.
  - rewrite Hp. intros Hpos.
    set (s' := fst (shortest_from (Finite false m e) s 0 j)) in *.
    destruct (Z.le_gt_cases (Z.of_nat j') 21) as [L|L].
    + assert (B : 10 ^ (21 - Z.of_nat j') <= s').
      { set (t := 10 ^ Z.of_nat j') in *.
        assert (Ht : 0 < t) by (apply pow_pos; lia).
        assert (E21 : 10 ^ 21 = 10 ^ (21 - Z.of_nat j') * t).
        { unfold t. rewrite <- Z.pow_add_r by lia. f_equal. lia. }
        assert (Q : 10 ^ (21 - Z.of_nat j') <= s / t).
        { apply Z.div_le_lower_bound; [exact Ht|]. lia. }
        destruct Hf as [->|[-> _]]; lia. }
      pose proof (print_long s' (21 - Z.of_nat j') ltac:(lia) B). lia.
    + pose proof (print_nonempty s') as Ne.
      destruct (Digits.print s'); [contradiction|]. cbn [String.length]. lia.
Qed.

(** Digits that end beyond the 21st place are written with an exponent
    part. *)
Lemma format_large s p :
  0 < s -> 21 < Z.of_nat (String.length (Digits.print s)) + p ->
  exists c rest,
    format s p = String c rest /\ Digits.is_digit c = true /\
    Str.forallb Digits.is_digit rest = false.
Proof.
  intros Hs Hn. unfold format.
  pose proof (print_digits s ltac:(lia)) as Dall.
  pose proof (value_print s ltac:(lia)) as Vall.
  set (all := Digits.print s) in *.
  destruct (strip_zeros_spec all) as [Eall Lds].
  pose proof (strip_zeros_digits all Dall) as Dds.
  set (ds := Digits.strip_zeros all) in *.
  assert (Hne : ds <> "").
  { intros E. rewrite E in Eall. cbn [append] in Eall.
    rewrite Eall, value_zeros in Vall. lia. }
  cbv zeta.
  set (n := Z.of_nat (String.length all) + p) in *.
  destruct (Z.leb_spec n 21); [lia|]. rewrite !andb_false_r.
  destruct (Z.leb_spec n 0); [lia|]. rewrite !andb_false_r.
  destruct ds as [|c r]; [contradiction|].
  cbn [Str.forallb] in Dds. apply andb_true_iff in Dds as [Dc Dr].
  destruct r as [|c' r'].
  - exists c, (exponent_text (n - 1)). repeat split; [exact Dc|].
    unfold exponent_text. now destruct (0 <=? n - 1).
  - exists c, ("." ++ String c' r' ++ exponent_text (n - 1)).
    repeat split. exact Dc.
Qed.

(** A text with something other than digits after its first digit is no
    integer literal. *)
Lemma BigInt_not_digits neg c rest :
  Digits.is_digit c = true -> Str.forallb Digits.is_digit rest = false ->
  Str.forallb numeric_char (String c rest) = true ->
  BigInt (signed_text neg (String c rest)) = Throw SyntaxError.
Proof.
  intros Hc Hr Hnum.
  assert (Hnum' : Str.forallb numeric_char (signed_text neg (String c rest)) = true).
  { unfold signed_text. destruct neg; [|exact Hnum].
    cbn [append Str.forallb] in *. exact Hnum. }
  unfold BigInt. rewrite (trim_numeric _ Hnum'), (non_decimal_numeric _ Hnum').
  assert (S : scan_sign (signed_text neg (String c rest)) = (neg, String c rest)).
  { unfold signed_text. destruct neg; [reflexivity|].
    cbn [append]. now apply scan_sign_digit. }
  assert (Ne : String.eqb (signed_text neg (String c rest)) "" = false).
  { unfold signed_text. now destruct neg. }
  rewrite Ne, S.
  pose proof (span_spec (String c rest)) as Sp.
  destruct (Digits.span (String c rest)) as [ds rest'].
  destruct Sp as (E & Hd & _).
  destruct (String.eqb_spec rest' "") as [->|R];
    [|now rewrite andb_false_r].
  exfalso. rewrite append_nil_r in E. rewrite <- E in Hd.
  cbn [Str.forallb] in Hd. rewrite Hc, Hr in Hd. discriminate Hd.
Qed.

Lemma val_integer_el (r : Host) text :
  Parser.val r (Serializer.el "integer" text) = ([], Parser.int text).
Proof. rewrite RoundTripProofs.val_el. reflexivity. Qed.

End LargeNumberProofs.

(** X4.  An integral Number of magnitude 10^21 or more is written as an
    [integer] element whose text is in exponent notation, and reading
    that element throws a [SyntaxError]. *)
Theorem huge_number_not_read_back (w r : Host) (x : JS.number) :
  JS.is_double x = true -> JS.isInteger x = true ->
  10 ^ 21 <= Z.abs (JS.integer_value x) ->
  Serializer.val w (VNumber x)
  = Ok (Some (Serializer.el "integer" (JS.String_of_number x))) /\
  Parser.val r (Serializer.el "integer" (JS.String_of_number x))
  = ([], Throw SyntaxError).
Proof.
  intros Hd Hi Hge. split; [cbn [Serializer.val]; now rewrite Hi|].
  rewrite LargeNumberProofs.val_integer_el. f_equal.
  destruct x as [|neg|neg|neg m e]; try discriminate Hi.
  { cbn [JS.integer_value Z.abs] in Hge.
    change (10 ^ 21) with 1000000000000000000000 in Hge. lia. }
  cbn [JS.isInteger] in Hi. apply Z.leb_le in Hi.
  assert (Hm : 10 ^ 21 <= Z.pos m * 2 ^ e).
  { cbn [JS.integer_value] in Hge.
    pose proof (RoundingProofs.pow_pos 2 e ltac:(lia) Hi). destruct neg; nia. }
  rewrite IntegerProofs.int_cases.
  rewrite TextProofs.Number_String by (exact Hd || discriminate).
  assert (S : JS.isSafeInteger (JS.Finite neg m e) = false).
  { unfold JS.isSafeInteger, JS.integer_value, JS.MAX_SAFE_INTEGER.
    apply andb_false_iff. right. apply Z.leb_gt.
    change (2 ^ 53 - 1) with 9007199254740991.
    change (10 ^ 21) with 1000000000000000000000 in Hm.
    destruct neg; lia. }
  rewrite S.
  destruct (LargeNumberProofs.shortest_large m e Hd Hi Hm) as [Hs Hn].
  cbn [JS.String_of_number]. destruct (JS.shortest m e) as [s p].
  cbn [fst snd] in Hs, Hn.
  destruct (LargeNumberProofs.format_large s p Hs Hn) as (c & rest & E & Hc & Hr).
  destruct (FormatProofs.format_text neg s p Hs) as (m' & e' & Ht & _).
  apply FormatProofs.decimal_text_numeric in Ht. rewrite E in *.
  change ((if neg then "-" else "") ++ String c rest)
    with (JS.signed_text neg (String c rest)).
  now rewrite LargeNumberProofs.BigInt_not_digits.
Qed.

Lemma huge_number_not_read_back_witness :
  Parser.val (scenario_host (Dom.Text ""))
    (Serializer.el "integer" (JS.String_of_number (JS.Finite false 476837158203125 21)))
  = ([], Throw SyntaxError).
Proof.
  apply (proj2 (huge_number_not_read_back (scenario_host (Dom.Text ""))
                  (scenario_host (Dom.Text ""))
                  (JS.Finite false 476837158203125 21) eq_refl eq_refl
                  ltac:(vm_compute; discriminate))).
Defined.

(** X5.  An integral Number beyond the safe integers and below 10^21 is
    written as an [integer] element that reads as a BigInt, not as the
    Number: the BigInt of the digits of the text, which rounds to the
    Number. *)
Theorem unsafe_number_reads_as_bigint (w r : Host) (x : JS.number) :
  JS.is_double x = true -> JS.isInteger x = true ->
  JS.MAX_SAFE_INTEGER < Z.abs (JS.integer_value x) < 10 ^ 21 ->
  exists z,
    Serializer.val w (VNumber x)
    = Ok (Some (Serializer.el "integer" (JS.String_of_number x))) /\
    Parser.val r (Serializer.el "integer" (JS.String_of_number x))
    = ([], Ok (VBigInt z)) /\
    JS.of_Z z = x /\ JS.MAX_SAFE_INTEGER < Z.abs z.
Proof.
  intros Hd Hi [Hlo Hhi].
  assert (Hz : x <> JS.Zero true).
  { intros ->. cbn in Hlo. unfold JS.MAX_SAFE_INTEGER in Hlo. cbn in Hlo. lia. }
  assert (S : JS.isSafeInteger x = false).
  { unfold JS.isSafeInteger. rewrite Hi. apply Z.leb_gt. exact Hlo. }
  destruct (IntegerTextProofs.String_of_integer x Hd Hi Hhi)
    as (neg & ip & E & Hne & Hip).
  pose proof (decimal_integer ip Hne Hip) as Ht.
  pose proof (TextProofs.Number_String x Hd Hz) as N.
  rewrite E in N. change ((if neg then "-" else "") ++ ip)
    with (JS.signed_text neg ip) in N, E.
  rewrite (TextProofs.Number_signed_text neg ip _ _ Ht) in N.
  pose proof (IntegerProofs.value_nonneg ip Hip) as H0.
  set (z := if neg then - Digits.value ip else Digits.value ip).
  assert (Hbig : JS.MAX_SAFE_INTEGER < Digits.value ip).
  { destruct (Z.lt_ge_cases JS.MAX_SAFE_INTEGER (Digits.value ip)) as [|G];
      [assumption|exfalso].
    destruct (IntegerProofs.of_decimal_small neg (Digits.value ip)
                ltac:(lia)) as [S' _].
    rewrite N in S'. congruence. }
  exists z. split; [cbn [Serializer.val]; now rewrite Hi|].
  split; [|split].
  - rewrite LargeNumberProofs.val_integer_el. f_equal.
    rewrite IntegerProofs.int_cases.
    rewrite (TextProofs.Number_String x Hd Hz), S, E.
    now rewrite TextProofs.BigInt_signed_digits.
  - unfold JS.MAX_SAFE_INTEGER in Hbig. cbn in Hbig.
    destruct (IntegerProofs.of_Z_decimal z) as [->|Z0];
      [|unfold z in Z0; destruct neg; lia].
    rewrite <- N. unfold z. destruct neg.
    + destruct (Z.ltb_spec (- Digits.value ip) 0); [|lia]. f_equal. lia.
    + destruct (Z.ltb_spec (Digits.value ip) 0); [lia|]. f_equal. lia.
  - unfold z. destruct neg; lia.
Qed.

Lemma unsafe_number_reads_as_bigint_witness :
  exists z,
    Serializer.val (scenario_host (Dom.Text "")) (VNumber (JS.Finite false 1 60))
    = Ok (Some (Serializer.el "integer"
                  (JS.String_of_number (JS.Finite false 1 60)))) /\
    Parser.val (scenario_host (Dom.Text ""))
      (Serializer.el "integer" (JS.String_of_number (JS.Finite false 1 60)))
    = ([], Ok (VBigInt z)) /\
    JS.of_Z z = JS.Finite false 1 60 /\ JS.MAX_SAFE_INTEGER < Z.abs z.
Proof.
  apply (unsafe_number_reads_as_bigint (scenario_host (Dom.Text ""))
           (scenario_host (Dom.Text "")) (JS.Finite false 1 60)
           eq_refl eq_refl).
  vm_compute. split; reflexivity.
Defined.

(** *** The object of a [dict] *)

Module ObjectProofs.
Import Obj.

Section Entries.
Context {A : Type}.
Implicit Types (o : list (string * A)) (k : string) (v : A).

Lemma before_asym k k' : before k k' = true -> before k' k = false.
Proof.
  unfold before. destruct (array_index k), (array_index k'); try discriminate;
    try reflexivity.
  intros H. apply Z.ltb_lt in H. apply Z.ltb_ge. lia.
Qed.

Lemma before_irrefl k : before k k = false.
Proof.
  unfold before. destruct (array_index k); [apply Z.ltb_irrefl|reflexivity].
Qed.

(** A key enumerated before [k1] goes before what does not go before
    [k1]. *)
Lemma before_between k k1 kb :
  before k k1 = true -> before kb k1 = false ->
  kb <> k /\ before kb k = false.
Proof.
  intros H1 H2. split; [intros ->; congruence|].
  revert H1 H2. unfold before.
  destruct (array_index k), (array_index k1), (array_index kb);
    try discriminate; try reflexivity.
  intros H1 H2. apply Z.ltb_lt in H1. apply Z.ltb_ge in H2. apply Z.ltb_ge. lia.
Qed.

Lemma Forall_set (P : string * A -> Prop) o k v :
  Forall P o -> P (k, v) -> Forall P (set o k v).
Proof.
  intros F Hk. induction F as [|[k' v'] o Hx F IH]; cbn [set].
  - now constructor.
  - destruct (String.eqb k' k); [now constructor|].
    destruct (before k k'); constructor; auto.
Qed.

Lemma set_enumerated o k v : enumerated o -> enumerated (set o k v).
Proof.
  unfold enumerated.
  induction 1 as [|[k' v'] o Ha Ho IH]; cbn [set].
  - constructor; constructor.
  - destruct (String.eqb_spec k' k) as [->|N].
    + constructor; [exact Ha|exact Ho].
    + destruct (before k k') eqn:B.
      * constructor; [|now constructor].
        constructor.
        -- cbn [fst]. split; [congruence|now apply before_asym].
        -- rewrite Forall_forall in *. intros x Hx.
           destruct (Ha x Hx) as [_ H2]. cbn [fst] in *.
           destruct (before_between k k' (fst x) B H2). split; congruence.
      * constructor; [|exact IH].
        apply Forall_set; [exact Ha|]. cbn [fst]. now split.
Qed.

Lemma fold_set_enumerated (l : list (string * A)) o :
  enumerated o ->
  enumerated (fold_left (fun o kv => set o (fst kv) (snd kv)) l o).
Proof.
  revert o. induction l as [|kv l IH]; intros o H; cbn [fold_left];
    [exact H|]. apply IH. now apply set_enumerated.
Qed.

Lemma fromEntries_is_enumerated (l : list (string * A)) :
  enumerated (fromEntries l).
Proof. apply fold_set_enumerated. constructor. Qed.

Lemma enumerated_NoDup o : enumerated o -> NoDup (map fst o).
Proof.
  unfold enumerated. induction 1 as [|kv o Ha Ho IH]; cbn [map]; constructor;
    [|exact IH].
  intros Hin. apply in_map_iff in Hin as (x & E & Hx).
  rewrite Forall_forall in Ha. destruct (Ha x Hx) as [N _]. congruence.
Qed.

Lemma get_set o k v k' :
  get_property (set o k v) k'
  = if String.eqb k k' then Some v else get_property o k'.
Proof.
  induction o as [|[k1 v1] o IH]; cbn [set get_property]; [reflexivity|].
  destruct (String.eqb_spec k1 k) as [->|N]; cbn [get_property].
  - now destruct (String.eqb k k').
  - destruct (before k k1); cbn [get_property]; [reflexivity|].
    rewrite IH. destruct (String.eqb_spec k1 k') as [->|N'];
      [|reflexivity].
    destruct (String.eqb_spec k k'); [congruence|reflexivity].
Qed.

Lemma get_app o o' k :
  get_property (o ++ o') k
  = match get_property o k with
    | Some v => Some v
    | None => get_property o' k
    end.
Proof.
  induction o as [|[k1 v1] o IH]; cbn [app get_property]; [reflexivity|].
  now destruct (String.eqb k1 k).
Qed.

Lemma get_fold (l : list (string * A)) o k :
  get_property (fold_left (fun o kv => set o (fst kv) (snd kv)) l o) k
  = match get_property (rev l) k with
    | Some v => Some v
    | None => get_property o k
    end.
Proof.
  revert o. induction l as [|[k1 v1] l IH]; intros o; cbn [fold_left rev];
    [reflexivity|].
  rewrite IH, get_app, get_set. cbn [fst snd get_property].
  destruct (get_property (rev l) k); [reflexivity|].
  now destruct (String.eqb k1 k).
Qed.

Lemma get_none o k : get_property o k = None <-> ~ In k (map fst o).
Proof.
  induction o as [|[k1 v1] o IH]; cbn [get_property map In fst].
  - tauto.
  - destruct (String.eqb_spec k1 k) as [->|N].
    + split; [discriminate|]. intros H. exfalso. apply H. now left.
    + rewrite IH. tauto.
Qed.

End Entries.

End ObjectProofs.

(** X6.  The object [dict] makes of its entries has each key once, the keys
    are those of the entries, array indices first in ascending order
    and the other keys after them, and the value of a key is that of
    the last entry with this key. *)
Theorem fromEntries_last_wins (entries : list (string * value)) :
  Obj.enumerated (Obj.fromEntries entries) /\
  NoDup (map fst (Obj.fromEntries entries)) /\
  (forall k, In k (map fst (Obj.fromEntries entries)) <-> In k (map fst entries)) /\
  (forall k, get_property (Obj.fromEntries entries) k
             = get_property (rev entries) k).
Proof.
  assert (G : forall k, get_property (Obj.fromEntries entries) k
                        = get_property (rev entries) k).
  { intros k. unfold Obj.fromEntries. rewrite ObjectProofs.get_fold.
    now destruct (get_property (rev entries) k). }
  split; [apply ObjectProofs.fromEntries_is_enumerated|].
  split; [apply ObjectProofs.enumerated_NoDup,
            ObjectProofs.fromEntries_is_enumerated|].
  split; [|exact G].
  intros k.
  pose proof (ObjectProofs.get_none (Obj.fromEntries entries) k) as H1.
  pose proof (ObjectProofs.get_none (rev entries) k) as H2.
  rewrite G in H1. rewrite map_rev in H2.
  assert (R : In k (rev (map fst entries)) <-> In k (map fst entries))
    by (symmetry; apply in_rev).
  destruct (get_property (rev entries) k) as [v|].
  - split; intros _.
    + apply R. destruct (in_dec string_dec k (rev (map fst entries))); [assumption|].
      apply H2 in n. discriminate n.
    + destruct (in_dec string_dec k (map fst (Obj.fromEntries entries)));
        [assumption|]. apply H1 in n. discriminate n.
  - split; intros H; exfalso.
    + now apply (proj1 H1 eq_refl).
    + apply (proj1 H2 eq_refl). now apply R.
Qed.

Module DictProofs.
Import Dom Eff Parser ReaderProofs.

Lemma mapM_Some {A B} (f : A -> M B) l :
  mapM (fun a => y <- f a ;; ret (Some y)) l
  = (ys <- mapM f l ;; ret (map Some ys)).
Proof.
  induction l as [|a l IH]; cbn [mapM].
  - now rewrite bind_ret_l.
  - rewrite IH, !bind_assoc. apply bind_ext. intros y.
    rewrite bind_ret_l, !bind_assoc. apply bind_ext. intros ys.
    now rewrite !bind_ret_l.
Qed.

Section WithHost.
Context (h : Host).

(** The entry of a key and a value. *)
Lemma pairs_entries (ps : list (Node * Node)) :
  Forall (fun p => tag_is "key" (fst p) = true) ps ->
  let cs := map (fun c => (c, val h c)) (key_value_children ps) in
  mapM (pair cs) (seq 0 (List.length cs / 2))
  = mapM (fun p => y <- (x <- val h (snd p) ;; ret (textContent (fst p), x)) ;;
                   ret (Some y)) ps.
Proof.
  induction 1 as [|[k v] ps Hk _ IH]; [reflexivity|].
  cbn [key_value_children flat_map fst snd app map] in *.
  cbv zeta in *. rewrite entries_pair.
  fold (key_value_children ps). rewrite IH. cbn [mapM].
  unfold pair at 1. cbn [nth_error Nat.mul Nat.add]. rewrite Hk. cbn [negb].
  rewrite !bind_assoc. apply bind_ext. intros x.
  now rewrite !bind_ret_l.
Qed.

End WithHost.

End DictProofs.

(** X7.  A [dict] element whose child elements are keys and values in turn
    reads as the object of the entries made of the text of each [key]
    and what its value reads as, the values being read in document
    order; nothing is read of a [key] but its text. *)
Theorem dict_reads_pairs (h : Host) (attributes : list (string * string))
    (childNodes : list Dom.Node) (pairs : list (Dom.Node * Dom.Node)) :
  Dom.children (Dom.Element "dict" attributes childNodes)
  = key_value_children pairs ->
  Forall (fun p => Parser.tag_is "key" (fst p) = true) pairs ->
  Parser.val h (Dom.Element "dict" attributes childNodes)
  = (entries <- Eff.mapM (fun p => x <- Parser.val h (snd p) ;;
                                   Eff.ret (Dom.textContent (fst p), x)) pairs ;;
     Eff.ret (VObject (Obj.fromEntries entries))).
Proof.
  intros Hc Hk. rewrite ReaderProofs.val_dict, ReaderProofs.dict_entries.
  unfold Parser.converted. cbn [Dom.children] in Hc. rewrite Hc.
  rewrite (DictProofs.pairs_entries h pairs Hk), DictProofs.mapM_Some.
  rewrite ReaderProofs.bind_assoc. apply ReaderProofs.bind_ext. intros es.
  now rewrite ReaderProofs.bind_ret_l, RoundTripProofs.somes_map_Some.
Qed.

Lemma dict_reads_pairs_witness :
  Parser.val (scenario_host (Dom.Text ""))
    (Dom.Element "dict" []
       [Dom.Element "key" [] [Dom.Text "b"]; Dom.Element "true" [] [];
        Dom.Text " ";
        Dom.Element "key" [] [Dom.Text "1"]; Dom.Element "string" [] [Dom.Text "x"];
        Dom.Element "key" [] [Dom.Text "b"]; Dom.Element "false" [] []])
  = ([], Ok (VObject [("1", VString "x"); ("b", VBool false)])).
Proof.
  rewrite (dict_reads_pairs (scenario_host (Dom.Text "")) [] _
             [(Dom.Element "key" [] [Dom.Text "b"], Dom.Element "true" [] []);
              (Dom.Element "key" [] [Dom.Text "1"],
               Dom.Element "string" [] [Dom.Text "x"]);
              (Dom.Element "key" [] [Dom.Text "b"], Dom.Element "false" [] [])]).
  - reflexivity.
  - reflexivity.
  - repeat constructor.
Defined.

(** *** Arrays, and pairs without a key *)

Module ArrayProofs.
Import Dom Eff Parser ReaderProofs.

Lemma mapM_length {A B} (f : A -> M B) l w xs :
  mapM f l = (w, Ok xs) -> List.length xs = List.length l.
Proof.
  revert w xs. induction l as [|a l IH]; intros w xs; cbn [mapM].
  - intros [= <- <-]. reflexivity.
  - destruct (f a) as [w1 [b|e]]; cbn [bind]; [|discriminate].
    destruct (mapM f l) as [w2 [bs|e]] eqn:E; cbn [bind ret];
      [|discriminate].
    intros [= <- <-]. cbn [List.length]. now rewrite (IH w2 bs eq_refl).
Qed.

Lemma filter_children (n : Node) :
  List.filter is_element (children n) = children n.
Proof.
  destruct n as [t a kids| |]; try reflexivity. cbn [children].
  induction kids as [|k kids IH]; [reflexivity|].
  cbn [List.filter]. destruct (is_element k) eqn:E; [|exact IH].
  cbn [List.filter]. now rewrite E, IH.
Qed.

End ArrayProofs.

(** X9.  An [array] element reads as the array of what its child elements
    read as, in document order, text and comments between them skipped:
    the array has one item for each child element, and the first child
    that fails makes the array fail. *)
Theorem array_reads_items (h : Host) (attributes : list (string * string))
    (childNodes : list Dom.Node) :
  Parser.val h (Dom.Element "array" attributes childNodes)
  = (items <- Eff.mapM (Parser.val h)
                (Dom.children (Dom.Element "array" attributes childNodes)) ;;
     Eff.ret (VArray items)) /\
  forall warnings v,
    Parser.val h (Dom.Element "array" attributes childNodes) = (warnings, Ok v) ->
    exists items,
      v = VArray items /\
      List.length items
      = List.length (Dom.children (Dom.Element "array" attributes childNodes)).
Proof.
  assert (E : Parser.val h (Dom.Element "array" attributes childNodes)
              = (items <- Eff.mapM (Parser.val h)
                   (Dom.children (Dom.Element "array" attributes childNodes)) ;;
                 Eff.ret (VArray items))).
  { rewrite ReaderProofs.val_array. unfold Parser.converted.
    now rewrite ReaderProofs.mapM_map. }
  split; [exact E|]. rewrite E. intros w v.
  destruct (Eff.mapM _ _) as [w1 [items|e]] eqn:M; cbn; [|discriminate].
  intros [= <- <-]. exists items. split; [reflexivity|].
  exact (ArrayProofs.mapM_length _ _ _ _ M).
Qed.

Lemma array_reads_items_witness :
  exists items,
    VArray [VBool true; VString "x"] = VArray items /\
    List.length items
    = List.length
        (Dom.children
           (Dom.Element "array" []
              [Dom.Element "true" [] []; Dom.Text " ";
               Dom.Element "string" [] [Dom.Text "x"]])).
Proof.
  apply (proj2 (array_reads_items (scenario_host (Dom.Text "")) []
                  [Dom.Element "true" [] []; Dom.Text " ";
                   Dom.Element "string" [] [Dom.Text "x"]]) []).
  reflexivity.
Defined.

(** X8.  A pair of children of a [dict] whose first child is no [key] element
    adds a warning and no entry, and its second child is not read: the
    [dict] reads as the warning followed by what the children after the
    pair read as. *)
Theorem dict_skips_pair_without_key (h : Host)
    (attributes : list (string * string)) (childNodes : list Dom.Node)
    (first second : Dom.Node) (rest : list Dom.Node) :
  Dom.children (Dom.Element "dict" attributes childNodes)
  = first :: second :: rest ->
  Parser.tag_is "key" first = false ->
  Parser.val h (Dom.Element "dict" attributes childNodes)
  = (Eff.warn "Missing key in dictionary or malformed structure" ;;;
     Parser.val h (Dom.Element "dict" [] rest)).
Proof.
  intros Hc Hk. rewrite !ReaderProofs.val_dict. unfold Parser.converted.
  pose proof (ArrayProofs.filter_children
                (Dom.Element "dict" attributes childNodes)) as F.
  rewrite Hc in F. cbn [Dom.children] in Hc. rewrite Hc.
  assert (R : List.filter Dom.is_element rest = rest).
  { cbn [List.filter] in F.
    destruct (Dom.is_element first); destruct (Dom.is_element second);
      cbn [List.filter] in F.
    - now injection F.
    - apply (f_equal (@List.length _)) in F. cbn [List.length] in F.
      pose proof (filter_length_le Dom.is_element rest). lia.
    - apply (f_equal (@List.length _)) in F. cbn [List.length] in F.
      pose proof (filter_length_le Dom.is_element rest). lia.
    - apply (f_equal (@List.length _)) in F. cbn [List.length] in F.
      pose proof (filter_length_le Dom.is_element rest). lia. }
  rewrite R. cbn [map]. now apply ReaderProofs.dict_pair_without_key.
Qed.

Lemma dict_skips_pair_without_key_witness :
  Parser.val (scenario_host (Dom.Text ""))
    (Dom.Element "dict" []
       [Dom.Element "string" [] [Dom.Text "a"];
        Dom.Element "integer" [] [Dom.Text "x"];
        Dom.Element "key" [] [Dom.Text "b"]; Dom.Element "true" [] []])
  = (["Missing key in dictionary or malformed structure"],
     Ok (VObject [("b", VBool true)])).
Proof.
  apply (dict_skips_pair_without_key (scenario_host (Dom.Text "")) [] _
           (Dom.Element "string" [] [Dom.Text "a"])
           (Dom.Element "integer" [] [Dom.Text "x"])
           [Dom.Element "key" [] [Dom.Text "b"]; Dom.Element "true" [] []]);
    reflexivity.
Defined.

(** *** Elements that conform to the property list structure *)

Module QuietProofs.
Import Dom Eff Parser ReaderProofs.

Lemma quiet_ret {A} (a : A) : quiet (ret a).
Proof. split; [reflexivity|discriminate]. Qed.

Lemma quiet_bind {A B} (m : M A) (f : A -> M B) :
  quiet m -> (forall a, quiet (f a)) -> quiet (bind m f).
Proof.
  destruct m as [w [a|e]]; intros [Hw He] Hf; cbn in *; subst w.
  - specialize (Hf a). destruct (f a) as [w' r]. exact Hf.
  - split; [reflexivity|]. intros e0 [= <-]. now apply He.
Qed.

Lemma quiet_mapM {A B} (f : A -> M B) l :
  Forall (fun a => quiet (f a)) l -> quiet (mapM f l).
Proof.
  induction 1 as [|a l Ha _ IH]; cbn [mapM]; [apply quiet_ret|].
  apply quiet_bind; [exact Ha|]. intros b.
  apply quiet_bind; [exact IH|]. intros bs. apply quiet_ret.
Qed.

Lemma quiet_int text : quiet (lift (int text)).
Proof.
  split; [reflexivity|]. cbn [lift snd]. rewrite IntegerProofs.int_cases.
  destruct (JS.isSafeInteger (JS.Number text)); [discriminate|].
  destruct (JS.BigInt text) as [z|e'] eqn:B; [discriminate|].
  intros e [= <-]. left. exact (IntegerProofs.BigInt_throws text e' B).
Qed.

Lemma data_throws (h : Host) text e :
  data h text = Throw e ->
  e = if has_fromBase64 h then SyntaxError else InvalidCharacterError.
Proof.
  unfold data, Base64.fromBase64, Base64.atob, of_option.
  destruct (has_fromBase64 h);
    destruct (Base64.forgiving_decode (Str.remove_spaces text));
    try discriminate; now intros [= <-].
Qed.

Lemma quiet_data (h : Host) text : quiet (lift (data h text)).
Proof.
  split; [reflexivity|]. cbn [lift snd]. intros e H.
  apply data_throws in H. subst e. destruct (has_fromBase64 h); auto.
Qed.

Section WithHost.
Context (h : Host).

Lemma conforming_element t a kids :
  conforming (Element t a kids)
  = let cs := map (fun c => (c, conforming c)) (List.filter is_element kids) in
    if String.eqb t "dict" then paired cs
    else if String.eqb t "array" then forallb snd cs
    else value_tag t.
Proof.
  cbn [conforming].
  replace (flat_map _ kids)
    with (map (fun c => (c, conforming c)) (List.filter is_element kids));
    [reflexivity|].
  induction kids as [|k r IH]; [reflexivity|].
  cbn [List.filter flat_map]. destruct k; cbn; now rewrite IH.
Qed.

Lemma quiet_pairs (l : list Node) :
  Forall (fun c => conforming c = true -> quiet (val h c)) l ->
  paired (map (fun c => (c, conforming c)) l) = true ->
  quiet (mapM (pair (map (fun c => (c, val h c)) l))
              (seq 0 (List.length (map (fun c => (c, val h c)) l) / 2))).
Proof.
  induction l as [| |k v l IH] using by_pairs; intros F Hp;
    [apply quiet_ret..|].
  cbn [map paired fst snd] in *.
  apply andb_true_iff in Hp as [Hp Hl]. apply andb_true_iff in Hp as [Hk Hv].
  inversion F as [|? ? _ F1]; subst. inversion F1 as [|? ? Fv Fl]; subst.
  rewrite entries_pair. apply quiet_bind.
  - unfold pair. cbn [nth_error Nat.mul Nat.add]. rewrite Hk. cbn [negb].
    apply quiet_bind; [now apply Fv|]. intros x. apply quiet_ret.
  - intros e. apply quiet_bind; [now apply IH|]. intros es. apply quiet_ret.
Qed.

Lemma quiet_items (l : list Node) :
  Forall (fun c => conforming c = true -> quiet (val h c)) l ->
  forallb snd (map (fun c => (c, conforming c)) l) = true ->
  quiet (mapM snd (map (fun c => (c, val h c)) l)).
Proof.
  intros F Hp. apply quiet_mapM.
  induction F as [|c l Hc _ IH]; cbn [map forallb snd] in *; constructor.
  - apply andb_true_iff in Hp as [Hc' _]. cbn [snd]. now apply Hc.
  - apply andb_true_iff in Hp as [_ Hl]. now apply IH.
Qed.

Lemma conforming_quiet_val n : conforming n = true -> quiet (val h n).
Proof.
  induction n as [t a kids IH|d|d] using Node_induction;
    [|discriminate..].
  rewrite conforming_element, val_element. cbv zeta.
  assert (F : Forall (fun c => conforming c = true -> quiet (val h c))
                     (List.filter is_element kids)).
  { rewrite Forall_forall in *. intros c Hc. apply filter_In in Hc as [Hc _].
    now apply IH. }
  unfold handlers, converted, value_tag. cbn [existsb].
  destruct (String.eqb t "dict").
  { intros Hp. unfold dict. apply quiet_bind; [now apply quiet_pairs|].
    intros es. apply quiet_ret. }
  destruct (String.eqb t "array").
  { intros Hp. apply quiet_bind; [now apply quiet_items|].
    intros items. apply quiet_ret. }
  destruct (String.eqb t "string"); [intros _; apply quiet_ret|].
  destruct (String.eqb t "integer"); [intros _; apply quiet_int|].
  destruct (String.eqb t "real"); [intros _; apply quiet_ret|].
  destruct (String.eqb t "true"); [intros _; apply quiet_ret|].
  destruct (String.eqb t "false"); [intros _; apply quiet_ret|].
  destruct (String.eqb t "date"); [intros _; apply quiet_ret|].
  destruct (String.eqb t "data").
  { intros _. apply quiet_bind; [apply quiet_data|]. intros b. apply quiet_ret. }
  cbn [orb]. discriminate.
Qed.

End WithHost.

End QuietProofs.

(** X10.  Reading an element that conforms to the property list structure
    (the nine value elements, the children of a [dict] being keys and
    values in turn) writes no warning, and fails only on the text of an
    [integer] or a [data] element: with a [SyntaxError], or with the
    [InvalidCharacterError] of [atob]. *)
Theorem conforming_reads_quietly (h : Host) (n : Dom.Node) :
  conforming n = true ->
  fst (Parser.val h n) = [] /\
  forall e, snd (Parser.val h n) = Throw e ->
            e = SyntaxError \/ e = InvalidCharacterError.
Proof. apply QuietProofs.conforming_quiet_val. Qed.

Lemma conforming_reads_quietly_witness :
  fst (Parser.val (scenario_host (Dom.Text "")) sample_node) = [].
Proof.
  apply (proj1 (conforming_reads_quietly (scenario_host (Dom.Text ""))
                  sample_node eq_refl)).
Defined.

(** *** The document, binary data *)

(** X11.  [parse] looks for a [parsererror] element before anything else, and
    then reads the first child element of the [plist] element and
    nothing after it: a document that holds a [parsererror] element
    anywhere is refused with the text of that element, whatever else it
    holds; otherwise the text and the comments before the first child
    element are skipped, and the children after it are never read. *)
Theorem parse_reads_first_element (h : Host) (xml : string) :
  (forall err,
     Dom.querySelector "parsererror" (parseFromString h xml) = Some err ->
     Parser.parse h xml
     = ([], Throw (Error ("Error parsing XML: " ++ Dom.textContent err)))) /\
  (forall attributes before root rest,
     Dom.querySelector "parsererror" (parseFromString h xml) = None ->
     Dom.documentElement (parseFromString h xml)
     = Dom.Element "plist" attributes (before ++ root :: rest) ->
     Forall (fun n => Dom.is_element n = false) before ->
     Dom.is_element root = true ->
     Parser.parse h xml = Parser.val h root).
Proof.
  split.
  - intros err E. unfold Parser.parse. now rewrite E.
  - intros a before root rest E D F Hr. unfold Parser.parse. rewrite E.
    unfold Dom.querySelector. rewrite D. cbn [Dom.find String.eqb Ascii.eqb Bool.eqb].
    now rewrite ParseProofs.children_first.
Qed.

Lemma parse_reads_first_element_witness :
  Parser.parse
    (scenario_host
       (Dom.Element "plist" []
          ([Dom.Text " "; Dom.Comment "c"] ++ Dom.Element "true" [] []
           :: [Dom.Element "integer" [] [Dom.Text "x"]])))
    "<plist> <!--c--><true/><integer>x</integer></plist>"
  = ([], Ok (VBool true)).
Proof.
  apply (proj2 (parse_reads_first_element
                  (scenario_host
                     (Dom.Element "plist" []
                        ([Dom.Text " "; Dom.Comment "c"] ++ Dom.Element "true" [] []
                         :: [Dom.Element "integer" [] [Dom.Text "x"]]))) _)
           [] [Dom.Text " "; Dom.Comment "c"] (Dom.Element "true" [] [])
           [Dom.Element "integer" [] [Dom.Text "x"]]).
  - reflexivity.
  - reflexivity.
  - repeat constructor.
  - reflexivity.
Defined.

Module DataProofs.
Import Base64 Base64Proofs.
Local Open Scope N_scope.

Lemma spaced_removed s t :
  spaced s t -> Str.remove_spaces t = Str.remove_spaces s.
Proof.
  unfold Str.remove_spaces.
  induction 1 as [|c s t _ IH|w s t Hw _ IH]; cbn [Str.filter].
  - reflexivity.
  - now rewrite IH.
  - now rewrite Hw.
Qed.

Lemma spaced_blank t : Str.forallb Str.is_space t = true -> spaced "" t.
Proof.
  induction t as [|c r IH]; cbn [Str.forallb]; intros H.
  - constructor.
  - apply andb_true_iff in H as [Hc Hr]. constructor; auto.
Qed.

Lemma filter_filter f g s :
  (forall c, g c = true -> f c = true) ->
  Str.filter f (Str.filter g s) = Str.filter g s.
Proof.
  intros Hfg. induction s as [|c r IH]; cbn [Str.filter]; [reflexivity|].
  destruct (g c) eqn:G; [|exact IH]. cbn [Str.filter].
  now rewrite (Hfg c G), IH.
Qed.

Lemma ascii_space_is_space c : Str.is_ascii_space c = true -> Str.is_space c = true.
Proof.
  unfold Str.is_ascii_space, Str.is_space. cbv zeta.
  generalize (N_of_ascii c). intros n H. blia.
Qed.

(** The text of [data] with its white space removed has no ASCII white
    space for the decoder to skip. *)
Lemma clean_no_ascii_space text :
  Str.filter (fun c => negb (Str.is_ascii_space c)) (Str.remove_spaces text)
  = Str.remove_spaces text.
Proof.
  apply filter_filter. intros c H.
  destruct (Str.is_ascii_space c) eqn:E; [|reflexivity].
  apply ascii_space_is_space in E. rewrite E in H. discriminate H.
Qed.

Lemma indices_bad s :
  Str.forallb is_b64_char s = false ->
  indices s = None /\ indices (strip_padding s) = None.
Proof.
  induction s as [|c r IH]; cbn [Str.forallb]; [discriminate|].
  intros H. cbn [indices strip_padding].
  destruct (Ascii.eqb c pad && (String.eqb r "" || String.eqb r "="))%bool eqn:P.
  { exfalso. apply andb_true_iff in P as [Pc Pr].
    apply Ascii.eqb_eq in Pc. subst c.
    apply orb_true_iff in Pr as [Pr|Pr]; apply String.eqb_eq in Pr; subst r;
      discriminate H. }
  cbn [indices]. unfold is_b64_char in H.
  destruct (index_of c) as [n|] eqn:I; [|now split].
  cbn [andb] in H. destruct (IH H) as [-> ->]. now split.
Qed.

Lemma indices_length s l : indices s = Some l -> List.length l = String.length s.
Proof.
  revert l. induction s as [|c r IH]; cbn [indices]; intros l.
  - now intros [= <-].
  - destruct (index_of c); [|discriminate].
    destruct (indices r) as [l'|]; [|discriminate].
    intros [= <-]. cbn. now rewrite (IH l' eq_refl).
Qed.

Lemma by_fours {A} (P : list A -> Prop) :
  P [] -> (forall a, P [a]) -> (forall a b, P [a; b]) ->
  (forall a b c, P [a; b; c]) ->
  (forall a b c d l, P l -> P (a :: b :: c :: d :: l)) ->
  forall l, P l.
Proof.
  intros H0 H1 H2 H3 H4. fix IH 1. intros [|a [|b [|c [|d l]]]].
  - exact H0.
  - apply H1.
  - apply H2.
  - apply H3.
  - apply H4. apply IH.
Qed.

Lemma decode_groups_one l :
  N.of_nat (List.length l) mod 4 = 1 -> decode_groups l = None.
Proof.
  induction l as [|a|a b|a b c|a b c d l IH] using by_fours;
    cbn [List.length decode_groups]; try (intros H; now vm_compute in H).
  intros H. rewrite IH; [reflexivity|]. lia.
Qed.

Lemma forgiving_decode_clean text :
  forgiving_decode (Str.remove_spaces text)
  = match indices (if N.of_nat (String.length (Str.remove_spaces text)) mod 4 =? 0
                   then strip_padding (Str.remove_spaces text)
                   else Str.remove_spaces text) with
    | Some l => decode_groups l
    | None => None
    end.
Proof. unfold forgiving_decode. now rewrite clean_no_ascii_space. Qed.

Lemma data_of_decode (h : Host) text :
  Parser.data h text
  = match forgiving_decode (Str.remove_spaces text) with
    | Some bin => Ok (list_byte_of_string bin)
    | None =>
        Throw (if has_fromBase64 h then SyntaxError else InvalidCharacterError)
    end.
Proof.
  unfold Parser.data, fromBase64, atob, of_option.
  now destruct (has_fromBase64 h), (forgiving_decode (Str.remove_spaces text)).
Qed.

Lemma btoa_length_exact s :
  String.length (btoa s) = (4 * ((String.length s + 2) / 3))%nat.
Proof.
  induction s as [|a|a b|a b c r IH] using by_triples;
    cbn [btoa String.length]; try reflexivity.
  rewrite IH.
  replace (S (S (S (String.length r))) + 2)%nat
    with ((String.length r + 2) + 1 * 3)%nat by lia.
  rewrite Nat.div_add by lia. lia.
Qed.

Lemma length_string_of_list_byte b :
  String.length (string_of_list_byte b) = List.length b.
Proof.
  unfold string_of_list_byte.
  induction b as [|x b IH]; cbn [map string_of_list_ascii String.length List.length];
    [reflexivity|]. now rewrite IH.
Qed.

End DataProofs.

(** X12.  [data] reads a text through its characters other than white space
    only: inserting white space anywhere in a text changes neither the
    bytes nor the failure, and a text of white space only, the empty text
    included, gives the empty byte sequence. *)
Theorem data_ignores_white_space (h : Host) :
  (forall s t, spaced s t -> Parser.data h t = Parser.data h s) /\
  (forall t, Str.forallb Str.is_space t = true -> Parser.data h t = Ok []).
Proof.
  assert (G : forall s t, spaced s t -> Parser.data h t = Parser.data h s).
  { intros s t H. unfold Parser.data.
    now rewrite (DataProofs.spaced_removed s t H). }
  split; [exact G|].
  intros t H. rewrite (G "" t (DataProofs.spaced_blank t H)).
  unfold Parser.data. now destruct (has_fromBase64 h).
Qed.

Lemma data_ignores_white_space_witness :
  Parser.data (scenario_host (Dom.Text ""))
    (String (ascii_of_N 10) (String "A" (String " " "A==")))
  = Parser.data (scenario_host (Dom.Text "")) "AA==" /\
  Parser.data (scenario_host (Dom.Text "")) (String (ascii_of_N 9) " ") = Ok [].
Proof.
  split.
  - apply (proj1 (data_ignores_white_space (scenario_host (Dom.Text "")))).
    apply spaced_insert; [reflexivity|]. apply spaced_keep.
    apply spaced_insert; [reflexivity|].
    repeat apply spaced_keep. apply spaced_end.
  - apply (proj2 (data_ignores_white_space (scenario_host (Dom.Text "")))).
    reflexivity.
Defined.

(** X13.  [data] fails on a text that, white space apart, holds a character
    outside the base64 alphabet and the padding, or has a length of 1
    modulo 4: with a [SyntaxError] on a host with
    [Uint8Array.fromBase64], with the [InvalidCharacterError] of [atob]
    on the others. *)
Theorem data_rejects (h : Host) (text : string) :
  Str.forallb Base64.is_b64_char (Str.remove_spaces text) = false \/
  (N.of_nat (String.length (Str.remove_spaces text)) mod 4 = 1)%N ->
  Parser.data h text
  = Throw (if has_fromBase64 h then SyntaxError else InvalidCharacterError).
Proof.
  intros H. rewrite DataProofs.data_of_decode, DataProofs.forgiving_decode_clean.
  destruct H as [H|H].
  - destruct (DataProofs.indices_bad _ H) as [E1 E2].
    destruct (_ =? 0)%N; [now rewrite E2|now rewrite E1].
  - rewrite H. cbn [N.eqb Pos.eqb].
    destruct (Base64.indices (Str.remove_spaces text)) as [l|] eqn:I;
      [|reflexivity].
    rewrite DataProofs.decode_groups_one; [reflexivity|].
    now rewrite (DataProofs.indices_length _ _ I).
Qed.

Lemma data_rejects_witness :
  Parser.data (scenario_host (Dom.Text "")) "AA*A" = Throw InvalidCharacterError /\
  Parser.data (scenario_host (Dom.Text "")) "AAAA A" = Throw InvalidCharacterError.
Proof.
  split.
  - apply (data_rejects (scenario_host (Dom.Text "")) "AA*A"). left. reflexivity.
  - apply (data_rejects (scenario_host (Dom.Text "")) "AAAA A"). right. reflexivity.
Defined.

(** X14.  The text [b64] makes of [n] bytes has 4 characters for every 3 bytes
    or part of them, all of the base64 alphabet or the padding, and no
    white space or line break. *)
Theorem b64_shape (h : Host) (bytes : list byte) :
  String.length (Serializer.b64 h bytes)
  = (4 * ((List.length bytes + 2) / 3))%nat /\
  Str.forallb Base64.is_b64_char (Serializer.b64 h bytes) = true /\
  Str.remove_spaces (Serializer.b64 h bytes) = Serializer.b64 h bytes.
Proof.
  rewrite CodecProofs.b64_is_btoa. split; [|split].
  - now rewrite DataProofs.btoa_length_exact, DataProofs.length_string_of_list_byte.
  - apply Base64Proofs.btoa_chars.
  - apply Base64Proofs.btoa_no_space.
Qed.

(** *** The failures of the writer, tags without a handler *)

Module WriterErrorProofs.
Import Dom Serializer.

Section WithHost.
Context (h : Host).

Lemma outcome_items items :
  Forall (writer_outcome h) items ->
  if existsb has_invalid_date items
  then arr_children (val h) items = Throw RangeError
  else exists nodes, arr_children (val h) items = Ok nodes.
Proof.
  unfold writer_outcome.
  induction 1 as [|v items Hv _ IH]; cbn [existsb arr_children].
  - now exists [].
  - destruct (has_invalid_date v); cbn [orb].
    + now rewrite Hv.
    + destruct Hv as [n ->].
      destruct (existsb has_invalid_date items).
      * now rewrite IH.
      * destruct IH as [nodes ->]. eexists. reflexivity.
Qed.

Lemma outcome_entries entries :
  Forall (fun kv => writer_outcome h (snd kv)) entries ->
  if existsb (fun kv => has_invalid_date (snd kv)) entries
  then dict_children (val h) entries = Throw RangeError
  else exists nodes, dict_children (val h) entries = Ok nodes.
Proof.
  unfold writer_outcome.
  induction 1 as [|[k v] entries Hv _ IH]; cbn [existsb dict_children snd] in *.
  - now exists [].
  - destruct (has_invalid_date v); cbn [orb].
    + now rewrite Hv.
    + destruct Hv as [n ->].
      destruct (existsb (fun kv => has_invalid_date (snd kv)) entries).
      * now rewrite IH.
      * destruct IH as [nodes ->]. eexists. reflexivity.
Qed.

Lemma val_outcome v : writer_outcome h v.
Proof.
  induction v as [| |b|s|z|x|d|bytes|items IH|entries IH]
    using value_induction; unfold writer_outcome; cbn [has_invalid_date];
    try (eexists; reflexivity).
  - cbn [val]. destruct (JS.isInteger x); eexists; reflexivity.
  - destruct d; [reflexivity|eexists; reflexivity].
  - rewrite WriterProofs.write_array.
    pose proof (outcome_items items IH) as H.
    destruct (existsb has_invalid_date items).
    + now rewrite H.
    + destruct H as [nodes ->]. eexists. reflexivity.
  - rewrite WriterProofs.write_object.
    pose proof (outcome_entries entries IH) as H.
    destruct (existsb (fun kv => has_invalid_date (snd kv)) entries).
    + now rewrite H.
    + destruct H as [nodes ->]. eexists. reflexivity.
Qed.

End WithHost.

End WriterErrorProofs.

(** X15.  The writer fails on the values that hold an invalid Date, at any
    depth, with the [RangeError] of [toISOString], and on no other
    value. *)
Theorem writer_fails_on_invalid_date (h : Host) (v : value) :
  (has_invalid_date v = true ->
   Serializer.val h v = Throw RangeError /\
   Serializer.serialize h v = Throw RangeError) /\
  (has_invalid_date v = false ->
   exists node,
     Serializer.val h v = Ok node /\
     Serializer.serialize h v
     = Ok (Serializer.xml_declaration
           ++ serializeToString h (Serializer.document node))).
Proof.
  pose proof (WriterErrorProofs.val_outcome h v) as H.
  unfold writer_outcome in H. unfold Serializer.serialize.
  split; intros E; rewrite E in H.
  - now rewrite H.
  - destruct H as [n ->]. now exists n.
Qed.

Lemma writer_fails_on_invalid_date_witness :
  Serializer.serialize (scenario_host (Dom.Text ""))
    (VObject [("a", VArray [VNull; VBool true; VDate InvalidDate])])
  = Throw RangeError /\
  exists node,
    Serializer.val (scenario_host (Dom.Text "")) (VArray [VDate (TimeValue 0)])
    = Ok node /\
    Serializer.serialize (scenario_host (Dom.Text "")) (VArray [VDate (TimeValue 0)])
    = Ok (Serializer.xml_declaration
          ++ serializeToString (scenario_host (Dom.Text ""))
               (Serializer.document node)).
Proof.
  split.
  - apply (proj1 (writer_fails_on_invalid_date (scenario_host (Dom.Text "")) _)).
    reflexivity.
  - apply (proj2 (writer_fails_on_invalid_date (scenario_host (Dom.Text "")) _)).
    reflexivity.
Defined.

(** X16.  An element whose tag name is none of the nine value tags and no
    member of [Object.prototype] reads as its text content, with one
    warning that names the tag, whatever its attributes and children; no
    child is read. *)
Theorem unknown_tag_reads_as_text (h : Host) (tagName : string)
    (attributes : list (string * string)) (childNodes : list Dom.Node) :
  value_tag tagName = false -> Parser.inherited tagName = None ->
  Parser.val h (Dom.Element tagName attributes childNodes)
  = (["Unknown plist tag: <" ++ tagName ++ ">"],
     Ok (VString (Dom.textContent (Dom.Element tagName attributes childNodes)))).
Proof.
  intros Hv Hi. rewrite ReaderProofs.val_element.
  unfold Parser.handlers. unfold value_tag in Hv. cbn [existsb] in Hv.
  repeat match goal with
  | |- context [String.eqb tagName ?s] =>
      destruct (String.eqb tagName s); [discriminate Hv|]
  end.
  rewrite Hi. reflexivity.
Qed.

Lemma unknown_tag_reads_as_text_witness :
  Parser.val (scenario_host (Dom.Text ""))
    (Dom.Element "key" [] [Dom.Text "a"; Dom.Element "integer" [] [Dom.Text "x"]])
  = (["Unknown plist tag: <key>"], Ok (VString "ax")).
Proof.
  apply (unknown_tag_reads_as_text (scenario_host (Dom.Text "")) "key" []
           [Dom.Text "a"; Dom.Element "integer" [] [Dom.Text "x"]]);
    reflexivity.
Defined.

(** X17.  [handlers] is an object literal, so the tag names that are members
    of [Object.prototype] find a function in it too: such an element
    gives no warning, and reads as the empty object ([constructor]), as
    the text [[object Undefined]] ([toString]), as [false]
    ([isPrototypeOf]), or throws a [TypeError] ([valueOf] and the
    others), whatever its content. *)
Theorem prototype_member_tags (h : Host) (attributes : list (string * string))
    (childNodes : list Dom.Node) :
  Parser.val h (Dom.Element "constructor" attributes childNodes)
  = ([], Ok (VObject [])) /\
  Parser.val h (Dom.Element "toString" attributes childNodes)
  = ([], Ok (VString "[object Undefined]")) /\
  Parser.val h (Dom.Element "isPrototypeOf" attributes childNodes)
  = ([], Ok (VBool false)) /\
  Forall (fun tagName =>
            Parser.val h (Dom.Element tagName attributes childNodes)
            = ([], Throw TypeError))
         ["valueOf"; "toLocaleString"; "hasOwnProperty";
          "propertyIsEnumerable"; "__defineGetter__"; "__defineSetter__";
          "__lookupGetter__"; "__lookupSetter__"].
Proof.
  rewrite !ReaderProofs.val_element. repeat split.
  repeat constructor; rewrite ReaderProofs.val_element; reflexivity.
Qed.

(** *** Arrays with empty slots *)

Module SparseProofs.
Import Dom Serializer.

Section Hosts.
Context (w r : Host).

Lemma sparse_array items :
  sparse w r (VArray items)
  <-> Forall (fun x => is_absent x = true \/ sparse w r x) items.
Proof.
  cbn [sparse]. induction items as [|v items IH].
  - split; constructor.
  - split.
    + intros [H1 H2]. constructor; [exact H1|now apply IH].
    + intros H. inversion H; subst. split; [assumption|now apply IH].
Qed.

Lemma sparse_object entries :
  sparse w r (VObject entries) <->
  Obj.enumerated entries /\ Forall (fun kv => sparse w r (snd kv)) entries.
Proof.
  cbn [sparse]. apply and_iff_compat_l. induction entries as [|kv entries IH].
  - split; constructor.
  - split.
    + intros [H1 H2]. constructor; [exact H1|now apply IH].
    + intros H. inversion H; subst. split; [assumption|now apply IH].
Qed.

Lemma enumerated_keys {A B} (o : list (string * A)) (f : A -> B) :
  Obj.enumerated o -> Obj.enumerated (map (fun kv => (fst kv, f (snd kv))) o).
Proof.
  unfold Obj.enumerated. induction 1 as [|kv o Ha _ IH]; cbn [map];
    constructor; [|exact IH].
  rewrite Forall_forall in *. intros x Hx.
  apply in_map_iff in Hx as (y & <- & Hy). cbn [fst]. now apply Ha.
Qed.

(** The writer makes the same element of a value and of the value with
    the empty slots dropped. *)
Lemma val_compact v : val w (compact v) = val w v.
Proof.
  induction v as [| | | | | | | |items IH|entries IH] using value_induction;
    try reflexivity.
  - cbn [compact]. rewrite !WriterProofs.write_array.
    replace (arr_children (val w) (flat_map _ items))
      with (arr_children (val w) items); [reflexivity|].
    induction IH as [|x items Hx _ IHl]; [reflexivity|].
    cbn [flat_map]. destruct (is_absent x) eqn:E.
    + cbn [app]. rewrite <- IHl.
      destruct x; try discriminate E; cbn [arr_children val];
        now destruct (arr_children (val w) items).
    + cbn [app arr_children]. now rewrite Hx, IHl.
  - cbn [compact]. rewrite !WriterProofs.write_object.
    rewrite (WriterProofs.dict_children_ext w
               (map (fun kv => (fst kv, compact (snd kv))) entries) entries);
      [reflexivity|].
    induction IH; constructor; auto.
Qed.

(** With the empty slots dropped, a sparse value is plain. *)
Lemma sparse_plain v : sparse w r v -> plain w r (compact v).
Proof.
  induction v as [| | | | | | | |items IH|entries IH] using value_induction;
    try (intros H; exact H).
  - intros H. apply sparse_array in H. cbn [compact].
    apply RoundTripProofs.plain_array.
    induction IH as [|x items Hx _ IHl]; [constructor|].
    inversion H as [|? ? H1 H2]; subst. cbn [flat_map].
    destruct (is_absent x) eqn:E; cbn [app]; [now apply IHl|].
    constructor; [|now apply IHl].
    apply Hx. destruct H1 as [H1|H1]; [congruence|exact H1].
  - intros H. apply sparse_object in H as [Hen H]. cbn [compact].
    apply RoundTripProofs.plain_object. split; [now apply enumerated_keys|].
    clear Hen. induction IH as [|kv entries Hx _ IHl]; [constructor|].
    inversion H; subst. cbn [map]. constructor; [|now apply IHl].
    cbn [snd]. now apply Hx.
Qed.

End Hosts.

End SparseProofs.

(** X18.  Writing and reading back a value whose arrays have [null] or
    [undefined] items, and which is plain otherwise, gives the value
    with these items dropped from its arrays, at every depth, without a
    warning: the writer [w] makes of it the text of the document around
    its element, after the XML declaration, and whenever the XML parser
    of the reader [r] answers for that text the document that was
    serialized, [parse] returns the value without these items. *)
Theorem sparse_round_trip (w r : Host) (v : value) :
  sparse w r v ->
  exists node xml,
    Serializer.val w v = Ok (Some node) /\
    Serializer.serialize w v = Ok xml /\
    xml = (Serializer.xml_declaration
           ++ serializeToString w (Serializer.document (Some node)))%string /\
    Parser.val r node = ([], Ok (compact v)) /\
    (parseFromString r xml = Serializer.document (Some node) ->
     Parser.parse r xml = ([], Ok (compact v))).
Proof.
  intros H. apply SparseProofs.sparse_plain in H.
  destruct (RoundTripProofs.plain_good w r _ H) as (n & Hw & He & Hf & Hr).
  rewrite SparseProofs.val_compact in Hw.
  exists n. eexists. split; [exact Hw|]. split; [|split; [|split]].
  - unfold Serializer.serialize. rewrite Hw. reflexivity.
  - reflexivity.
  - exact Hr.
  - intros E. rewrite (DocumentProofs.parse_written r _ (Some n) E);
      [exact Hr|now split].
Qed.

Lemma sparse_round_trip_witness :
  Parser.parse
    (example_host
       (Serializer.document
          (Some (Dom.Element "array" []
                   [Dom.Element "true" [] []; Dom.Element "array" [] []])))
       "<plist/>")
    (Serializer.xml_declaration ++ "<plist/>")
  = ([], Ok (VArray [VBool true; VArray []])).
Proof.
  destruct (sparse_round_trip
              (example_host
                 (Serializer.document
                    (Some (Dom.Element "array" []
                             [Dom.Element "true" [] [];
                              Dom.Element "array" [] []])))
                 "<plist/>")
              (example_host
                 (Serializer.document
                    (Some (Dom.Element "array" []
                             [Dom.Element "true" [] [];
                              Dom.Element "array" [] []])))
                 "<plist/>")
              (VArray [VNull; VBool true; VArray [VUndefined]; VNull]))
    as (node & xml & Hv & Hs & Hx & Hr & Hp).
  - cbn. tauto.
  - vm_compute in Hv. injection Hv as <-.
    vm_compute in Hs. injection Hs as <-.
    apply Hp. reflexivity.
Defined.

(** *** The literal a [real] element is read from *)

Module LiteralProofs.
Import JS DigitsProofs ScanProofs TextProofs IntegerProofs.
Local Open Scope Z_scope.

Lemma literal_not_space c : literal_char c = true -> Str.is_space c = false.
Proof.
  destruct c as [[] [] [] [] [] [] [] []]; intros H;
    try discriminate H; reflexivity.
Qed.

Lemma literal_not_radix c : literal_char c = true -> radix_letter c = false.
Proof.
  destruct c as [[] [] [] [] [] [] [] []]; intros H;
    try discriminate H; reflexivity.
Qed.

Lemma digit_literal c : Digits.is_digit c = true -> literal_char c = true.
Proof. intros H. unfold literal_char, numeric_char. now rewrite H. Qed.

Lemma digits_literal s :
  Str.forallb Digits.is_digit s = true -> Str.forallb literal_char s = true.
Proof.
  induction s as [|c r IH]; [reflexivity|]. cbn [Str.forallb].
  intros H. apply andb_true_iff in H as [Hc Hr].
  now rewrite (digit_literal c Hc), IH.
Qed.

Lemma sign_literal sign neg :
  sign_text sign neg -> Str.forallb literal_char sign = true.
Proof. now intros []. Qed.

Lemma exponent_literal x ex :
  exponent_part x ex -> Str.forallb literal_char x = true.
Proof.
  intros [c sign neg ds Hc Hs Hn Hd]. cbn [Str.forallb].
  rewrite forallb_append, (sign_literal _ _ Hs), (digits_literal _ Hd).
  now destruct Hc as [->| ->].
Qed.

Lemma literal_chars t m e :
  decimal_literal t m e -> Str.forallb literal_char t = true.
Proof.
  intros [ip Hn Hd|ip fp Hn Hd Hf|ip x ex Hn Hd Hx|ip fp x ex Hn Hd Hf Hx];
    rewrite ?forallb_append, ?(digits_literal _ Hd), ?(digits_literal _ Hf),
      ?(exponent_literal _ _ Hx); reflexivity.
Qed.

Lemma trim_literal t : Str.forallb literal_char t = true -> trim t = t.
Proof.
  intros H. unfold trim.
  assert (S : trim_start t = t).
  { destruct t as [|c r]; [reflexivity|]. cbn [Str.forallb trim_start] in *.
    apply andb_true_iff in H as [Hc _]. now rewrite (literal_not_space c Hc). }
  rewrite S. clear S. induction t as [|c r IH]; [reflexivity|].
  cbn [Str.forallb trim_end] in *. apply andb_true_iff in H as [Hc Hr].
  rewrite IH by exact Hr. now rewrite (literal_not_space c Hc).
Qed.

Lemma non_decimal_literal t :
  Str.forallb literal_char t = true -> non_decimal t = None.
Proof.
  destruct t as [|a [|x r]]; [reflexivity| |].
  { intros _. destruct a as [[] [] [] [] [] [] [] []]; reflexivity. }
  cbn [Str.forallb]. intros H.
  apply andb_true_iff in H as [_ H]. apply andb_true_iff in H as [H _].
  apply non_decimal_second. now apply literal_not_radix.
Qed.

(** *** Prefixes *)

Lemma prefix_length a b :
  String.prefix a b = true -> (String.length a <= String.length b)%nat.
Proof.
  revert b. induction a as [|c a IH]; intros b H; cbn; [lia|].
  destruct b as [|d b]; [discriminate H|]. cbn in H.
  destruct (ascii_dec c d); [|discriminate H]. apply IH in H. cbn. lia.
Qed.

Lemma prefix_app a b : String.prefix a (a ++ b) = true.
Proof.
  induction a as [|c a IH]; [now destruct b|]. cbn.
  now destruct (ascii_dec c c).
Qed.

Lemma prefix_cases t c s :
  String.prefix t (String c s) = true ->
  t = "" \/ exists r, t = String c r /\ String.prefix r s = true.
Proof.
  destruct t as [|d r]; [now left|]. cbn.
  destruct (ascii_dec d c) as [->|]; [|discriminate]. right. now exists r.
Qed.

(** *** The head of a literal *)

Lemma literal_head t m e :
  decimal_literal t m e ->
  exists c r, t = String c r /\ (Digits.is_digit c = true \/ c = "."%char).
Proof.
  assert (G : forall ip tail, ip <> "" -> Str.forallb Digits.is_digit ip = true ->
              exists c r, ip ++ tail = String c r /\
                          (Digits.is_digit c = true \/ c = "."%char)).
  { intros ip tail Hn Hd. destruct ip as [|c r]; [contradiction|].
    cbn [Str.forallb] in Hd. apply andb_true_iff in Hd as [Hc _].
    exists c, (r ++ tail). split; [reflexivity|now left]. }
  assert (F : forall ip tail, Str.forallb Digits.is_digit ip = true ->
              exists c r, ip ++ "." ++ tail = String c r /\
                          (Digits.is_digit c = true \/ c = "."%char)).
  { intros ip tail Hd. destruct ip as [|c r].
    - exists "."%char, tail. split; [reflexivity|now right].
    - apply G; [discriminate|exact Hd]. }
  intros [ip Hn Hd|ip fp Hn Hd Hf|ip x ex Hn Hd Hx|ip fp x ex Hn Hd Hf Hx].
  - rewrite <- (append_nil_r ip). now apply G.
  - now apply F.
  - now apply G.
  - now apply F.
Qed.

Lemma head_not_sign c r :
  Digits.is_digit c = true \/ c = "."%char ->
  scan_sign (String c r) = (false, String c r) /\ Str.is_space c = false /\
  String.prefix "Infinity" (String c r) = false.
Proof.
  intros [H| ->]; [|now repeat split].
  repeat split; by_digit c H.
Qed.

(** *** A literal goes on with a digit, a point or an exponent part *)

Lemma exponent_part_digit x ex c :
  exponent_part x ex -> Digits.is_digit c = true ->
  exists ex', exponent_part (x ++ String c "") ex'.
Proof.
  intros [ch sign neg ds Hc Hs Hn Hd] Hc'. eexists.
  change (String ch (sign ++ ds) ++ String c "")
    with (String ch ((sign ++ ds) ++ String c "")).
  rewrite append_assoc.
  apply (exponent_part_intro ch sign neg (ds ++ String c "")); try assumption.
  - destruct ds; discriminate.
  - rewrite forallb_append, Hd. cbn. now rewrite Hc'.
Qed.

Lemma literal_digit t m e c :
  decimal_literal t m e -> Digits.is_digit c = true ->
  exists m' e', decimal_literal (t ++ String c "") m' e'.
Proof.
  assert (A : forall ds, Str.forallb Digits.is_digit ds = true ->
              Digits.is_digit c = true ->
              Str.forallb Digits.is_digit (ds ++ String c "") = true).
  { intros ds Hd Hc. rewrite forallb_append, Hd. cbn. now rewrite Hc. }
  intros [ip Hn Hd|ip fp Hn Hd Hf|ip x ex Hn Hd Hx|ip fp x ex Hn Hd Hf Hx] Hc.
  - do 2 eexists. apply literal_integer; [destruct ip; discriminate|now apply A].
  - do 2 eexists. rewrite !append_assoc.
    apply (literal_fraction ip (fp ++ String c "")); [|exact Hd|now apply A].
    right. destruct fp; discriminate.
  - destruct (exponent_part_digit x ex c Hx Hc) as [ex' Hx'].
    do 2 eexists. rewrite append_assoc.
    apply (literal_integer_exponent ip _ ex'); assumption.
  - destruct (exponent_part_digit x ex c Hx Hc) as [ex' Hx'].
    do 2 eexists. rewrite !append_assoc.
    apply (literal_fraction_exponent ip fp _ ex'); assumption.
Qed.

Lemma longest_shorter t tail t' m' e' rest :
  longest_literal t tail -> decimal_literal t' m' e' ->
  t ++ tail = t' ++ rest ->
  (String.length t' <= String.length t)%nat.
Proof.
  intros L Ht' E. apply (L t' m' e' Ht'). rewrite E. apply prefix_app.
Qed.

Lemma longest_stops t m e tail :
  decimal_literal t m e -> longest_literal t tail -> Digits.stops tail = true.
Proof.
  intros Ht L. destruct tail as [|c r]; [reflexivity|]. cbn [Digits.stops].
  destruct (Digits.is_digit c) eqn:Hc; [exfalso|reflexivity].
  destruct (literal_digit t m e c Ht Hc) as (m' & e' & Ht').
  pose proof (longest_shorter t (String c r) _ m' e' r L Ht') as B.
  rewrite append_assoc in B. specialize (B eq_refl).
  rewrite length_append in B. cbn in B. lia.
Qed.

Lemma longest_no_point ip tail :
  ip <> "" -> Str.forallb Digits.is_digit ip = true ->
  longest_literal ip tail -> no_point tail = true.
Proof.
  intros Hn Hd L. destruct tail as [|c r]; [reflexivity|]. cbn [no_point].
  destruct (Ascii.eqb_spec c ".") as [->|]; [exfalso|reflexivity].
  assert (Ht' : decimal_literal (ip ++ "." ++ "")
                  (Digits.value (ip ++ "")) (- Z.of_nat (String.length ""))).
  { apply literal_fraction; [now left|exact Hd|reflexivity]. }
  pose proof (longest_shorter ip (String "." r) _ _ _ r L Ht') as B.
  rewrite append_assoc in B. specialize (B eq_refl).
  rewrite length_append in B. cbn in B. lia.
Qed.

(** *** The exponent part *)

Lemma scan_sign_spec r :
  exists sign, sign_text sign (fst (scan_sign r)) /\
               r = sign ++ snd (scan_sign r).
Proof.
  destruct r as [|c r]; [exists ""; split; [constructor|reflexivity]|].
  destruct (Ascii.eqb_spec c "+") as [->|N1].
  { exists "+". split; [constructor|reflexivity]. }
  destruct (Ascii.eqb_spec c "-") as [->|N2].
  { exists "-". split; [constructor|reflexivity]. }
  exists "". assert (E : scan_sign (String c r) = (false, String c r)).
  { destruct c as [[] [] [] [] [] [] [] []]; try reflexivity;
      [now elim N1|now elim N2]. }
  rewrite E. split; [constructor|reflexivity].
Qed.

Lemma scan_exponent_cases s :
  scan_exponent s = (0, s) \/
  exists x ex rest, s = x ++ rest /\ exponent_part x ex.
Proof.
  destruct s as [|c r]; [now left|]. cbn [scan_exponent].
  destruct (Ascii.eqb c "e" || Ascii.eqb c "E")%bool eqn:Hc; [|now left].
  destruct (scan_sign_spec r) as (sign & Hs & Er).
  destruct (scan_sign r) as [neg r1]. cbn [fst snd] in *.
  pose proof (span_spec r1) as Sp. destruct (Digits.span r1) as [ds r2].
  destruct Sp as (E1 & Hd & _).
  destruct (String.eqb_spec ds "") as [->|Hn]; [now left|]. right.
  exists (String c (sign ++ ds)), (if neg then - Digits.value ds else Digits.value ds), r2.
  split.
  - cbn [append]. now rewrite append_assoc, <- E1, <- Er.
  - apply exponent_part_intro; try assumption.
    apply orb_true_iff in Hc as [H|H]; apply Ascii.eqb_eq in H; auto.
Qed.

Lemma exponent_part_head x ex tail :
  exponent_part x ex ->
  Digits.stops (x ++ tail) = true /\ no_point (x ++ tail) = true.
Proof. intros [c sign neg ds [->| ->] Hs Hn Hd]; now split. Qed.

Lemma exponent_part_length x ex :
  exponent_part x ex -> (0 < String.length x)%nat.
Proof. intros []. cbn. lia. Qed.

Lemma scan_exponent_part x ex tail :
  exponent_part x ex -> Digits.stops tail = true ->
  scan_exponent (x ++ tail) = (ex, tail).
Proof.
  intros [c sign neg ds Hc Hs Hn Hd] Ht.
  change (String c (sign ++ ds) ++ tail) with (String c ((sign ++ ds) ++ tail)).
  rewrite append_assoc. cbn [scan_exponent].
  assert (C : (Ascii.eqb c "e" || Ascii.eqb c "E")%bool = true)
    by now destruct Hc as [->| ->].
  rewrite C.
  assert (S : scan_sign (sign ++ ds ++ tail) = (neg, ds ++ tail)).
  { destruct Hs; try reflexivity. destruct ds as [|d ds']; [contradiction|].
    cbn [Str.forallb] in Hd. apply andb_true_iff in Hd as [Hd _].
    cbn [append]. now apply scan_sign_digit. }
  rewrite S, span_append by assumption.
  now rewrite eqb_nonempty by exact Hn.
Qed.

Lemma longest_no_exponent t tail :
  (forall x ex, exponent_part x ex -> exists m' e', decimal_literal (t ++ x) m' e') ->
  longest_literal t tail -> scan_exponent tail = (0, tail).
Proof.
  intros G L. destruct (scan_exponent_cases tail) as [E|(x & ex & rest & E & Hx)];
    [exact E|exfalso].
  destruct (G x ex Hx) as (m' & e' & Ht').
  pose proof (longest_shorter t tail _ m' e' rest L Ht') as B.
  rewrite append_assoc, <- E in B. specialize (B eq_refl).
  rewrite length_append in B. pose proof (exponent_part_length x ex Hx). lia.
Qed.

(** *** The scanner on a literal and what follows it *)

(** A decimal point and digits, then what follows them. *)
Lemma scan_unsigned_point neg fp t :
  fp <> "" -> Str.forallb Digits.is_digit fp = true -> Digits.stops t = true ->
  scan_unsigned neg ("." ++ fp ++ t) =
  Some (LDecimal neg (Digits.value fp)
                 (fst (scan_exponent t) - Z.of_nat (String.length fp)),
        snd (scan_exponent t)).
Proof.
  intros Hn Hf Ht. unfold scan_unsigned.
  change ("." ++ fp ++ t) with (String "." (fp ++ t)).
  cbn [String.prefix]. destruct (ascii_dec "I" "."); [discriminate|].
  cbn [Digits.span Digits.is_digit]. cbv iota beta.
  change (Digits.is_digit ".") with false. cbv iota.
  rewrite span_append by assumption.
  rewrite (eqb_nonempty fp Hn). cbn [String.eqb andb append].
  rewrite ?(eqb_nonempty fp Hn).
  destruct (scan_exponent t) as [ex rest]. reflexivity.
Qed.

Lemma scan_unsigned_any_fraction neg ip fp t :
  ip <> "" \/ fp <> "" -> Str.forallb Digits.is_digit ip = true ->
  Str.forallb Digits.is_digit fp = true -> Digits.stops t = true ->
  scan_unsigned neg (ip ++ "." ++ fp ++ t) =
  Some (LDecimal neg (Digits.value (ip ++ fp))
                 (fst (scan_exponent t) - Z.of_nat (String.length fp)),
        snd (scan_exponent t)).
Proof.
  intros Hn Hd Hf Ht. destruct ip as [|c ip'].
  - destruct Hn as [Hn|Hn]; [contradiction|]. now apply scan_unsigned_point.
  - apply scan_unsigned_fraction; [discriminate|assumption..].
Qed.

Lemma scan_unsigned_literal neg t m e tail :
  decimal_literal t m e -> longest_literal t tail ->
  scan_unsigned neg (t ++ tail) = Some (LDecimal neg m e, tail).
Proof.
  intros Ht L. pose proof (longest_stops t m e tail Ht L) as Hs.
  destruct Ht as [ip Hn Hd|ip fp Hn Hd Hf|ip x ex Hn Hd Hx|ip fp x ex Hn Hd Hf Hx].
  - rewrite scan_unsigned_integer;
      [|assumption|assumption|assumption|now apply (longest_no_point ip)].
    rewrite (longest_no_exponent ip tail); [reflexivity| |exact L].
    intros x ex Hx. do 2 eexists. apply literal_integer_exponent; eassumption.
  - rewrite !append_assoc. rewrite scan_unsigned_any_fraction by assumption.
    rewrite (longest_no_exponent (ip ++ "." ++ fp) tail); [|
      |exact L].
    + cbn [fst snd]. do 3 f_equal.
    + intros x ex Hx. do 2 eexists. rewrite !append_assoc.
      apply literal_fraction_exponent; eassumption.
  - rewrite append_assoc.
    destruct (exponent_part_head x ex tail Hx) as [H1 H2].
    rewrite scan_unsigned_integer by assumption.
    now rewrite (scan_exponent_part x ex tail Hx Hs).
  - rewrite !append_assoc. change ("." ++ fp ++ ?y) with ("." ++ (fp ++ y)).
    destruct (exponent_part_head x ex tail Hx) as [H1 _].
    rewrite scan_unsigned_any_fraction by assumption.
    now rewrite (scan_exponent_part x ex tail Hx Hs).
Qed.

Lemma scan_decimal_literal sign neg t m e tail :
  sign_text sign neg -> decimal_literal t m e -> longest_literal t tail ->
  scan_decimal (sign ++ t ++ tail) = Some (LDecimal neg m e, tail).
Proof.
  intros Hs Ht L. unfold scan_decimal.
  assert (S : scan_sign (sign ++ t ++ tail) = (neg, t ++ tail)).
  { destruct Hs; try reflexivity.
    destruct (literal_head t m e Ht) as (c & r & -> & Hc).
    cbn [append]. now apply head_not_sign. }
  rewrite S. now apply scan_unsigned_literal.
Qed.

Lemma signed_head sign neg t m e tail :
  sign_text sign neg -> decimal_literal t m e ->
  exists c r, sign ++ t ++ tail = String c r /\ Str.is_space c = false.
Proof.
  intros Hs Ht. destruct (literal_head t m e Ht) as (c & r & -> & Hc).
  destruct Hs; cbn [append]; eauto.
  exists c, (r ++ tail). split; [reflexivity|now apply (head_not_sign c r)].
Qed.

Lemma parseFloat_literal pre sign neg t m e tail :
  Str.forallb Str.is_space pre = true ->
  sign_text sign neg -> decimal_literal t m e -> longest_literal t tail ->
  parseFloat (pre ++ sign ++ t ++ tail) = of_decimal neg m e.
Proof.
  intros Hpre Hs Ht L. unfold parseFloat. rewrite trim_start_app by exact Hpre.
  destruct (signed_head sign neg t m e tail Hs Ht) as (c & r & E & Hc).
  assert (T : trim_start (sign ++ t ++ tail) = sign ++ t ++ tail).
  { rewrite E. cbn [trim_start]. now rewrite Hc. }
  rewrite T. now rewrite (scan_decimal_literal sign neg t m e tail).
Qed.

(** *** The longest literal of a text *)

Lemma longest_nil t : longest_literal t "".
Proof.
  intros t' m' e' _ P. rewrite append_nil_r in P. now apply prefix_length.
Qed.

Lemma literal_scans t m e :
  decimal_literal t m e -> scan_unsigned false t = Some (LDecimal false m e, "").
Proof.
  intros Ht. rewrite <- (append_nil_r t) at 1.
  apply scan_unsigned_literal; [exact Ht|apply longest_nil].
Qed.

(** A literal ends where a character that no literal has follows. *)
Lemma longest_before t c r : literal_char c = false -> longest_literal t (String c r).
Proof.
  intros Hc t' m' e' Ht' P. apply literal_chars in Ht'. clear m' e'.
  revert t' Ht' P. induction t as [|a t IH]; intros t' Ht' P.
  - cbn [append] in P. apply prefix_cases in P as [->|(r' & -> & _)]; [cbn; lia|].
    cbn [Str.forallb] in Ht'. now rewrite Hc in Ht'.
  - cbn [append] in P. apply prefix_cases in P as [->|(r' & -> & P)]; [cbn; lia|].
    cbn [Str.forallb] in Ht'. apply andb_true_iff in Ht' as [_ Ht'].
    specialize (IH r' Ht' P). cbn. lia.
Qed.

(** A literal has one decimal point at most. *)
Lemma points_append a b : points (a ++ b) = (points a + points b)%nat.
Proof. induction a as [|c a IH]; cbn [append points]; [reflexivity|]. rewrite IH. lia. Qed.

Lemma points_digits ds : Str.forallb Digits.is_digit ds = true -> points ds = O.
Proof.
  induction ds as [|c r IH]; [reflexivity|]. cbn [Str.forallb points].
  intros H. apply andb_true_iff in H as [Hc Hr]. rewrite (IH Hr).
  destruct (Ascii.eqb_spec c ".") as [->|]; [discriminate Hc|reflexivity].
Qed.

Lemma points_exponent x ex : exponent_part x ex -> points x = O.
Proof.
  intros [c sign neg ds Hc Hs Hn Hd]. cbn [points].
  rewrite points_append, (points_digits ds Hd).
  destruct Hs; now destruct Hc as [->| ->].
Qed.

Lemma literal_points t m e : decimal_literal t m e -> (points t <= 1)%nat.
Proof.
  intros [ip Hn Hd|ip fp Hn Hd Hf|ip x ex Hn Hd Hx|ip fp x ex Hn Hd Hf Hx];
    rewrite ?points_append, ?(points_digits _ Hd), ?(points_digits _ Hf),
      ?(points_exponent _ _ Hx); cbn; lia.
Qed.

(** A literal with a decimal point ends before the next one. *)
Lemma longest_point t r : points t = 1%nat -> longest_literal t (String "." r).
Proof.
  intros Hp t' m' e' Ht' P. apply literal_points in Ht'. clear m' e'.
  destruct (Nat.le_gt_cases (String.length t') (String.length t)) as [|G];
    [assumption|exfalso].
  assert (X : forall a b s, String.prefix s (a ++ String "." b) = true ->
              (String.length a < String.length s)%nat ->
              (points a + 1 <= points s)%nat).
  { clear. induction a as [|c a IH]; intros b s P G.
    - cbn [append] in P. apply prefix_cases in P as [->|(r' & -> & _)];
        [cbn in G; lia|]. cbn. lia.
    - cbn [append] in P. apply prefix_cases in P as [->|(r' & -> & P)];
        [cbn in G; lia|]. cbn [points String.length] in *.
      specialize (IH b r' P). lia. }
  specialize (X t r t' P G). lia.
Qed.

(** *** An [integer] with a decimal point or an exponent part *)

Lemma Number_literal sign neg t m e :
  sign_text sign neg -> decimal_literal t m e ->
  Number (sign ++ t) = of_decimal neg m e.
Proof.
  intros Hs Ht.
  assert (C : Str.forallb literal_char (sign ++ t) = true).
  { now rewrite forallb_append, (sign_literal _ _ Hs), (literal_chars _ _ _ Ht). }
  unfold Number. rewrite (trim_literal _ C), (non_decimal_literal _ C).
  destruct (signed_head sign neg t m e "" Hs Ht) as (c & r & E & _).
  rewrite append_nil_r in E. rewrite E. cbn [String.eqb]. rewrite <- E.
  pose proof (scan_decimal_literal sign neg t m e "" Hs Ht (longest_nil t)) as S.
  rewrite append_nil_r in S. now rewrite S.
Qed.

Lemma BigInt_literal sign neg t m e :
  sign_text sign neg -> decimal_literal t m e ->
  Str.forallb Digits.is_digit t = false ->
  BigInt (sign ++ t) = Throw SyntaxError.
Proof.
  intros Hs Ht Hn.
  assert (C : Str.forallb literal_char (sign ++ t) = true).
  { now rewrite forallb_append, (sign_literal _ _ Hs), (literal_chars _ _ _ Ht). }
  unfold BigInt. rewrite (trim_literal _ C), (non_decimal_literal _ C).
  destruct (signed_head sign neg t m e "" Hs Ht) as (c & r & E & _).
  rewrite append_nil_r in E. rewrite E. cbn [String.eqb]. rewrite <- E.
  assert (S : scan_sign (sign ++ t) = (neg, t)).
  { destruct Hs; try reflexivity.
    destruct (literal_head t m e Ht) as (c' & r' & -> & Hc).
    cbn [append]. now apply head_not_sign. }
  rewrite S. pose proof (span_spec t) as Sp.
  destruct (Digits.span t) as [ds rest]. destruct Sp as (Et & Hd & _).
  destruct (String.eqb_spec rest "") as [->|]; [|now rewrite andb_false_r].
  rewrite append_nil_r in Et. subst ds. congruence.
Qed.

End LiteralProofs.

(** X19.  A [real] element reads as the number of the longest decimal
    literal its text starts with, white space before it skipped and a sign
    before the literal taken; whatever follows the literal is ignored.
    The literal is digits, a decimal point with digits on one side at
    least, or either with an exponent part: [e] or [E], an optional sign,
    digits. *)
Theorem real_reads_prefix (h : Host) (attributes : list (string * string))
    (childNodes : list Dom.Node) (pre sign t tail : string) (neg : bool)
    (m e : Z) :
  Dom.textContent (Dom.Element "real" attributes childNodes)
  = pre ++ sign ++ t ++ tail ->
  Str.forallb Str.is_space pre = true ->
  sign_text sign neg ->
  decimal_literal t m e ->
  longest_literal t tail ->
  Parser.val h (Dom.Element "real" attributes childNodes)
  = ([], Ok (VNumber (JS.of_decimal neg m e))).
Proof.
  intros E Hpre Hs Ht L. rewrite ReaderProofs.val_real, E.
  now rewrite (LiteralProofs.parseFloat_literal pre sign neg t m e tail).
Qed.

Lemma real_reads_prefix_witness :
  Parser.val (scenario_host (Dom.Text ""))
    (Dom.Element "real" [] [Dom.Text " -1.5e+2abc"])
  = ([], Ok (VNumber (JS.of_decimal true 15 1))) /\
  Parser.val (scenario_host (Dom.Text ""))
    (Dom.Element "real" [] [Dom.Text "1e5x"])
  = ([], Ok (VNumber (JS.of_decimal false 1 5))) /\
  Parser.val (scenario_host (Dom.Text ""))
    (Dom.Element "real" [] [Dom.Text "+1E5"])
  = ([], Ok (VNumber (JS.of_decimal false 1 5))) /\
  Parser.val (scenario_host (Dom.Text ""))
    (Dom.Element "real" [] [Dom.Text "1.5.5"])
  = ([], Ok (VNumber (JS.of_decimal false 15 (-1)))) /\
  Parser.val (scenario_host (Dom.Text ""))
    (Dom.Element "real" [] [Dom.Text ".5e"])
  = ([], Ok (VNumber (JS.of_decimal false 5 (-1)))).
Proof.
  split; [|split; [|split; [|split]]].
  - apply (real_reads_prefix (scenario_host (Dom.Text "")) []
             [Dom.Text " -1.5e+2abc"] " " "-" ("1" ++ "." ++ "5" ++ "e+2") "abc"
             true (Digits.value ("1" ++ "5")) (2 - Z.of_nat (String.length "5"))).
    + reflexivity.
    + reflexivity.
    + constructor.
    + apply literal_fraction_exponent; [now left|reflexivity|reflexivity|].
      apply (exponent_part_intro "e" "+" false "2");
        [now left|constructor|discriminate|reflexivity].
    + now apply LiteralProofs.longest_before.
  - apply (real_reads_prefix (scenario_host (Dom.Text "")) []
             [Dom.Text "1e5x"] "" "" ("1" ++ "e5") "x"
             false (Digits.value "1") 5).
    + reflexivity.
    + reflexivity.
    + constructor.
    + apply literal_integer_exponent; [discriminate|reflexivity|].
      apply (exponent_part_intro "e" "" false "5");
        [now left|constructor|discriminate|reflexivity].
    + now apply LiteralProofs.longest_before.
  - apply (real_reads_prefix (scenario_host (Dom.Text "")) []
             [Dom.Text "+1E5"] "" "+" ("1" ++ "E5") ""
             false (Digits.value "1") 5).
    + reflexivity.
    + reflexivity.
    + constructor.
    + apply literal_integer_exponent; [discriminate|reflexivity|].
      apply (exponent_part_intro "E" "" false "5");
        [now right|constructor|discriminate|reflexivity].
    + apply LiteralProofs.longest_nil.
  - apply (real_reads_prefix (scenario_host (Dom.Text "")) []
             [Dom.Text "1.5.5"] "" "" ("1" ++ "." ++ "5") ".5"
             false (Digits.value ("1" ++ "5")) (- Z.of_nat (String.length "5"))).
    + reflexivity.
    + reflexivity.
    + constructor.
    + apply literal_fraction; [now left|reflexivity|reflexivity].
    + now apply LiteralProofs.longest_point.
  - apply (real_reads_prefix (scenario_host (Dom.Text "")) []
             [Dom.Text ".5e"] "" "" ("" ++ "." ++ "5") "e"
             false (Digits.value ("" ++ "5")) (- Z.of_nat (String.length "5"))).
    + reflexivity.
    + reflexivity.
    + constructor.
    + apply literal_fraction; [now right|reflexivity|reflexivity].
    + intros t' m' e' Ht' P.
      destruct (Nat.le_gt_cases (String.length t') 2) as [|G]; [assumption|].
      exfalso.
      apply LiteralProofs.prefix_cases in P as [->|(r1 & -> & P)]; [cbn in G; lia|].
      apply LiteralProofs.prefix_cases in P as [->|(r2 & -> & P)]; [cbn in G; lia|].
      apply LiteralProofs.prefix_cases in P as [->|(r3 & -> & P)]; [cbn in G; lia|].
      destruct r3; [|discriminate P].
      pose proof (LiteralProofs.literal_scans _ _ _ Ht') as S.
      vm_compute in S. discriminate S.
Defined.

(** *** What the writer emits *)

Module ConformProofs.
Import Dom Serializer.





Section WithHost.
Context (w : Host).

Lemma val_some v c :
  is_absent v = false -> val w v = Ok c -> exists n, c = Some n.
Proof.
  destruct v as [| |b|s|z|x|d|bytes|items|entries]; try discriminate;
    intros _; cbn [val].
  - intros [= <-]. eauto.
  - intros [= <-]. eauto.
  - intros [= <-]. eauto.
  - destruct (JS.isInteger x); intros [= <-]; eauto.
  - destruct d; [discriminate|]. intros [= <-]. eauto.
  - intros [= <-]. eauto.
  - destruct (arr (val w) items); [|discriminate]. intros [= <-]. eauto.
  - destruct (dict (val w) entries); [|discriminate]. intros [= <-]. eauto.
Qed.




End WithHost.

End ConformProofs.



(** *** Decimal points and exponents in an [integer], [data] without padding *)

(** X21.  An [integer] element whose text is a decimal literal with a
    decimal point or an exponent part, after an optional sign, reads as
    the Number of the literal when that is a safe integer, and throws a
    [SyntaxError] otherwise: [1.0], [1e3] and [+1E3] are taken, [1.5],
    [.5] and [1e21] are not. *)
Theorem integer_with_fraction_or_exponent (h : Host)
    (attributes : list (string * string)) (childNodes : list Dom.Node)
    (sign t : string) (neg : bool) (m e : Z) :
  Dom.textContent (Dom.Element "integer" attributes childNodes) = sign ++ t ->
  sign_text sign neg ->
  decimal_literal t m e -> Str.forallb Digits.is_digit t = false ->
  Parser.int (sign ++ t)
  = (if JS.isSafeInteger (JS.of_decimal neg m e)
     then Ok (VNumber (JS.of_decimal neg m e))
     else Throw SyntaxError) /\
  Parser.val h (Dom.Element "integer" attributes childNodes)
  = ([], if JS.isSafeInteger (JS.of_decimal neg m e)
         then Ok (VNumber (JS.of_decimal neg m e))
         else Throw SyntaxError).
Proof.
  intros E Hs Ht Hn.
  assert (I : Parser.int (sign ++ t)
              = if JS.isSafeInteger (JS.of_decimal neg m e)
                then Ok (VNumber (JS.of_decimal neg m e))
                else Throw SyntaxError).
  { rewrite IntegerProofs.int_cases.
    rewrite (LiteralProofs.Number_literal sign neg t m e Hs Ht).
    destruct (JS.isSafeInteger (JS.of_decimal neg m e)); [reflexivity|].
    now rewrite (LiteralProofs.BigInt_literal sign neg t m e Hs Ht Hn). }
  split; [exact I|].
  rewrite ReaderProofs.val_integer, E, I.
  now destruct (JS.isSafeInteger (JS.of_decimal neg m e)).
Qed.

Lemma integer_with_fraction_or_exponent_witness :
  Parser.val (scenario_host (Dom.Text ""))
    (Dom.Element "integer" [] [Dom.Text "1e3"])
  = ([], Ok (VNumber (JS.Finite false 125 3))) /\
  Parser.val (scenario_host (Dom.Text ""))
    (Dom.Element "integer" [] [Dom.Text "+1E3"])
  = ([], Ok (VNumber (JS.Finite false 125 3))) /\
  Parser.val (scenario_host (Dom.Text ""))
    (Dom.Element "integer" [] [Dom.Text "-1.0"])
  = ([], Ok (VNumber (JS.Finite true 1 0))) /\
  Parser.val (scenario_host (Dom.Text ""))
    (Dom.Element "integer" [] [Dom.Text "1e21"])
  = ([], Throw SyntaxError) /\
  Parser.val (scenario_host (Dom.Text ""))
    (Dom.Element "integer" [] [Dom.Text "-1.5"])
  = ([], Throw SyntaxError) /\
  Parser.val (scenario_host (Dom.Text ""))
    (Dom.Element "integer" [] [Dom.Text ".5"])
  = ([], Throw SyntaxError).
Proof.
  split; [|split; [|split; [|split; [|split]]]].
  - apply (integer_with_fraction_or_exponent (scenario_host (Dom.Text "")) []
             [Dom.Text "1e3"] "" ("1" ++ "e3") false (Digits.value "1") 3).
    + reflexivity.
    + constructor.
    + apply literal_integer_exponent; [discriminate|reflexivity|].
      apply (exponent_part_intro "e" "" false "3");
        [now left|constructor|discriminate|reflexivity].
    + reflexivity.
  - apply (integer_with_fraction_or_exponent (scenario_host (Dom.Text "")) []
             [Dom.Text "+1E3"] "+" ("1" ++ "E3") false (Digits.value "1") 3).
    + reflexivity.
    + constructor.
    + apply literal_integer_exponent; [discriminate|reflexivity|].
      apply (exponent_part_intro "E" "" false "3");
        [now right|constructor|discriminate|reflexivity].
    + reflexivity.
  - apply (integer_with_fraction_or_exponent (scenario_host (Dom.Text "")) []
             [Dom.Text "-1.0"] "-" ("1" ++ "." ++ "0") true
             (Digits.value ("1" ++ "0")) (- Z.of_nat (String.length "0"))).
    + reflexivity.
    + constructor.
    + apply literal_fraction; [now left|reflexivity|reflexivity].
    + reflexivity.
  - apply (integer_with_fraction_or_exponent (scenario_host (Dom.Text "")) []
             [Dom.Text "1e21"] "" ("1" ++ "e21") false (Digits.value "1") 21).
    + reflexivity.
    + constructor.
    + apply literal_integer_exponent; [discriminate|reflexivity|].
      apply (exponent_part_intro "e" "" false "21");
        [now left|constructor|discriminate|reflexivity].
    + reflexivity.
  - apply (integer_with_fraction_or_exponent (scenario_host (Dom.Text "")) []
             [Dom.Text "-1.5"] "-" ("1" ++ "." ++ "5") true
             (Digits.value ("1" ++ "5")) (- Z.of_nat (String.length "5"))).
    + reflexivity.
    + constructor.
    + apply literal_fraction; [now left|reflexivity|reflexivity].
    + reflexivity.
  - apply (integer_with_fraction_or_exponent (scenario_host (Dom.Text "")) []
             [Dom.Text ".5"] "" ("" ++ "." ++ "5") false
             (Digits.value ("" ++ "5")) (- Z.of_nat (String.length "5"))).
    + reflexivity.
    + constructor.
    + apply literal_fraction; [now right|reflexivity|reflexivity].
    + reflexivity.
Defined.

Module PaddingProofs.
Import Base64 Base64Proofs.

Lemma indices_no_padding s l : indices s = Some l -> strip_padding s = s.
Proof.
  revert l. induction s as [|c r IH]; intros l; [reflexivity|].
  cbn [indices strip_padding].
  destruct (index_of c) as [n|] eqn:I; [|discriminate].
  destruct (indices r) as [l'|]; [|discriminate]. intros _.
  destruct (Ascii.eqb_spec c pad) as [->|N]; [discriminate I|].
  cbn [andb]. now rewrite (IH l' eq_refl).
Qed.

Lemma indices_chars s l :
  indices s = Some l -> Str.forallb is_b64_char s = true.
Proof.
  revert l. induction s as [|c r IH]; intros l; [reflexivity|].
  cbn [indices Str.forallb]. unfold is_b64_char at 1.
  destruct (index_of c) as [n|]; [|discriminate].
  destruct (indices r) as [l'|]; [|discriminate]. intros _.
  now rewrite (IH l' eq_refl).
Qed.

Lemma forgiving_decode_unpadded s :
  forgiving_decode (Str.remove_spaces (strip_padding (btoa s))) = Some s.
Proof.
  destruct (decode_btoa s) as (l & Hl & Hd).
  pose proof (indices_chars _ _ Hl) as Hc.
  assert (R : Str.remove_spaces (strip_padding (btoa s)) = strip_padding (btoa s)).
  { apply filter_all. eapply forallb_impl; [|exact Hc].
    intros c H. now rewrite (proj2 (is_b64_char_not_space c H)). }
  assert (A : Str.filter (fun c => negb (Str.is_ascii_space c))
                (strip_padding (btoa s)) = strip_padding (btoa s)).
  { apply filter_all. eapply forallb_impl; [|exact Hc].
    intros c H. now rewrite (proj1 (is_b64_char_not_space c H)). }
  unfold forgiving_decode. rewrite R, A.
  rewrite (indices_no_padding _ _ Hl).
  destruct (_ =? 0)%N; now rewrite Hl.
Qed.

End PaddingProofs.

(** X22.  The padding is optional for [data]: the text [b64] makes of a
    byte sequence, with its [=] characters left out, still decodes to
    the byte sequence. *)
Theorem data_accepts_unpadded (w r : Host) (b : list byte) :
  Parser.data r (Base64.strip_padding (Serializer.b64 w b)) = Ok b.
Proof.
  rewrite CodecProofs.b64_is_btoa, DataProofs.data_of_decode.
  rewrite PaddingProofs.forgiving_decode_unpadded.
  now rewrite list_byte_of_string_of_list_byte.
Qed.

(** *** A property without a value *)

Module DanglingProofs.
Import Dom Serializer.
Local Open Scope nat_scope.

Section Hosts.
Context (w r : Host).

Lemma val_is_element v n : val w v = Ok (Some n) -> is_element n = true.
Proof.
  destruct v as [| |b|s|z|x|d|bytes|items|entries]; cbn [val];
    try discriminate; try (intros [= <-]; reflexivity).
  - destruct (JS.isInteger x); intros [= <-]; reflexivity.
  - destruct d; [discriminate|]. intros [= <-]. reflexivity.
  - unfold arr. destruct (arr_children (val w) items); [|discriminate].
    intros [= <-]. reflexivity.
  - unfold dict. destruct (dict_children (val w) entries); [|discriminate].
    intros [= <-]. reflexivity.
Qed.

(** The children of the [dict] of entries that all have a value element:
    elements, two for each entry. *)
Lemma dict_children_pairs entries nodes :
  Forall (fun kv => is_absent (snd kv) = false) entries ->
  dict_children (val w) entries = Ok nodes ->
  List.filter is_element nodes = nodes /\
  List.length nodes = 2 * List.length entries.
Proof.
  intros F. revert nodes.
  induction F as [|[k v] entries Ha _ IH]; intros nodes; cbn [dict_children].
  - intros [= <-]. now split.
  - cbn [snd] in Ha.
    destruct (val w v) as [c|] eqn:E; [|discriminate].
    destruct (dict_children (val w) entries) as [ns|]; [|discriminate].
    destruct (ConformProofs.val_some w v c Ha E) as [n ->].
    intros [= <-]. destruct (IH ns eq_refl) as [IH1 IH2].
    split.
    + unfold el at 1. cbn [List.filter is_element].
      now rewrite (val_is_element v n E), IH1.
    + cbn [List.length]. lia.
Qed.

Lemma plain_present v : plain w r v -> is_absent v = false.
Proof. destruct v; try reflexivity; intros []. Qed.

End Hosts.

End DanglingProofs.

(** X23.  An object whose last property has the value [null] or
    [undefined], and which is plain before it, is written with a [key]
    element that no value follows, and reads back as the object without
    that property, with no warning: the property is lost. *)
Theorem null_last_property_lost (w r : Host)
    (entries : list (string * value)) (k : string) (absent : value) :
  plain w r (VObject entries) -> is_absent absent = true ->
  exists nodes,
    Serializer.val w (VObject entries)
    = Ok (Some (Dom.Element "dict" [] nodes)) /\
    Serializer.val w (VObject (entries ++ [(k, absent)]))
    = Ok (Some (Dom.Element "dict" [] (nodes ++ [Serializer.el "key" k]))) /\
    Parser.val r (Dom.Element "dict" [] (nodes ++ [Serializer.el "key" k]))
    = ([], Ok (VObject entries)).
Proof.
  intros Hp Ha.
  destruct (RoundTripProofs.plain_good w r _ Hp) as (n & Hw & _ & _ & Hr).
  rewrite WriterProofs.write_object in Hw.
  destruct (Serializer.dict_children (Serializer.val w) entries)
    as [nodes|] eqn:E; [|discriminate Hw].
  injection Hw as <-. exists nodes. split; [|split].
  - rewrite WriterProofs.write_object. now rewrite E.
  - rewrite WriterProofs.write_object, WriterProofs.dict_children_app, E.
    destruct absent; try discriminate Ha; reflexivity.
  - apply RoundTripProofs.plain_object in Hp as [_ Hp].
    assert (F : Forall (fun kv => is_absent (snd kv) = false) entries).
    { rewrite Forall_forall in *. intros kv Hkv.
      exact (DanglingProofs.plain_present w r _ (Hp kv Hkv)). }
    destruct (DanglingProofs.dict_children_pairs w entries nodes F E)
      as [H1 H2].
    rewrite ReaderProofs.val_dict in Hr |- *.
    unfold Parser.converted in *. rewrite filter_app, map_app, H1 in *.
    unfold Serializer.el. cbn [List.filter Dom.is_element map].
    rewrite ReaderProofs.dict_odd_child; [exact Hr|].
    rewrite length_map, H2. apply Nat.even_spec. now exists (List.length entries).
Qed.

Lemma null_last_property_lost_witness :
  exists nodes,
    Serializer.val (scenario_host (Dom.Text "")) (VObject [("a", VBool true)])
    = Ok (Some (Dom.Element "dict" [] nodes)) /\
    Serializer.val (scenario_host (Dom.Text ""))
      (VObject ([("a", VBool true)] ++ [("b", VNull)]))
    = Ok (Some (Dom.Element "dict" [] (nodes ++ [Serializer.el "key" "b"]))) /\
    Parser.val (scenario_host (Dom.Text ""))
      (Dom.Element "dict" [] (nodes ++ [Serializer.el "key" "b"]))
    = ([], Ok (VObject [("a", VBool true)])).
Proof.
  apply (null_last_property_lost (scenario_host (Dom.Text ""))
           (scenario_host (Dom.Text "")) [("a", VBool true)] "b" VNull);
    [|reflexivity].
  cbn. repeat split. repeat constructor.
Defined.

(** *** What the reader throws and warns of, documents without a value *)

Module TameProofs.
Import Dom Eff Parser ReaderProofs.

Lemma tame_ret {A} (a : A) : tame (ret a).
Proof. split; [constructor|discriminate]. Qed.

Lemma tame_throw {A} e :
  e = SyntaxError \/ e = InvalidCharacterError \/ e = TypeError ->
  tame (throw (A := A) e).
Proof. intros H. split; [constructor|]. now intros e' [= <-]. Qed.

Lemma tame_warn message : reader_warning message -> tame (warn message).
Proof.
  intros H. split; [|discriminate]. cbn [warn fst].
  constructor; [exact H|constructor].
Qed.

Lemma tame_bind {A B} (m : M A) (f : A -> M B) :
  tame m -> (forall a, tame (f a)) -> tame (bind m f).
Proof.
  destruct m as [w [a|e]]; intros [Hw He] Hf; cbn [bind fst snd] in *.
  - specialize (Hf a). destruct (f a) as [w' r]. destruct Hf as [Hw' He'].
    cbn [fst snd] in *. split; [|exact He'].
    apply Forall_app. now split.
  - split; [exact Hw|]. intros e0 [= <-]. now apply He.
Qed.

Lemma tame_mapM {A B} (f : A -> M B) l :
  Forall (fun a => tame (f a)) l -> tame (mapM f l).
Proof.
  induction 1 as [|a l Ha _ IH]; cbn [mapM]; [apply tame_ret|].
  apply tame_bind; [exact Ha|]. intros b.
  apply tame_bind; [exact IH|]. intros bs. apply tame_ret.
Qed.

Lemma tame_lift_int text : tame (lift (int text)).
Proof.
  split; [constructor|]. cbn [lift snd]. rewrite IntegerProofs.int_cases.
  destruct (JS.isSafeInteger (JS.Number text)); [discriminate|].
  destruct (JS.BigInt text) as [z|e'] eqn:B; [discriminate|].
  intros e [= <-]. left. exact (IntegerProofs.BigInt_throws text e' B).
Qed.

Lemma tame_lift_data (h : Host) text : tame (lift (data h text)).
Proof.
  split; [constructor|]. cbn [lift snd]. intros e H.
  apply QuietProofs.data_throws in H. subst e.
  destruct (has_fromBase64 h); auto.
Qed.

Lemma tame_inherited t :
  match inherited t with Some fn => tame fn | None => True end.
Proof.
  unfold inherited.
  repeat match goal with
  | |- context [if ?b then _ else _] => destruct b
  end; try exact I; try apply tame_ret; apply tame_throw; auto.
Qed.

Lemma tame_pair (children : list (Node * M value)) i :
  Forall (fun c => tame (snd c)) children -> tame (pair children i).
Proof.
  intros F. unfold pair.
  assert (W : tame (warn "Missing key in dictionary or malformed structure" ;;;
                    ret (None (A := string * value)))).
  { apply tame_bind; [apply tame_warn; now left|]. intros _. apply tame_ret. }
  destruct (nth_error children (i * 2)) as [[k mk]|]; [|exact W].
  destruct (tag_is "key" k); cbn [negb]; [|exact W].
  apply tame_bind; [|intros x; apply tame_ret].
  destruct (nth_error children (i * 2 + 1)) as [[v mv]|] eqn:E;
    [|apply tame_ret].
  apply nth_error_In in E. rewrite Forall_forall in F. exact (F _ E).
Qed.

Section WithHost.
Context (h : Host).

Lemma tame_handlers t (children : list (Node * M value)) text :
  Forall (fun c => tame (snd c)) children ->
  match handlers h t children text with Some fn => tame fn | None => True end.
Proof.
  intros F. unfold handlers.
  repeat match goal with
  | |- context [if String.eqb t ?s then _ else _] => destruct (String.eqb t s)
  end.
  - unfold dict. apply tame_bind; [|intros es; apply tame_ret].
    apply tame_mapM. rewrite Forall_forall. intros i _.
    now apply tame_pair.
  - apply tame_bind; [|intros es; apply tame_ret].
    apply tame_mapM. exact F.
  - apply tame_ret.
  - apply tame_lift_int.
  - apply tame_ret.
  - apply tame_ret.
  - apply tame_ret.
  - apply tame_ret.
  - apply tame_bind; [apply tame_lift_data|intros b; apply tame_ret].
  - apply tame_inherited.
Qed.

Lemma tame_val n : tame (val h n).
Proof.
  induction n as [t a kids IH|d|d] using Node_induction.
  - rewrite val_element.
    assert (F : Forall (fun c => tame (snd c)) (converted h kids)).
    { unfold converted. rewrite Forall_forall in *. intros c Hc.
      apply in_map_iff in Hc as (x & <- & Hx).
      apply filter_In in Hx as [Hx _]. cbn [snd]. now apply IH. }
    pose proof (tame_handlers t (converted h kids)
                  (textContent (Element t a kids)) F) as H.
    destruct (handlers h t (converted h kids) (textContent (Element t a kids)))
      as [fn|]; [exact H|].
    apply tame_bind; [|intros _; apply tame_ret].
    apply tame_warn. right. now exists t.
  - cbn [val]. apply tame_bind; [|intros _; apply tame_ret].
    apply tame_warn. right. now exists "undefined".
  - cbn [val]. apply tame_bind; [|intros _; apply tame_ret].
    apply tame_warn. right. now exists "undefined".
Qed.

End WithHost.

End TameProofs.

(** X24.  Whatever the element, reading it throws nothing but a
    [SyntaxError], an [InvalidCharacterError] or a [TypeError], and
    writes no warning other than the one of a [dict] pair without its
    key and the one that names an unknown tag; [parse] throws these, or
    one of its own two errors. *)
Theorem reader_exceptions (h : Host) :
  (forall n,
     Forall reader_warning (fst (Parser.val h n)) /\
     forall e, snd (Parser.val h n) = Throw e ->
               e = SyntaxError \/ e = InvalidCharacterError \/ e = TypeError) /\
  (forall xml,
     Forall reader_warning (fst (Parser.parse h xml)) /\
     forall e, snd (Parser.parse h xml) = Throw e ->
               e = SyntaxError \/ e = InvalidCharacterError \/ e = TypeError \/
               exists message, e = Error message).
Proof.
  split; [apply TameProofs.tame_val|].
  intros xml. rewrite DocumentProofs.parse_answer.
  destruct (Dom.querySelector "parsererror" (parseFromString h xml)) as [err|].
  { split; [constructor|]. intros e [= <-]. eauto 6. }
  destruct (Dom.querySelector "plist" (parseFromString h xml)) as [plist|].
  2:{ split; [constructor|]. intros e [= <-]. eauto 6. }
  destruct (Dom.children plist) as [|root rest].
  { split; [constructor|discriminate]. }
  destruct (TameProofs.tame_val h root) as [Hw He]. split; [exact Hw|].
  intros e H. destruct (He e H) as [->|[->| ->]]; auto.
Qed.

(** X25.  Without a [parsererror] element, a document that holds no
    [plist] element at all makes [parse] throw its error for the missing
    root, and a [plist] element with no child element (empty, or with
    text and comments only) reads as [null], with no warning. *)
Theorem parse_missing_or_empty_plist (h : Host) (xml : string) :
  Dom.querySelector "parsererror" (parseFromString h xml) = None ->
  (Dom.querySelector "plist" (parseFromString h xml) = None ->
   Parser.parse h xml
   = ([], Throw (Error "Invalid plist: Missing <plist> root element."))) /\
  (forall attributes childNodes,
     Dom.documentElement (parseFromString h xml)
     = Dom.Element "plist" attributes childNodes ->
     Forall (fun n => Dom.is_element n = false) childNodes ->
     Parser.parse h xml = ([], Ok VNull)).
Proof.
  intros E. rewrite DocumentProofs.parse_answer, E. split.
  - intros N. rewrite N. reflexivity.
  - intros a kids D F. unfold Dom.querySelector. rewrite D.
    cbn [Dom.find String.eqb Ascii.eqb Bool.eqb Dom.children].
    replace (List.filter Dom.is_element kids) with (@nil Dom.Node);
      [reflexivity|].
    clear D. induction F as [|n kids Hn _ IH]; [reflexivity|].
    cbn [List.filter]. now rewrite Hn.
Qed.

Lemma parse_missing_or_empty_plist_witness :
  Parser.parse
    (scenario_host (Dom.Element "plist" [] [Dom.Text " "; Dom.Comment "none"]))
    "<plist> <!--none--></plist>"
  = ([], Ok VNull) /\
  Parser.parse (scenario_host (Dom.Element "dict" [] [])) "<dict/>"
  = ([], Throw (Error "Invalid plist: Missing <plist> root element.")).
Proof.
  split.
  - apply (proj2 (parse_missing_or_empty_plist
                    (scenario_host
                       (Dom.Element "plist" [] [Dom.Text " "; Dom.Comment "none"]))
                    "<plist> <!--none--></plist>" eq_refl)
             [] [Dom.Text " "; Dom.Comment "none"]).
    + reflexivity.
    + repeat constructor.
  - apply (proj1 (parse_missing_or_empty_plist
                    (scenario_host (Dom.Element "dict" [] [])) "<dict/>"
                    eq_refl)).
    reflexivity.
Defined.

(** *** The numbers that are read back as themselves *)

Module ScalarProofs.
Import Dom.

Lemma some_node_eq (n n' : Node) : Ok (Some n) = Ok (Some n') -> n = n'.
Proof. now intros [= ->]. Qed.

End ScalarProofs.

(** X26.  A Number is read back as itself from the element the writer
    makes of it exactly when it is not the negative zero and, if it is
    integral, is a safe integer. *)
Theorem number_round_trip_exactly (w r : Host) (x : JS.number) :
  JS.is_double x = true ->
  exists node,
    Serializer.val w (VNumber x) = Ok (Some node) /\
    (Parser.val r node = ([], Ok (VNumber x)) <->
     x <> JS.Zero true /\
     (JS.isInteger x = true -> JS.isSafeInteger x = true)).
Proof.
  intros Hd.
  exists (Serializer.el (if JS.isInteger x then "integer" else "real")
            (JS.String_of_number x)).
  split; [cbn [Serializer.val]; now destruct (JS.isInteger x)|].
  split.
  - intros H.
    assert (Hz : x <> JS.Zero true).
    { intros ->. discriminate H. }
    split; [exact Hz|]. intros Hi. rewrite Hi in H.
    rewrite LargeNumberProofs.val_integer_el, IntegerProofs.int_cases in H.
    rewrite (TextProofs.Number_String x Hd Hz) in H.
    destruct (JS.isSafeInteger x); [reflexivity|].
    destruct (JS.BigInt (JS.String_of_number x)); discriminate H.
  - intros [Hz Hs].
    assert (Hp : plain w r (VNumber x)) by (cbn [plain]; auto).
    destruct (RoundTripProofs.plain_good w r _ Hp) as (n & Hw & _ & _ & Hr).
    cbn [Serializer.val] in Hw.
    destruct (JS.isInteger x); apply ScalarProofs.some_node_eq in Hw;
      now rewrite Hw.
Qed.

Lemma number_round_trip_exactly_witness :
  exists node,
    Serializer.val (scenario_host (Dom.Text "")) (VNumber (JS.Zero true))
    = Ok (Some node) /\
    (Parser.val (scenario_host (Dom.Text "")) node
     = ([], Ok (VNumber (JS.Zero true))) <->
     JS.Zero true <> JS.Zero true /\
     (JS.isInteger (JS.Zero true) = true ->
      JS.isSafeInteger (JS.Zero true) = true)).
Proof.
  apply (number_round_trip_exactly (scenario_host (Dom.Text ""))
           (scenario_host (Dom.Text "")) (JS.Zero true)).
  reflexivity.
Defined.

(** X27.  A BigInt is read back as itself from the element the writer
    makes of it exactly when it is beyond the safe integers; within
    them, it is read back as the Number of the same value. *)
Theorem bigint_round_trip_exactly (w r : Host) (z : Z) :
  Serializer.val w (VBigInt z)
  = Ok (Some (Serializer.el "integer" (JS.String_of_bigint z))) /\
  (Parser.val r (Serializer.el "integer" (JS.String_of_bigint z))
   = ([], Ok (VBigInt z)) <-> JS.MAX_SAFE_INTEGER < Z.abs z) /\
  (Z.abs z <= JS.MAX_SAFE_INTEGER ->
   Parser.val r (Serializer.el "integer" (JS.String_of_bigint z))
   = ([], Ok (VNumber (JS.of_decimal (z <? 0) (Z.abs z) 0))) /\
   JS.integer_value (JS.of_decimal (z <? 0) (Z.abs z) 0) = z).
Proof.
  split; [reflexivity|].
  rewrite LargeNumberProofs.val_integer_el, IntegerProofs.int_cases.
  rewrite TextProofs.Number_String_of_bigint, TextProofs.BigInt_String.
  destruct (Z.lt_ge_cases JS.MAX_SAFE_INTEGER (Z.abs z)) as [L|L].
  - rewrite TextProofs.large_not_safe by exact L.
    split; [now split|]. intros G. lia.
  - destruct (IntegerProofs.of_decimal_small (z <? 0) (Z.abs z) ltac:(lia))
      as [S V].
    rewrite S. split.
    + split; [discriminate|lia].
    + intros _. split; [reflexivity|].
      rewrite V. destruct (Z.ltb_spec z 0); lia.
Qed.

Lemma bigint_round_trip_exactly_witness :
  Parser.val (scenario_host (Dom.Text ""))
    (Serializer.el "integer" (JS.String_of_bigint (-5)))
  = ([], Ok (VNumber (JS.of_decimal (-5 <? 0) (Z.abs (-5)) 0))) /\
  JS.integer_value (JS.of_decimal (-5 <? 0) (Z.abs (-5)) 0) = -5.
Proof.
  apply (proj2 (proj2 (bigint_round_trip_exactly (scenario_host (Dom.Text ""))
                         (scenario_host (Dom.Text "")) (-5)))).
  vm_compute. discriminate.
Defined.

(** ** The scenarios of the specification, run on the model *)

Module Scenarios.

(** Scenario 1: [<plist><dict><key>a</key><integer>5</integer></dict></plist>]
    reads as [{ a: 5 }], a machine integer. *)
Example scenario_dict :
  Parser.parse
    (scenario_host (Dom.Element "plist" []
             [Dom.Element "dict" []
                [Dom.Element "key" [] [Dom.Text "a"];
                 Dom.Element "integer" [] [Dom.Text "5"]]]))
    "<plist><dict><key>a</key><integer>5</integer></dict></plist>"
  = ([], Ok (VObject [("a", VNumber (JS.Finite false 5 0))])).
Proof. reflexivity. Qed.

(** Scenario 2: [<integer>9223372036854775807</integer>] reads as the
    BigInt of that value, which is written with the same text. *)
Example scenario_bigint :
  Parser.val (scenario_host (Dom.Text ""))
    (Dom.Element "integer" [] [Dom.Text "9223372036854775807"])
  = ([], Ok (VBigInt 9223372036854775807)) /\
  Serializer.val (scenario_host (Dom.Text "")) (VBigInt 9223372036854775807)
  = Ok (Some (Dom.Element "integer" [] [Dom.Text "9223372036854775807"])).
Proof. split; reflexivity. Qed.

(** Scenario 4: the bytes 0, 1, 2, 255 are encoded as [AAEC/w==], which
    decodes to them. *)
Example scenario_bytes :
  Serializer.b64 (scenario_host (Dom.Text "")) [x00; x01; x02; xff]%byte = "AAEC/w=="
  /\ Parser.data (scenario_host (Dom.Text "")) "AAEC/w=="
     = Ok [x00; x01; x02; xff]%byte.
Proof. split; reflexivity. Qed.

(** Scenario 5: a document with a [parsererror] element, which is what
    the XML parser answers for [<plist><dict>], makes [parse] throw. *)
Example scenario_unterminated :
  Parser.parse
    (scenario_host (Dom.Element "parsererror" [] [Dom.Text "unclosed tag"]))
    "<plist><dict>"
  = ([], Throw (Error "Error parsing XML: unclosed tag")).
Proof. reflexivity. Qed.

(** Texts of numbers: the shortest digits that read back, exponent
    notation from 10^21 on and below 10^-6. *)
Example number_texts :
  map (fun t => JS.String_of_number (JS.Number t))
      ["0.1"; "1e21"; "123.456"; "5e-324"; "1.7976931348623157e308";
       "1152921504606846976"; "0.000001"; "1e-7"; "-1.5"; "100"]
  = ["0.1"; "1e+21"; "123.456"; "5e-324"; "1.7976931348623157e+308";
     "1152921504606847000"; "0.000001"; "1e-7"; "-1.5"; "100"].
Proof. vm_compute. reflexivity. Qed.

End Scenarios.
